(** * Verification of the Wikipedia vocabulary extractor

    A shallow embedding of [wikepedia_parser.py] (class [WikiExtractor]).

    Python text ([str]) is a list of Unicode code points; the contents of a
    file on disk are bytes.  The program crosses that border in both
    directions (it opens every file with [encoding="utf-8"]), so the UTF-8
    codec is part of the model.  The regular expressions of the program are
    written as syntax trees and run by a backtracking matcher that follows the
    priorities of Python's [re] module. *)

From Stdlib Require Import String Ascii.
From Stdlib Require Import ZArith List Bool Lia Permutation Sorted.
Import ListNotations.
Local Open Scope Z_scope.

Set Implicit Arguments.

(* ================================================================== *)
(** * Python values *)
(* ================================================================== *)

(** A Python [str]: a sequence of code points. *)
Definition pystr := list Z.

(** The contents of a file, or of one line of a file: a sequence of bytes. *)
Definition bytes := list Z.

(** The exceptions the modelled code can meet. *)
Inductive exn : Type :=
| ReError                 (* re.error: invalid group reference in a template *)
| IndexError              (* Match.group(n) for a group the pattern lacks *)
| TypeError               (* str.join over an item that is None *)
| UnicodeDecodeError
| UnicodeEncodeError
| CalledProcessError.

(** The outcome of a Python computation: a value, or a raised exception. *)
Inductive result (A : Type) : Type :=
| Ok (a : A)
| Raise (e : exn).
Arguments Ok {A} a.
Arguments Raise {A} e.

Definition bind {A B : Type} (r : result A) (f : A -> result B) : result B :=
  match r with
  | Ok a => f a
  | Raise e => Raise e
  end.

Notation "x <- r ;; k" := (bind r (fun x => k))
  (at level 61, r at next level, right associativity).

(* ================================================================== *)
(** * The UTF-8 codec *)
(* ================================================================== *)

Module Utf8.

(** A continuation byte, 10xxxxxx. *)
Definition is_cont (b : Z) : bool := (128 <=? b) && (b <? 192).

(** Strict decoding, as Python's [utf-8] codec with [errors="strict"]:
    overlong forms, surrogates and values above U+10FFFF are rejected. *)
Fixpoint decode (bs : bytes) : option pystr :=
  match bs with
  | [] => Some []
  | b0 :: r0 =>
    if (0 <=? b0) && (b0 <? 128) then option_map (cons b0) (decode r0)
    else if (194 <=? b0) && (b0 <? 224) then
      match r0 with
      | b1 :: r1 =>
        if is_cont b1
        then option_map (cons ((b0 - 192) * 64 + (b1 - 128))) (decode r1)
        else None
      | _ => None
      end
    else if (224 <=? b0) && (b0 <? 240) then
      match r0 with
      | b1 :: b2 :: r2 =>
        let c := (b0 - 224) * 4096 + (b1 - 128) * 64 + (b2 - 128) in
        if is_cont b1 && is_cont b2 && (2048 <=? c)
           && negb ((55296 <=? c) && (c <? 57344))
        then option_map (cons c) (decode r2)
        else None
      | _ => None
      end
    else if (240 <=? b0) && (b0 <? 245) then
      match r0 with
      | b1 :: b2 :: b3 :: r3 =>
        let c := (b0 - 240) * 262144 + (b1 - 128) * 4096
                 + (b2 - 128) * 64 + (b3 - 128) in
        if is_cont b1 && is_cont b2 && is_cont b3
           && (65536 <=? c) && (c <? 1114112)
        then option_map (cons c) (decode r3)
        else None
      | _ => None
      end
    else None
  end.

(** Encoding of one code point; a surrogate cannot be encoded. *)
Definition encode_cp (c : Z) : option bytes :=
  if (0 <=? c) && (c <? 128) then Some [c]
  else if (128 <=? c) && (c <? 2048) then
    Some [192 + c / 64; 128 + c mod 64]
  else if (55296 <=? c) && (c <? 57344) then None
  else if (2048 <=? c) && (c <? 65536) then
    Some [224 + c / 4096; 128 + (c / 64) mod 64; 128 + c mod 64]
  else if (65536 <=? c) && (c <? 1114112) then
    Some [240 + c / 262144; 128 + (c / 4096) mod 64;
          128 + (c / 64) mod 64; 128 + c mod 64]
  else None.

Fixpoint encode (s : pystr) : option bytes :=
  match s with
  | [] => Some []
  | c :: s' =>
    match encode_cp c, encode s' with
    | Some b, Some bs => Some (b ++ bs)
    | _, _ => None
    end
  end.

End Utf8.

(** The bytes of a literal of this file (the file is UTF-8). *)
Definition bytes_of (s : string) : bytes :=
  map (fun a => Z.of_N (N_of_ascii a)) (list_ascii_of_string s).

(** The Python [str] a source literal denotes. *)
Definition u (s : string) : pystr :=
  match Utf8.decode (bytes_of s) with
  | Some t => t
  | None => []
  end.

(* ================================================================== *)
(** * Character data *)
(* ================================================================== *)

Definition mem (c : Z) (s : pystr) : bool := existsb (Z.eqb c) s.

(** [str.isspace], which is also the class [\s] of a [str] pattern and the
    set that [str.strip()] removes. *)
Definition whitespace : pystr :=
  [9; 10; 11; 12; 13; 28; 29; 30; 31; 32; 133; 160; 5760;
   8192; 8193; 8194; 8195; 8196; 8197; 8198; 8199; 8200; 8201; 8202;
   8232; 8233; 8239; 8287; 12288].

Definition is_space (c : Z) : bool := mem c whitespace.

(** The lowercase mapping of Unicode 14 (the table behind [str.lower]) as
    ranges [(lo, hi, stride, delta)]: a code point [c] with [lo <= c <= hi]
    and [(c - lo) mod stride = 0] maps to [c + delta]. *)
Definition lower_ranges : list (Z * Z * Z * Z) :=
  [
   (65, 90, 1, 32); (192, 214, 1, 32); (216, 222, 1, 32); (256, 302, 2, 1);
   (306, 310, 2, 1); (313, 327, 2, 1); (330, 374, 2, 1); (376, 376, 1,
   -121); (377, 381, 2, 1); (385, 385, 1, 210); (386, 388, 2, 1); (390, 390,
   1, 206); (391, 391, 1, 1); (393, 394, 1, 205); (395, 395, 1, 1); (398,
   398, 1, 79); (399, 399, 1, 202); (400, 400, 1, 203); (401, 401, 1, 1);
   (403, 403, 1, 205); (404, 404, 1, 207); (406, 406, 1, 211); (407, 407, 1,
   209); (408, 408, 1, 1); (412, 412, 1, 211); (413, 413, 1, 213); (415,
   415, 1, 214); (416, 420, 2, 1); (422, 422, 1, 218); (423, 423, 1, 1);
   (425, 425, 1, 218); (428, 428, 1, 1); (430, 430, 1, 218); (431, 431, 1,
   1); (433, 434, 1, 217); (435, 437, 2, 1); (439, 439, 1, 219); (440, 440,
   1, 1); (444, 444, 1, 1); (452, 452, 1, 2); (453, 453, 1, 1); (455, 455,
   1, 2); (456, 456, 1, 1); (458, 458, 1, 2); (459, 475, 2, 1); (478, 494,
   2, 1); (497, 497, 1, 2); (498, 500, 2, 1); (502, 502, 1, -97); (503, 503,
   1, -56); (504, 542, 2, 1); (544, 544, 1, -130); (546, 562, 2, 1); (570,
   570, 1, 10795); (571, 571, 1, 1); (573, 573, 1, -163); (574, 574, 1,
   10792); (577, 577, 1, 1); (579, 579, 1, -195); (580, 580, 1, 69); (581,
   581, 1, 71); (582, 590, 2, 1); (880, 882, 2, 1); (886, 886, 1, 1); (895,
   895, 1, 116); (902, 902, 1, 38); (904, 906, 1, 37); (908, 908, 1, 64);
   (910, 911, 1, 63); (913, 929, 1, 32); (931, 939, 1, 32); (975, 975, 1,
   8); (984, 1006, 2, 1); (1012, 1012, 1, -60); (1015, 1015, 1, 1); (1017,
   1017, 1, -7); (1018, 1018, 1, 1); (1021, 1023, 1, -130); (1024, 1039, 1,
   80); (1040, 1071, 1, 32); (1120, 1152, 2, 1); (1162, 1214, 2, 1); (1216,
   1216, 1, 15); (1217, 1229, 2, 1); (1232, 1326, 2, 1); (1329, 1366, 1,
   48); (4256, 4293, 1, 7264); (4295, 4295, 1, 7264); (4301, 4301, 1, 7264);
   (5024, 5103, 1, 38864); (5104, 5109, 1, 8); (7312, 7354, 1, -3008);
   (7357, 7359, 1, -3008); (7680, 7828, 2, 1); (7838, 7838, 1, -7615);
   (7840, 7934, 2, 1); (7944, 7951, 1, -8); (7960, 7965, 1, -8); (7976,
   7983, 1, -8); (7992, 7999, 1, -8); (8008, 8013, 1, -8); (8025, 8031, 2,
   -8); (8040, 8047, 1, -8); (8072, 8079, 1, -8); (8088, 8095, 1, -8);
   (8104, 8111, 1, -8); (8120, 8121, 1, -8); (8122, 8123, 1, -74); (8124,
   8124, 1, -9); (8136, 8139, 1, -86); (8140, 8140, 1, -9); (8152, 8153, 1,
   -8); (8154, 8155, 1, -100); (8168, 8169, 1, -8); (8170, 8171, 1, -112);
   (8172, 8172, 1, -7); (8184, 8185, 1, -128); (8186, 8187, 1, -126); (8188,
   8188, 1, -9); (8486, 8486, 1, -7517); (8490, 8490, 1, -8383); (8491,
   8491, 1, -8262); (8498, 8498, 1, 28); (8544, 8559, 1, 16); (8579, 8579,
   1, 1); (9398, 9423, 1, 26); (11264, 11311, 1, 48); (11360, 11360, 1, 1);
   (11362, 11362, 1, -10743); (11363, 11363, 1, -3814); (11364, 11364, 1,
   -10727); (11367, 11371, 2, 1); (11373, 11373, 1, -10780); (11374, 11374,
   1, -10749); (11375, 11375, 1, -10783); (11376, 11376, 1, -10782); (11378,
   11378, 1, 1); (11381, 11381, 1, 1); (11390, 11391, 1, -10815); (11392,
   11490, 2, 1); (11499, 11501, 2, 1); (11506, 11506, 1, 1); (42560, 42604,
   2, 1); (42624, 42650, 2, 1); (42786, 42798, 2, 1); (42802, 42862, 2, 1);
   (42873, 42875, 2, 1); (42877, 42877, 1, -35332); (42878, 42886, 2, 1);
   (42891, 42891, 1, 1); (42893, 42893, 1, -42280); (42896, 42898, 2, 1);
   (42902, 42920, 2, 1); (42922, 42922, 1, -42308); (42923, 42923, 1,
   -42319); (42924, 42924, 1, -42315); (42925, 42925, 1, -42305); (42926,
   42926, 1, -42308); (42928, 42928, 1, -42258); (42929, 42929, 1, -42282);
   (42930, 42930, 1, -42261); (42931, 42931, 1, 928); (42932, 42946, 2, 1);
   (42948, 42948, 1, -48); (42949, 42949, 1, -42307); (42950, 42950, 1,
   -35384); (42951, 42953, 2, 1); (42960, 42960, 1, 1); (42966, 42968, 2,
   1); (42997, 42997, 1, 1); (65313, 65338, 1, 32); (66560, 66599, 1, 40);
   (66736, 66771, 1, 40); (66928, 66938, 1, 39); (66940, 66954, 1, 39);
   (66956, 66962, 1, 39); (66964, 66965, 1, 39); (68736, 68786, 1, 64);
   (71840, 71871, 1, 32); (93760, 93791, 1, 32); (125184, 125217, 1, 34)
  ].

Fixpoint lower_lookup (t : list (Z * Z * Z * Z)) (c : Z) : Z :=
  match t with
  | [] => c
  | (lo, hi, stride, delta) :: t' =>
    if (lo <=? c) && (c <=? hi) && ((c - lo) mod stride =? 0)
    then c + delta
    else lower_lookup t' c
  end.

(** Lowercase of one code point.  U+0130 is the only code point whose
    lowercase form has two code points.  ([str.lower] also turns a
    word-final capital sigma into U+03C2 instead of U+03C3; neither letter
    belongs to an alphabet of this program.) *)
Definition lower_cp (c : Z) : pystr :=
  if c =? 304 then [105; 775] else [lower_lookup lower_ranges c].

(** [str.lower()]. *)
Definition lower (s : pystr) : pystr := flat_map lower_cp s.

(** [str.strip()] with no argument. *)
Fixpoint lstrip (s : pystr) : pystr :=
  match s with
  | c :: s' => if is_space c then lstrip s' else s
  | [] => []
  end.

Definition strip (s : pystr) : pystr := rev (lstrip (rev (lstrip s))).

(** [needle in hay] for two strings. *)
Fixpoint strip_prefix (p s : pystr) : option pystr :=
  match p, s with
  | [], _ => Some s
  | a :: p', b :: s' => if a =? b then strip_prefix p' s' else None
  | _ :: _, [] => None
  end.

Fixpoint contains (needle hay : pystr) : bool :=
  match strip_prefix needle hay with
  | Some _ => true
  | None =>
    match hay with
    | [] => false
    | _ :: hay' => contains needle hay'
    end
  end.

(* ================================================================== *)
(** * Regular expressions *)
(* ================================================================== *)

Module Re.

(** The fragment of Python's pattern language the program uses.  Every
    repetition in its patterns ranges over a single-character class; every
    pattern has at most one capturing group, group 1. *)
Inductive regex : Type :=
| Lit (s : pystr)             (* a literal string *)
| Cls (p : Z -> bool)         (* one character of a class *)
| Seq (a b : regex)           (* ab *)
| Alt (a b : regex)           (* a|b *)
| Opt (a : regex)             (* (?:a)? *)
| Star (p : Z -> bool)        (* [class]*  greedy *)
| Plus (p : Z -> bool)        (* [class]+  greedy *)
| LazyStar (p : Z -> bool)    (* [class]*? *)
| Group (a : regex).          (* (a), capturing group 1 *)

(** Character classes. *)
Definition one_of (s : pystr) : Z -> bool := fun c => mem c s.
Definition none_of (s : pystr) : Z -> bool := fun c => negb (mem c s).
Definition any : Z -> bool := fun _ => true.     (* [.] under re.DOTALL *)
Definition space : Z -> bool := is_space.         (* \s *)
Definition nonspace : Z -> bool := fun c => negb (is_space c).   (* \S *)

Section Matcher.
Variable A : Type.

(** Greedy repetition: take as many characters as the class allows, and
    give them back one at a time while the rest of the pattern fails. *)
Fixpoint star_greedy (p : Z -> bool) (k : pystr -> option A) (s : pystr)
  : option A :=
  match s with
  | c :: s' =>
    if p c then
      match star_greedy p k s' with
      | Some r => Some r
      | None => k s
      end
    else k s
  | [] => k []
  end.

(** Lazy repetition: try the rest of the pattern first. *)
Fixpoint star_lazy (p : Z -> bool) (k : pystr -> option A) (s : pystr)
  : option A :=
  match k s with
  | Some r => Some r
  | None =>
    match s with
    | c :: s' => if p c then star_lazy p k s' else None
    | [] => None
    end
  end.

(** [run r s g k]: match [r] at the head of [s]; [g] is the text of group
    1 so far; [k] is the rest of the pattern, applied to the input that is
    left.  The first success in priority order is the result. *)
Fixpoint run (r : regex) (s : pystr) (g : option pystr)
         (k : pystr -> option pystr -> option A) : option A :=
  match r with
  | Lit l =>
    match strip_prefix l s with
    | Some s' => k s' g
    | None => None
    end
  | Cls p =>
    match s with
    | c :: s' => if p c then k s' g else None
    | [] => None
    end
  | Seq a b => run a s g (fun s' g' => run b s' g' k)
  | Alt a b =>
    match run a s g k with
    | Some x => Some x
    | None => run b s g k
    end
  | Opt a =>
    match run a s g k with
    | Some x => Some x
    | None => k s g
    end
  | Star p => star_greedy p (fun s' => k s' g) s
  | Plus p =>
    match s with
    | c :: s' => if p c then star_greedy p (fun s' => k s' g) s' else None
    | [] => None
    end
  | LazyStar p => star_lazy p (fun s' => k s' g) s
  | Group a =>
    run a s g
        (fun s' _ => k s' (Some (firstn (length s - length s') s)))
  end.
End Matcher.

(** A match anchored at the head of [s]: its length and group 1. *)
Definition match_at (r : regex) (s : pystr) : option (nat * option pystr) :=
  run r s None (fun s' g => Some ((length s - length s')%nat, g)).

(** Number of capturing groups of a pattern. *)
Fixpoint ngroups (r : regex) : nat :=
  match r with
  | Seq a b | Alt a b => (ngroups a + ngroups b)%nat
  | Opt a => ngroups a
  | Group a => S (ngroups a)
  | _ => O
  end.

(** Least length of a match. *)
Fixpoint min_len (r : regex) : nat :=
  match r with
  | Lit l => length l
  | Cls _ | Plus _ => 1%nat
  | Seq a b => (min_len a + min_len b)%nat
  | Alt a b => Nat.min (min_len a) (min_len b)
  | Opt _ | Star _ | LazyStar _ => O
  | Group a => min_len a
  end.

(** The strings a pattern can match, regardless of priorities. *)
Fixpoint lang (r : regex) (w : pystr) : Prop :=
  match r with
  | Lit l => w = l
  | Cls p => exists c, w = [c] /\ p c = true
  | Seq a b => exists w1 w2, w = w1 ++ w2 /\ lang a w1 /\ lang b w2
  | Alt a b => lang a w \/ lang b w
  | Opt a => w = [] \/ lang a w
  | Star p | LazyStar p => Forall (fun c => p c = true) w
  | Plus p => w <> [] /\ Forall (fun c => p c = true) w
  | Group a => lang a w
  end.

(** A replacement template: literal text and group references. *)
Inductive titem : Type :=
| TLit (s : pystr)
| TGroup (n : nat).

Definition template := list titem.

(** Templates are checked against the pattern when [re.sub] is called: a
    reference to a group the pattern does not have raises [re.error]. *)
Definition template_ok (r : regex) (t : template) : bool :=
  forallb (fun i => match i with
                    | TLit _ => true
                    | TGroup n => (1 <=? n)%nat && (n <=? ngroups r)%nat
                    end) t.

(** Expansion for one match; a group that took no part in the match
    expands to the empty string. *)
Definition expand (t : template) (g : option pystr) : pystr :=
  flat_map (fun i => match i with
                     | TLit s => s
                     | TGroup _ => match g with Some x => x | None => [] end
                     end) t.

(** The scan of [re.sub]: [skip] counts the characters of the current
    match still to be passed over; [budget] is the number of replacements
    left ([None]: no limit).  The patterns of the program need at least one
    character (see [min_len]), so a match of length 0 does not arise and is
    treated as no match. *)
Fixpoint sub_loop (r : regex) (t : template) (budget : option nat)
         (skip : nat) (s : pystr) : pystr :=
  match s with
  | [] => []
  | c :: s' =>
    match skip with
    | S n => sub_loop r t budget n s'
    | O =>
      match budget with
      | Some O => s
      | _ =>
        match match_at r s with
        | Some (S n, g) =>
          expand t g ++ sub_loop r t (option_map Nat.pred budget) n s'
        | _ => c :: sub_loop r t budget O s'
        end
      end
    end
  end.

(** [re.sub(pattern, repl, string, count)]; [count = 0] replaces all. *)
Definition sub (r : regex) (t : template) (s : pystr) (count : nat)
  : result pystr :=
  if template_ok r t
  then Ok (sub_loop r t (match count with O => None | _ => Some count end) O s)
  else Raise ReError.

(** [re.split(pattern, string)] for a pattern without groups.  The result
    is never empty: its head is the piece under construction. *)
Fixpoint split_loop (r : regex) (skip : nat) (s : pystr) : list pystr :=
  match s with
  | [] => [[]]
  | c :: s' =>
    match skip with
    | S n => split_loop r n s'
    | O =>
      match match_at r s with
      | Some (S n, _) => [] :: split_loop r n s'
      | _ =>
        match split_loop r O s' with
        | piece :: pieces => (c :: piece) :: pieces
        | [] => [[c]]
        end
      end
    end
  end.

Definition split (r : regex) (s : pystr) : list pystr := split_loop r O s.

(** [re.findall(pattern, string)] for a pattern without groups: the
    matched substrings, left to right, not overlapping. *)
Fixpoint findall_loop (r : regex) (skip : nat) (s : pystr) : list pystr :=
  match s with
  | [] => []
  | _ :: s' =>
    match skip with
    | S n => findall_loop r n s'
    | O =>
      match match_at r s with
      | Some (S n, _) => firstn (S n) s :: findall_loop r n s'
      | _ => findall_loop r O s'
      end
    end
  end.

Definition findall (r : regex) (s : pystr) : list pystr := findall_loop r O s.

(** [re.search(pattern, string)]: group 1 of the leftmost match. *)
Fixpoint search (r : regex) (s : pystr) : option (option pystr) :=
  match match_at r s with
  | Some (_, g) => Some g
  | None =>
    match s with
    | [] => None
    | _ :: s' => search r s'
    end
  end.

(** [m.group(1)], for a use that needs a string: a group that took no
    part in the match has the value [None], which [str.join] refuses. *)
Definition group1 (r : regex) (g : option pystr) : result pystr :=
  if (1 <=? ngroups r)%nat
  then match g with
       | Some x => Ok x
       | None => Raise TypeError
       end
  else Raise IndexError.

End Re.

(* ================================================================== *)
(** * WikiExtractor: stripping, filtering, extraction *)
(* ================================================================== *)

Import Re.

Notation "a +> b" := (Seq a b) (at level 60, right associativity).

(** The alphabet of [has_vietnamese_diacritic]. *)
Definition vietnamese_chars : pystr := Eval vm_compute in
  u "àáạảãâầấậẩẫăằắặẳẵèéẹẻẽêềếệểễìíịỉĩòóọỏõôồốộổỗơờớợởỡùúụủũưừứựửữỳýỵỷỹđ".

(** [any(char in vietnamese_chars for char in text.lower())] *)
Definition has_vietnamese_diacritic (text : pystr) : bool :=
  existsb (fun char => mem char vietnamese_chars) (lower text).

(** [\{\{[^}]+\}\}] *)
Definition template_re : regex :=
  Lit (u "{{") +> Plus (none_of (u "}")) +> Lit (u "}}").

(** [\[\[(?:[^|\]]*\|)?([^\]]+)\]\]] *)
Definition link_re : regex :=
  Lit (u "[[") +> Opt (Star (none_of (u "|]")) +> Lit (u "|"))
  +> Group (Plus (none_of (u "]"))) +> Lit (u "]]").

(** [<ref[^>]*>.*?</ref>] with [re.DOTALL] *)
Definition ref_re : regex :=
  Lit (u "<ref") +> Star (none_of (u ">")) +> Lit (u ">")
  +> LazyStar any +> Lit (u "</ref>").

(** [<[^>]+>] *)
Definition tag_re : regex :=
  Lit (u "<") +> Plus (none_of (u ">")) +> Lit (u ">").

(** [http[s]?://\S+] *)
Definition url_re : regex :=
  Lit (u "http") +> Opt (Cls (one_of (u "s"))) +> Lit (u "://")
  +> Plus nonspace.

(** [\[\[(?:Category|Thể loại|File|Tập tin):([^\]]+)\]\]] *)
Definition category_re : regex :=
  Lit (u "[[")
  +> Alt (Lit (u "Category"))
         (Alt (Lit (u "Thể loại")) (Alt (Lit (u "File")) (Lit (u "Tập tin"))))
  +> Lit (u ":") +> Group (Plus (none_of (u "]"))) +> Lit (u "]]").

(** [[.!?;]\s+|\n+] *)
Definition sentence_pattern : regex :=
  Alt (Cls (one_of (u ".!?;")) +> Plus space) (Plus (one_of [10])).

(** The letters listed in [word_pattern] after [a-zA-Z]. *)
Definition word_letters : pystr := Eval vm_compute in
  u "àáạảãâầấậẩẫăằắặẳẵèéẹẻẽêềếệểễìíịỉĩòóọỏõôồốộổỗơờớợởỡùúụủũưừứựửữỳýỵỷỹđĐ".

Definition word_char (c : Z) : bool :=
  ((97 <=? c) && (c <=? 122)) || ((65 <=? c) && (c <=? 90))
  || mem c word_letters.

(** [[a-zA-Z...]+] *)
Definition word_pattern : regex := Plus word_char.

(** [re.IGNORECASE], an integer flag. *)
Definition IGNORECASE : nat := 2.

(** The six substitutions at the head of [extract_words].  The last call
    passes [re.IGNORECASE] as the fourth positional argument of [re.sub],
    which is [count]. *)
Definition strip_markup (text : pystr) : result pystr :=
  text <- sub template_re [] text 0 ;;
  text <- sub link_re [TGroup 1] text 0 ;;
  text <- sub ref_re [] text 0 ;;
  text <- sub tag_re [] text 0 ;;
  text <- sub url_re [] text 0 ;;
  sub category_re [] text IGNORECASE.

(** A Python set of strings, as the list of its members in the order of
    their first insertion. *)
Definition pystr_eqb (a b : pystr) : bool :=
  if list_eq_dec Z.eq_dec a b then true else false.

Definition set_add (w : pystr) (acc : list pystr) : list pystr :=
  if existsb (pystr_eqb w) acc then acc else acc ++ [w].

(** Body of the inner loop: one word of a retained sentence. *)
Definition add_word (meaningful_words : list pystr) (word : pystr)
  : list pystr :=
  let word_lower := lower word in
  if (2 <=? length word_lower)%nat
  then set_add word_lower meaningful_words
  else meaningful_words.

(** Body of the outer loop: one sentence. *)
Definition add_sentence (meaningful_words : list pystr) (sentence : pystr)
  : list pystr :=
  if has_vietnamese_diacritic sentence
  then fold_left add_word (findall word_pattern sentence) meaningful_words
  else meaningful_words.

Definition extract_words (text : pystr) : result (list pystr) :=
  text <- strip_markup text ;;
  let sentences := split sentence_pattern text in
  Ok (fold_left add_sentence sentences []).

(* ================================================================== *)
(** * WikiExtractor: the parse loop *)
(* ================================================================== *)

(** The fields of [self] the methods use.  [temp_file] is the content of
    the file [temp_words_all.txt], one entry per line (each line as its
    bytes, without the newline); [None] when the file does not exist. *)
Record extractor : Type := mkExtractor {
  temp_file : option (list bytes);
  total_words_written : Z
}.

(** The local variables of [parse_dump_regex]. *)
Record locals : Type := mkLocals {
  in_page : bool;
  in_text : bool;
  current_text : list pystr;
  text_lines : Z;
  articles_processed : Z;
  articles_matched : Z
}.

Definition initial_locals : locals := mkLocals false false [] 0 0 0.

Definition set_in_page (b : bool) (v : locals) : locals :=
  mkLocals b (in_text v) (current_text v) (text_lines v)
           (articles_processed v) (articles_matched v).

Definition set_in_text (b : bool) (v : locals) : locals :=
  mkLocals (in_page v) b (current_text v) (text_lines v)
           (articles_processed v) (articles_matched v).

Definition set_current_text (t : list pystr) (v : locals) : locals :=
  mkLocals (in_page v) (in_text v) t (text_lines v)
           (articles_processed v) (articles_matched v).

Definition set_text_lines (n : Z) (v : locals) : locals :=
  mkLocals (in_page v) (in_text v) (current_text v) n
           (articles_processed v) (articles_matched v).

Definition set_articles_processed (n : Z) (v : locals) : locals :=
  mkLocals (in_page v) (in_text v) (current_text v) (text_lines v)
           n (articles_matched v).

Definition set_articles_matched (n : Z) (v : locals) : locals :=
  mkLocals (in_page v) (in_text v) (current_text v) (text_lines v)
           (articles_processed v) n.

(** The lines a text-mode file yields: universal newlines, each line with
    its terminator translated to a line feed. *)
Fixpoint readlines (s : pystr) : list pystr :=
  match s with
  | [] => []
  | c :: s' =>
    if c =? 10 then [10] :: readlines s'
    else if c =? 13 then
      match s' with
      | d :: s'' =>
        if d =? 10 then [10] :: readlines s'' else [10] :: readlines s'
      | [] => [[10]]
      end
    else
      match readlines s' with
      | l :: ls => (c :: l) :: ls
      | [] => [[c]]
      end
  end.

(** The words of one record as lines of the spool file. *)
Fixpoint encode_words (words : list pystr) : result (list bytes) :=
  match words with
  | [] => Ok []
  | word :: rest =>
    match Utf8.encode word with
    | Some b => bs <- encode_words rest ;; Ok (b :: bs)
    | None => Raise UnicodeEncodeError
    end
  end.

(** [write_words_to_file]: append one line per word.  (Python does not
    fix the order in which a set is iterated; the model writes the words
    in the order of their insertion.  What [save_words] makes of the spool
    does not depend on the order of its lines.) *)
Definition write_words_to_file (self : extractor) (words : list pystr)
  : result extractor :=
  new_lines <- encode_words words ;;
  Ok (mkExtractor
        (Some (match temp_file self with
               | Some old => old ++ new_lines
               | None => new_lines
               end))
        (total_words_written self + Z.of_nat (length words))).

(** [<text[^>]*>] followed by group 1 holding [.*], with [re.DOTALL] *)
Definition text_open_re : regex :=
  Lit (u "<text") +> Star (none_of (u ">")) +> Lit (u ">") +> Group (Star any).

(** Group 1 holding [.*], followed by [</text>], with [re.DOTALL] *)
Definition text_close_re : regex := Group (Star any) +> Lit (u "</text>").

(** The cap on the lines of one text field. *)
Definition max_text_lines : Z := 10000.

(** The branch [elif "</page>" in line and in_page], up to the progress
    report. *)
Definition end_of_page (self : extractor) (v : locals)
  : result (extractor * locals) :=
  r <- match current_text v with
       | [] => Ok (self, v)
       | _ :: _ =>
         let v := set_articles_processed (articles_processed v + 1) v in
         let text := concat (current_text v) in
         words <- extract_words text ;;
         r <- match words with
              | [] => Ok (self, v)
              | _ :: _ =>
                let v := set_articles_matched (articles_matched v + 1) v in
                self <- write_words_to_file self words ;;
                Ok (self, v)
              end ;;
         Ok (fst r, set_text_lines 0 (set_current_text [] (snd r)))
       end ;;
  Ok (fst r, set_in_page false (snd r)).

(** The branch [elif in_page]. *)
Definition inside_page (v : locals) (line : pystr) : result locals :=
  if contains (u "<text") line then
    let v := set_in_text true v in
    match search text_open_re line with
    | Some g =>
      t <- group1 text_open_re g ;;
      Ok (set_text_lines (text_lines v + 1)
            (set_current_text (current_text v ++ [t]) v))
    | None => Ok v
    end
  else if contains (u "</text>") line then
    v <- match search text_close_re line with
         | Some g =>
           t <- group1 text_close_re g ;;
           Ok (set_current_text (current_text v ++ [t]) v)
         | None => Ok v
         end ;;
    Ok (set_in_text false v)
  else if in_text v then
    let v := set_current_text (current_text v ++ [line]) v in
    let v := set_text_lines (text_lines v + 1) v in
    if text_lines v >? max_text_lines
    then Ok (set_current_text [] (set_in_text false v))
    else Ok v
  else Ok v.

(** One iteration of [for line in file_handle]. *)
Definition parse_line (self : extractor) (v : locals) (line : pystr)
  : result (extractor * locals) :=
  if contains (u "<page>") line then
    Ok (self, set_text_lines 0 (set_current_text [] (set_in_page true v)))
  else if contains (u "</page>") line && in_page v then
    end_of_page self v
  else if in_page v then
    v <- inside_page v line ;; Ok (self, v)
  else Ok (self, v).

Fixpoint parse_lines (self : extractor) (v : locals) (lines : list pystr)
  : result (extractor * locals) :=
  match lines with
  | [] => Ok (self, v)
  | line :: rest =>
    r <- parse_line self v line ;;
    parse_lines (fst r) (snd r) rest
  end.

(** [parse_dump_regex] on the (decompressed) bytes of the dump: the spool
    file is removed, the dump is read as UTF-8 text, line by line. *)
Definition parse_dump_regex (self : extractor) (dump : bytes)
  : result extractor :=
  let self := mkExtractor None (total_words_written self) in
  match Utf8.decode dump with
  | None => Raise UnicodeDecodeError
  | Some text =>
    r <- parse_lines self initial_locals (readlines text) ;;
    Ok (fst r)
  end.

Definition parse_dump := parse_dump_regex.

(* ================================================================== *)
(** * WikiExtractor: sorting and deduplication *)
(* ================================================================== *)

(** The order of [LC_ALL=C sort]: lines compare as byte strings, a proper
    prefix before its extensions. *)
Fixpoint bytes_leb (a b : bytes) : bool :=
  match a, b with
  | [], _ => true
  | _ :: _, [] => false
  | x :: a', y :: b' =>
    if x <? y then true
    else if y <? x then false
    else bytes_leb a' b'
  end.

Definition bytes_eqb (a b : bytes) : bool :=
  if list_eq_dec Z.eq_dec a b then true else false.

Fixpoint insert_line (l : bytes) (sorted : list bytes) : list bytes :=
  match sorted with
  | [] => [l]
  | h :: t => if bytes_leb l h then l :: sorted else h :: insert_line l t
  end.

(** The output of [LC_ALL=C sort file]. *)
Fixpoint sort_lines (lines : list bytes) : list bytes :=
  match lines with
  | [] => []
  | l :: rest => insert_line l (sort_lines rest)
  end.

(** What [-u] adds: of a run of equal lines only the first is written. *)
Fixpoint uniq_from (prev : bytes) (lines : list bytes) : list bytes :=
  match lines with
  | [] => []
  | l :: rest =>
    if bytes_eqb l prev then uniq_from prev rest else l :: uniq_from l rest
  end.

Definition uniq (lines : list bytes) : list bytes :=
  match lines with
  | [] => []
  | l :: rest => l :: uniq_from l rest
  end.

(** The output of [LC_ALL=C sort -u file]. *)
Definition sort_u (lines : list bytes) : list bytes := uniq (sort_lines lines).

(** The bytes of a file made of the given lines. *)
Definition file_bytes (lines : list bytes) : bytes :=
  flat_map (fun l => l ++ [10]) lines.

(** Reading a file of the given lines in text mode. *)
Definition read_text (lines : list bytes) : result (list pystr) :=
  match Utf8.decode (file_bytes lines) with
  | Some text => Ok (readlines text)
  | None => Raise UnicodeDecodeError
  end.

Definition prev_is (prev_word : option pystr) (word : pystr) : bool :=
  match prev_word with
  | Some p => pystr_eqb word p
  | None => false
  end.

(** The streaming pass of the fallback: a line is written when, stripped,
    it is not empty and differs from the last word written. *)
Fixpoint dedup_stream (prev_word : option pystr) (lines : list pystr)
  : result (list bytes) :=
  match lines with
  | [] => Ok []
  | line :: rest =>
    let word := strip line in
    if negb (match word with [] => true | _ => false end)
       && negb (prev_is prev_word word)
    then
      match Utf8.encode word with
      | Some b => out <- dedup_stream (Some word) rest ;; Ok (b :: out)
      | None => Raise UnicodeEncodeError
      end
    else dedup_stream prev_word rest
  end.

(** What [save_words] leaves behind. *)
Inductive saved : Type :=
| NoTempFile                         (* nothing to save: no output file *)
| Saved (output_file : list bytes)   (* the lines of the output file *)
| Failed (e : exn).

(** The path through the body of [try]: [sort -u], a counting pass over
    its output, then a rename. *)
Definition save_primary (spool : list bytes) : saved :=
  let sorted_file := sort_u spool in
  match read_text sorted_file with
  | Ok _ => Saved sorted_file
  | Raise e => Failed e
  end.

(** The path through the handler of [CalledProcessError]: [sort], then
    the streaming pass. *)
Definition save_fallback (spool : list bytes) : saved :=
  let sorted_file := sort_lines spool in
  match (lines <- read_text sorted_file ;; dedup_stream None lines) with
  | Ok out => Saved out
  | Raise e => Failed e
  end.

(** [save_words].  The two booleans say whether the first and the second
    call of the external [sort] exit with status 0; a non-zero status
    raises [CalledProcessError]. *)
Definition save_words (sort_u_ok sort_ok : bool) (self : extractor) : saved :=
  match temp_file self with
  | None => NoTempFile
  | Some spool =>
    if sort_u_ok then save_primary spool
    else if sort_ok then save_fallback spool
    else Failed CalledProcessError
  end.

(** [main], for a dump that is not compressed: a new extractor, the parse
    phase, then the deduplication. *)
Definition main (sort_u_ok sort_ok : bool) (dump : bytes) : saved :=
  match parse_dump (mkExtractor None 0) dump with
  | Ok self => save_words sort_u_ok sort_ok self
  | Raise e => Failed e
  end.

Unset Implicit Arguments.

(* ================================================================== *)
(** * Vocabulary of the statements *)
(* ================================================================== *)

(** A lowercase letter of the extended-Latin alphabet: [a-z] or one of
    the listed letters with diacritics. *)
Definition token_char (c : Z) : bool :=
  ((97 <=? c) && (c <=? 122)) || mem c vietnamese_chars.

(** A token: at least two characters, lowercase letters only. *)
Definition is_token (w : pystr) : bool :=
  (2 <=? length w)%nat && forallb token_char w.

(** Every character the word pattern accepts. *)
Definition word_alphabet : pystr :=
  map Z.of_nat (seq 97 26) ++ map Z.of_nat (seq 65 26) ++ word_letters.

(** Strictly ascending in byte order. *)
Definition bytes_lt (a b : bytes) : Prop := bytes_leb a b = true /\ a <> b.

(** A line of the spool file as the spooler writes it: the UTF-8 bytes of
    a token. *)
Definition token_line (l : bytes) : Prop :=
  exists w, is_token w = true /\ Utf8.encode w = Some l.

(** Patterns whose every match fills group 1. *)
Fixpoint sets_group (r : Re.regex) : bool :=
  match r with
  | Re.Group _ => true
  | Re.Seq a b => sets_group a || sets_group b
  | Re.Alt a b => sets_group a && sets_group b
  | _ => false
  end.

(** [t] is a contiguous piece of [s]. *)
Definition part_of (t s : pystr) : Prop :=
  exists pre post, s = pre ++ t ++ post.

(** The lines read since the last record-start marker, after one more
    line. *)
Definition since_start (seen : list pystr) (line : pystr) : list pystr :=
  if contains (u "<page>") line then [] else seen ++ [line].

(** The same over a whole prefix of the stream. *)
Definition lines_since_start (prefix : list pystr) : list pystr :=
  fold_left since_start prefix [].

(** The record text a line hands to [extract_words], when it does: the
    line carries the record-end marker, not the record-start marker, the
    parser is inside a record and text has been accumulated. *)
Definition emitted (v : locals) (line : pystr) : option pystr :=
  if contains (u "<page>") line then None
  else if contains (u "</page>") line && in_page v then
    match current_text v with
    | [] => None
    | _ :: _ => Some (concat (current_text v))
    end
  else None.

(** A line that carries none of the four markers. *)
Definition plain_line (line : pystr) : bool :=
  negb (contains (u "<page>") line) && negb (contains (u "</page>") line)
  && negb (contains (u "<text") line) && negb (contains (u "</text>") line).

(** The locals with an empty buffer: outside any record, the counters as
    they are. *)
Definition idle (v : locals) : locals :=
  mkLocals false false [] 0 (articles_processed v) (articles_matched v).

(** The spool holds token lines only. *)
Definition spool_ok (self : extractor) : Prop :=
  match temp_file self with
  | Some spool => Forall token_line spool
  | None => True
  end.

(** Every accumulated piece is a piece of one of the given lines. *)
Definition drawn_from (seen : list pystr) (pieces : list pystr) : Prop :=
  Forall (fun piece => exists line, In line seen /\ part_of piece line) pieces.

(** The file made of the given lines, each a literal of this file. *)
Definition file_of (lines : list string) : bytes :=
  file_bytes (map bytes_of lines).

(** The lines of a text field as long as the cap allows, and one more:
    the line that opens the field, then [max_text_lines] further lines. *)
Definition long_field : list string :=
  ("<text>Một" :: repeat "dòng chữ" (Z.to_nat max_text_lines))%string.

(** The invariant of the two loops of [extract_words]: the set holds
    tokens only, each once. *)
Definition tokens_only (acc : list pystr) : Prop :=
  NoDup acc /\ Forall (fun w => is_token w = true) acc.

(** Ascending in byte order. *)
Definition bytes_le (a b : bytes) : Prop := bytes_leb a b = true.

(** The line [l] holds the token [w]. *)
Definition holds (w : pystr) (l : bytes) : Prop :=
  is_token w = true /\ Utf8.encode w = Some l.

(** A line with, and a line without, the record-start marker. *)
Definition is_start (line : pystr) : Prop :=
  contains (u "<page>") line = true.

Definition no_start (line : pystr) : Prop :=
  contains (u "<page>") line = false.


(* ================================================================== *)
(** * Further methods and a reader of the output *)
(* ================================================================== *)

(** Body of the loop of [get_unique_words]: one line of the spool. *)
Definition add_unique (all_words : list pystr) (line : pystr) : list pystr :=
  let word := strip line in
  match word with
  | [] => all_words
  | _ :: _ => set_add word all_words
  end.

(** [get_unique_words]: the set of the stripped, non-empty lines of the
    spool file; the empty set when there is no spool file. *)
Definition get_unique_words (self : extractor) : result (list pystr) :=
  match temp_file self with
  | None => Ok []
  | Some spool =>
    lines <- read_text spool ;;
    Ok (fold_left add_unique lines [])
  end.

(** [load_vietnamese_words] of [word_set_processor.py], on the lines of
    its input file: [[line.strip() for line in f if line.strip()]]. *)
Definition load_vietnamese_words (input_file : list bytes)
  : result (list pystr) :=
  lines <- read_text input_file ;;
  Ok (filter (fun w => match w with [] => false | _ :: _ => true end)
             (map strip lines)).

(** The lines of the spool file, none when the file does not exist. *)
Definition spool_lines (self : extractor) : list bytes :=
  match temp_file self with
  | Some spool => spool
  | None => []
  end.

(** The longest prefix of a string within a class, and what follows it. *)
Fixpoint take_while (p : Z -> bool) (s : pystr) : pystr :=
  match s with
  | c :: s' => if p c then c :: take_while p s' else []
  | [] => []
  end.

Fixpoint drop_while (p : Z -> bool) (s : pystr) : pystr :=
  match s with
  | c :: s' => if p c then drop_while p s' else s
  | [] => []
  end.

(** What a stretch of the parse loop may do to the spool and to the
    counters: lines are only added at the end of the spool, each a token
    line, and counted; an article is matched only if it is processed, and
    only by writing at least one line; the spool file comes to exist
    exactly when an article is matched. *)
Definition grows (self self' : extractor) (v v' : locals) : Prop :=
  exists added,
    spool_lines self' = spool_lines self ++ added
    /\ Forall token_line added
    /\ total_words_written self'
       = total_words_written self + Z.of_nat (length added)
    /\ 0 <= articles_matched v' - articles_matched v
       <= articles_processed v' - articles_processed v
    /\ articles_matched v' - articles_matched v <= Z.of_nat (length added)
    /\ (added = [] -> articles_matched v' = articles_matched v)
    /\ (temp_file self' = None
        <-> temp_file self = None /\ articles_matched v' = articles_matched v).

(** Locals that differ in the buffer only. *)
Definition same_counters (v v' : locals) : Prop :=
  articles_processed v' = articles_processed v
  /\ articles_matched v' = articles_matched v.

(** A template made of group references only. *)
Definition groups_only (t : Re.template) : bool :=
  forallb (fun i => match i with Re.TGroup _ => true | Re.TLit _ => false end) t.

(** [word] stands in [sentence] as a maximal run of letters of the word
    pattern: letters only, with no letter right before it and none right
    after it. *)
Definition maximal_word (word sentence : pystr) : Prop :=
  exists pre post,
    sentence = pre ++ word ++ post
    /\ Forall (fun c => word_char c = true) word
    /\ (forall pre0 c, pre = pre0 ++ [c] -> word_char c = false)
    /\ (forall c post0, post = c :: post0 -> word_char c = false).

(** Every word of the set comes from the text, letter by letter. *)
Definition from_text (text : pystr) (acc : list pystr) : Prop :=
  forall w c, In w acc -> In c w ->
              exists c', In c' text /\ In c (lower_cp c').

(* ================================================================== *)
(** * Sample evaluations *)
(* ================================================================== *)

(** The model on inputs for which the behaviour of Python's [re], [str]
    and codec is known. *)

Example sub_template :
  sub template_re [] (u "a {{cite|x}} b {{}} c {{d}}}") 0 = Ok (u "a  b {{}} c }").
Proof. reflexivity. Qed.

Example sub_link :
  sub link_re [TGroup 1] (u "[[Hà Nội|thủ đô]] và [[Huế]] [[a|b|c]]") 0
  = Ok (u "thủ đô và Huế b|c").
Proof. reflexivity. Qed.

Example sub_ref :
  sub ref_re [] (u "a<ref name=x>b" ++ [10] ++ u "c</ref>d<ref>e</ref>f</ref>") 0
  = Ok (u "adf</ref>").
Proof. reflexivity. Qed.

Example sub_tag :
  sub tag_re [] (u "a<br/>b <> c < d > e") 0 = Ok (u "ab <> c  e").
Proof. reflexivity. Qed.

Example sub_url :
  sub url_re [] (u "xem https://vi.wikipedia.org/wiki rồi http:// x") 0
  = Ok (u "xem  rồi http:// x").
Proof. reflexivity. Qed.

Example sub_bad_template : sub tag_re [TGroup 1] (u "a") 0 = Raise ReError.
Proof. reflexivity. Qed.

Example split_sentences :
  split sentence_pattern
        (u "Một. Hai! Ba?" ++ [10; 10] ++ u "Bốn;  năm.Sáu")
  = [u "Một"; u "Hai"; u "Ba"; u "Bốn"; u "năm.Sáu"].
Proof. reflexivity. Qed.

Example findall_words :
  findall word_pattern (u "Đà Nẵng 2024, Ảo ok")
  = [u "Đà"; u "Nẵng"; u "o"; u "ok"].
Proof. reflexivity. Qed.

Example lower_sample : lower (u "ĐÀ NẴNG İ") = u "đà nẵng i" ++ [775].
Proof. reflexivity. Qed.

Example search_text_open :
  search text_open_re (u "      <text xml:space=preserve>Xin chào" ++ [10])
  = Some (Some (u "Xin chào" ++ [10]))
  /\ search text_open_re (u "<text") = None.
Proof. split; reflexivity. Qed.

Example search_text_close :
  search text_close_re (u "kết thúc</text> x </text>" ++ [10])
  = Some (Some (u "kết thúc</text> x ")).
Proof. reflexivity. Qed.

Example readlines_sample :
  readlines (u "a" ++ [13; 10] ++ u "b" ++ [13] ++ u "c" ++ [10] ++ u "d")
  = [u "a" ++ [10]; u "b" ++ [10]; u "c" ++ [10]; u "d"].
Proof. reflexivity. Qed.

Example strip_sample : strip ([32; 9] ++ u "chào" ++ [32; 10]) = u "chào".
Proof. reflexivity. Qed.

Example utf8_sample :
  Utf8.encode (u "chào") = Some [99; 104; 195; 160; 111]
  /\ Utf8.decode [99; 104; 195; 160; 111] = Some (u "chào")
  /\ Utf8.decode [192; 128] = None
  /\ Utf8.decode [237; 160; 128] = None
  /\ Utf8.encode [55296] = None.
Proof. repeat split; reflexivity. Qed.

Example sort_sample :
  sort_lines (map bytes_of ["em"; "anh"; "ấy"; "anh"; "an"]%string)
  = map bytes_of ["an"; "anh"; "anh"; "em"; "ấy"]%string
  /\ sort_u (map bytes_of ["em"; "anh"; "ấy"; "anh"; "an"]%string)
     = map bytes_of ["an"; "anh"; "em"; "ấy"]%string.
Proof. split; reflexivity. Qed.

(* ================================================================== *)
(** * Properties of the matcher *)
(* ================================================================== *)

Module ReFacts.
Import Re.

Lemma strip_prefix_app (p s s' : pystr) :
  strip_prefix p s = Some s' -> s = p ++ s'.
Proof.
  revert s; induction p as [|a p IH]; intros [|b s] H; simpl in H;
    try discriminate; try (inversion H; reflexivity).
  destruct (a =? b) eqn:E; [|discriminate].
  apply Z.eqb_eq in E; subst b. simpl. f_equal. auto.
Qed.

Section Soundness.
Variable A : Type.

Lemma star_greedy_sound (p : Z -> bool) (k : pystr -> option A) :
  forall s x, star_greedy p k s = Some x ->
  exists w s', s = w ++ s' /\ Forall (fun c => p c = true) w /\ k s' = Some x.
Proof.
  induction s as [|c s IH]; intros x H; simpl in H.
  - exists [], []. auto.
  - destruct (p c) eqn:Pc.
    + destruct (star_greedy p k s) as [y|] eqn:E.
      * inversion H; subst y.
        destruct (IH x eq_refl) as (w & s' & -> & Hw & Hk).
        exists (c :: w), s'. auto.
      * exists [], (c :: s). auto.
    + exists [], (c :: s). auto.
Qed.

Lemma star_lazy_sound (p : Z -> bool) (k : pystr -> option A) :
  forall s x, star_lazy p k s = Some x ->
  exists w s', s = w ++ s' /\ Forall (fun c => p c = true) w /\ k s' = Some x.
Proof.
  induction s as [|c s IH]; intros x H; simpl in H.
  - destruct (k []) eqn:E; [|discriminate]. exists [], []. rewrite E. auto.
  - destruct (k (c :: s)) eqn:E.
    + exists [], (c :: s). rewrite E. auto.
    + destruct (p c) eqn:Pc; [|discriminate].
      destruct (IH x H) as (w & s' & -> & Hw & Hk).
      exists (c :: w), s'. auto.
Qed.

End Soundness.

(** Whatever the continuation, a successful run consumed a string of the
    pattern's language and handed the rest to the continuation, with a
    group that is the one it received or a piece of the input. *)
Lemma run_sound (A : Type) (r : regex) :
  forall s g (k : pystr -> option pystr -> option A) x,
    run r s g k = Some x ->
    exists w s' g', s = w ++ s' /\ lang r w /\ k s' g' = Some x
                    /\ (g' = g \/ exists t, g' = Some t /\ part_of t s).
Proof.
  induction r as [l|p|a IHa b IHb|a IHa b IHb|a IHa|p|p|p|a IHa];
    intros s g k x H; simpl in H.
  - destruct (strip_prefix l s) as [s'|] eqn:E; [|discriminate].
    apply strip_prefix_app in E. exists l, s', g. simpl. auto.
  - destruct s as [|c s]; [discriminate|].
    destruct (p c) eqn:Pc; [|discriminate].
    exists [c], s, g. simpl. eauto 10.
  - apply IHa in H. destruct H as (w1 & s1 & g1 & -> & L1 & H & G1).
    apply IHb in H. destruct H as (w2 & s2 & g2 & -> & L2 & H & G2).
    exists (w1 ++ w2), s2, g2. rewrite app_assoc. simpl.
    repeat split; eauto.
    destruct G2 as [->|(t & -> & pre & post & E)]; [|right].
    + rewrite <- app_assoc. exact G1.
    + exists t. split; [reflexivity|]. exists (w1 ++ pre), post.
      rewrite <- !app_assoc. now rewrite <- E.
  - destruct (run a s g k) as [y|] eqn:E.
    + inversion H; subst y. apply IHa in E.
      destruct E as (w & s' & g' & -> & L & Hk & G). exists w, s', g'. simpl. auto.
    + apply IHb in H.
      destruct H as (w & s' & g' & -> & L & Hk & G). exists w, s', g'. simpl. auto.
  - destruct (run a s g k) as [y|] eqn:E.
    + inversion H; subst y. apply IHa in E.
      destruct E as (w & s' & g' & -> & L & Hk & G). exists w, s', g'. simpl. auto.
    + exists [], s, g. simpl. auto.
  - apply star_greedy_sound in H. destruct H as (w & s' & -> & Hw & Hk).
    exists w, s', g. simpl. auto.
  - destruct s as [|c s]; [discriminate|].
    destruct (p c) eqn:Pc; [|discriminate].
    apply star_greedy_sound in H. destruct H as (w & s' & -> & Hw & Hk).
    exists (c :: w), s', g. simpl. repeat split; auto. discriminate.
  - apply star_lazy_sound in H. destruct H as (w & s' & -> & Hw & Hk).
    exists w, s', g. simpl. auto.
  - apply IHa in H. destruct H as (w & s' & g' & -> & L & Hk & _).
    exists w, s', (Some (firstn (length (w ++ s') - length s') (w ++ s'))).
    simpl. repeat split; auto. right. eexists. split; [reflexivity|].
    rewrite length_app.
    replace (length w + length s' - length s')%nat with (length w) by lia.
    rewrite firstn_app, firstn_all, Nat.sub_diag. simpl. rewrite app_nil_r.
    exists [], s'. reflexivity.
Qed.

Lemma match_at_sound (r : regex) (s : pystr) (n : nat) (g : option pystr) :
  match_at r s = Some (n, g) ->
  lang r (firstn n s) /\ (n <= length s)%nat
  /\ (g = None \/ exists t, g = Some t /\ part_of t s).
Proof.
  unfold match_at. intros H. apply run_sound in H.
  destruct H as (w & s' & g' & -> & L & Hk & G).
  inversion Hk; subst.
  rewrite length_app.
  replace (length w + length s' - length s')%nat with (length w) by lia.
  rewrite firstn_app, firstn_all, Nat.sub_diag. simpl. rewrite app_nil_r.
  repeat split; [assumption|lia|assumption].
Qed.

(** Group 1 of a match found by [search] is a piece of the string. *)
Lemma search_group (r : regex) :
  forall s g, search r s = Some g ->
              g = None \/ exists t, g = Some t /\ part_of t s.
Proof.
  induction s as [|c s IH]; intros g H; simpl in H.
  - destruct (match_at r []) as [[n g']|] eqn:E; [|discriminate].
    inversion H; subst. apply match_at_sound in E. apply E.
  - destruct (match_at r (c :: s)) as [[n g']|] eqn:E.
    + inversion H; subst. apply match_at_sound in E. apply E.
    + apply IH in H. destruct H as [H|(t & -> & pre & post & ->)]; [now left|].
      right. exists t. split; [reflexivity|]. now exists (c :: pre), post.
Qed.

Lemma lang_min_len (r : regex) :
  forall w, lang r w -> (min_len r <= length w)%nat.
Proof.
  induction r as [l|p|a IHa b IHb|a IHa b IHb|a IHa|p|p|p|a IHa];
    intros w H; simpl in *.
  - subst. lia.
  - destruct H as (c & -> & _). simpl. lia.
  - destruct H as (w1 & w2 & -> & H1 & H2).
    rewrite length_app. apply IHa in H1. apply IHb in H2. lia.
  - destruct H as [H|H]; [apply IHa in H|apply IHb in H]; lia.
  - lia.
  - lia.
  - destruct H as [H _]. destruct w; [congruence|simpl; lia].
  - lia.
  - auto.
Qed.

(** A pattern that needs a character has no empty match: the scans above
    never meet a match of length 0 on the patterns of the program. *)
Lemma match_at_positive (r : regex) (s : pystr) (n : nat) (g : option pystr) :
  (1 <= min_len r)%nat -> match_at r s = Some (n, g) -> (1 <= n)%nat.
Proof.
  intros M H. apply match_at_sound in H. destruct H as (L & B & _).
  apply lang_min_len in L. rewrite length_firstn in L. lia.
Qed.

Lemma patterns_need_a_character :
  Forall (fun r => (1 <= min_len r)%nat)
         [template_re; link_re; ref_re; tag_re; url_re; category_re;
          sentence_pattern; word_pattern; text_open_re; text_close_re].
Proof. repeat constructor. Qed.

(** A group once filled stays filled. *)
Lemma run_group_kept (A : Type) (r : regex) :
  forall s t (k : pystr -> option pystr -> option A) x,
    run r s (Some t) k = Some x -> exists s' t', k s' (Some t') = Some x.
Proof.
  induction r as [l|p|a IHa b IHb|a IHa b IHb|a IHa|p|p|p|a IHa];
    intros s t k x H; simpl in H.
  - destruct (strip_prefix l s); [eauto|discriminate].
  - destruct s as [|c s]; [discriminate|]. destruct (p c); [eauto|discriminate].
  - apply IHa in H. destruct H as (s1 & t1 & H). apply IHb in H. exact H.
  - destruct (run a s (Some t) k) eqn:E; [inversion H; subst; eauto|eauto].
  - destruct (run a s (Some t) k) eqn:E; [inversion H; subst; eauto|eauto].
  - apply star_greedy_sound in H. destruct H as (_ & s' & _ & _ & H). eauto.
  - destruct s as [|c s]; [discriminate|]. destruct (p c); [|discriminate].
    apply star_greedy_sound in H. destruct H as (_ & s' & _ & _ & H). eauto.
  - apply star_lazy_sound in H. destruct H as (_ & s' & _ & _ & H). eauto.
  - apply run_sound in H. destruct H as (_ & s' & _ & _ & _ & H & _). eauto.
Qed.

Lemma run_group_set (A : Type) (r : regex) :
  sets_group r = true ->
  forall s g (k : pystr -> option pystr -> option A) x,
    run r s g k = Some x -> exists s' t', k s' (Some t') = Some x.
Proof.
  induction r as [l|p|a IHa b IHb|a IHa b IHb|a IHa|p|p|p|a IHa];
    intros S s g k x H; simpl in S; try discriminate; simpl in H.
  - apply orb_true_iff in S. destruct S as [S|S].
    + apply (IHa S) in H. destruct H as (s1 & t1 & H).
      apply run_group_kept in H. exact H.
    + apply run_sound in H. destruct H as (_ & s1 & g1 & _ & _ & H & _).
      apply (IHb S) in H. exact H.
  - apply andb_true_iff in S. destruct S as [Sa Sb].
    destruct (run a s g k) eqn:E; [inversion H; subst; eauto|eauto].
  - apply run_sound in H. destruct H as (_ & s' & _ & _ & _ & H & _). eauto.
Qed.

Lemma search_group_set (r : regex) :
  sets_group r = true ->
  forall s g, search r s = Some g -> exists t, g = Some t.
Proof.
  intros S. induction s as [|c s IH]; intros g H; simpl in H.
  - destruct (match_at r []) as [[n g']|] eqn:E; [|discriminate].
    inversion H; subst. unfold match_at in E.
    apply (run_group_set _ r S) in E. destruct E as (s' & t & E).
    inversion E. eauto.
  - destruct (match_at r (c :: s)) as [[n g']|] eqn:E; [|eauto].
    inversion H; subst. unfold match_at in E.
    apply (run_group_set _ r S) in E. destruct E as (s' & t & E).
    inversion E. eauto.
Qed.

(** Every item of [findall] is a string of the pattern's language. *)
Lemma findall_loop_lang (r : regex) :
  forall s skip, Forall (lang r) (findall_loop r skip s).
Proof.
  induction s as [|c s IH]; intros skip; simpl; [constructor|].
  destruct skip as [|n]; [|apply IH].
  destruct (match_at r (c :: s)) as [[[|n] g]|] eqn:E; try apply IH.
  constructor; [|apply IH].
  apply match_at_sound in E. apply E.
Qed.

End ReFacts.

(* ================================================================== *)
(** * The extractor *)
(* ================================================================== *)

Lemma mem_In (c : Z) (s : pystr) : mem c s = true <-> In c s.
Proof.
  unfold mem. rewrite existsb_exists. split.
  - intros (x & Hx & E). apply Z.eqb_eq in E. now subst.
  - intros H. exists c. split; [assumption|apply Z.eqb_refl].
Qed.

Lemma range_In (lo n : nat) (c : Z) :
  (Z.of_nat lo <=? c) && (c <=? Z.of_nat (lo + n) - 1) = true ->
  In c (map Z.of_nat (seq lo n)).
Proof.
  intros H. apply andb_true_iff in H. destruct H as [H1 H2].
  apply Z.leb_le in H1. apply Z.leb_le in H2.
  apply in_map_iff. exists (Z.to_nat c). split; [lia|].
  apply in_seq. lia.
Qed.

Lemma word_char_alphabet (c : Z) : word_char c = true -> In c word_alphabet.
Proof.
  unfold word_char, word_alphabet. intros H.
  apply orb_true_iff in H. destruct H as [H|H];
    [apply orb_true_iff in H; destruct H as [H|H]|].
  - apply in_or_app. left. apply (range_In 97 26). exact H.
  - apply in_or_app. right. apply in_or_app. left.
    apply (range_In 65 26). exact H.
  - apply in_or_app. right. apply in_or_app. right. now apply mem_In.
Qed.

(** Lowercasing a letter of the word pattern gives one lowercase letter. *)
Lemma lower_word_char (c : Z) :
  word_char c = true -> exists c', lower_cp c = [c'] /\ token_char c' = true.
Proof.
  intros H. apply word_char_alphabet in H.
  assert (K : forallb (fun c => match lower_cp c with
                                | [c'] => token_char c'
                                | _ => false
                                end) word_alphabet = true)
    by (vm_compute; reflexivity).
  rewrite forallb_forall in K. specialize (K c H).
  destruct (lower_cp c) as [|c' [|? ?]]; try discriminate.
  exists c'. auto.
Qed.

Lemma lower_word (w : pystr) :
  Forall (fun c => word_char c = true) w ->
  length (lower w) = length w /\ forallb token_char (lower w) = true.
Proof.
  induction 1 as [|c w Hc Hw [IH1 IH2]]; [split; reflexivity|].
  destruct (lower_word_char c Hc) as (c' & E & T).
  unfold lower in *. simpl. rewrite E. simpl. rewrite T, IH2. auto.
Qed.

Lemma token_char_In (c : Z) :
  token_char c = true -> In c (map Z.of_nat (seq 97 26) ++ vietnamese_chars).
Proof.
  unfold token_char. intros H. apply orb_true_iff in H. apply in_or_app.
  destruct H as [H|H]; [left; apply (range_In 97 26); exact H|].
  right. now apply mem_In.
Qed.

(** What a token is made of. *)
Lemma token_char_facts (c : Z) :
  token_char c = true ->
  word_char c = true /\ lower_cp c = [c] /\ is_space c = false
  /\ ~ (48 <= c <= 57).
Proof.
  intros H. apply token_char_In in H.
  assert (K : forallb (fun c => word_char c
                                && (if list_eq_dec Z.eq_dec (lower_cp c) [c]
                                    then true else false)
                                && negb (is_space c)
                                && negb ((48 <=? c) && (c <=? 57)))
                      (map Z.of_nat (seq 97 26) ++ vietnamese_chars) = true)
    by (vm_compute; reflexivity).
  rewrite forallb_forall in K. specialize (K c H).
  repeat (apply andb_true_iff in K; destruct K as [K ?]).
  repeat split; auto.
  - destruct (list_eq_dec Z.eq_dec (lower_cp c) [c]); [assumption|discriminate].
  - now apply negb_true_iff.
  - intros [A B]. apply negb_true_iff in H0.
    apply Z.leb_le in A. apply Z.leb_le in B. rewrite A, B in H0. discriminate.
Qed.

(** A token can be encoded. *)
Lemma token_char_encodes (c : Z) :
  token_char c = true -> exists b, Utf8.encode_cp c = Some b.
Proof.
  intros H. apply token_char_In in H.
  assert (K : forallb (fun c => match Utf8.encode_cp c with
                                | Some _ => true
                                | None => false
                                end)
                      (map Z.of_nat (seq 97 26) ++ vietnamese_chars) = true)
    by (vm_compute; reflexivity).
  rewrite forallb_forall in K. specialize (K c H).
  destruct (Utf8.encode_cp c); [eauto|discriminate].
Qed.

Lemma pystr_eqb_eq (a b : pystr) : pystr_eqb a b = true <-> a = b.
Proof. unfold pystr_eqb. destruct (list_eq_dec Z.eq_dec a b); split; congruence. Qed.

Lemma set_add_In (w : pystr) (acc : list pystr) (x : pystr) :
  In x (set_add w acc) <-> x = w \/ In x acc.
Proof.
  unfold set_add. destruct (existsb (pystr_eqb w) acc) eqn:E.
  - split; [auto|]. intros [->|H]; [|assumption].
    apply existsb_exists in E. destruct E as (y & Hy & E).
    apply pystr_eqb_eq in E. now subst.
  - rewrite in_app_iff. simpl. intuition.
Qed.

Lemma set_add_NoDup (w : pystr) (acc : list pystr) :
  NoDup acc -> NoDup (set_add w acc).
Proof.
  intros H. unfold set_add. destruct (existsb (pystr_eqb w) acc) eqn:E; [assumption|].
  apply NoDup_app; [assumption|repeat constructor; simpl; tauto|].
  intros x Hx [K|[]]. subst x.
  assert (existsb (pystr_eqb w) acc = true); [|congruence].
  rename w into x.
  apply existsb_exists. exists x. split; [assumption|now apply pystr_eqb_eq].
Qed.

Lemma add_word_tokens (acc : list pystr) (word : pystr) :
  lang word_pattern word -> tokens_only acc -> tokens_only (add_word acc word).
Proof.
  intros [_ L] [N F]. unfold add_word.
  destruct (2 <=? length (lower word))%nat eqn:E; [|split; assumption].
  split; [now apply set_add_NoDup|].
  apply Forall_forall. intros x Hx. apply set_add_In in Hx.
  destruct Hx as [->|Hx]; [|rewrite Forall_forall in F; auto].
  unfold is_token. rewrite E. apply (lower_word word L).
Qed.

Lemma add_words_tokens (words : list pystr) :
  Forall (lang word_pattern) words ->
  forall acc, tokens_only acc -> tokens_only (fold_left add_word words acc).
Proof.
  induction 1 as [|w words Hw _ IH]; intros acc H; simpl; [assumption|].
  apply IH. now apply add_word_tokens.
Qed.

Lemma add_sentence_tokens (acc : list pystr) (sentence : pystr) :
  tokens_only acc -> tokens_only (add_sentence acc sentence).
Proof.
  intros H. unfold add_sentence.
  destruct (has_vietnamese_diacritic sentence); [|assumption].
  apply add_words_tokens; [|assumption].
  apply ReFacts.findall_loop_lang.
Qed.

Lemma add_sentences_tokens (sentences : list pystr) :
  forall acc, tokens_only acc -> tokens_only (fold_left add_sentence sentences acc).
Proof.
  induction sentences as [|s l IH]; intros acc H; simpl; [assumption|].
  apply IH. now apply add_sentence_tokens.
Qed.

(** No substitution of [extract_words] raises: each template only refers
    to groups its pattern has. *)
Lemma strip_markup_total (text : pystr) :
  exists stripped, strip_markup text = Ok stripped.
Proof.
  unfold strip_markup, sub.
  replace (template_ok template_re []) with true by reflexivity.
  replace (template_ok link_re [TGroup 1]) with true by reflexivity.
  replace (template_ok ref_re []) with true by reflexivity.
  replace (template_ok tag_re []) with true by reflexivity.
  replace (template_ok url_re []) with true by reflexivity.
  replace (template_ok category_re []) with true by reflexivity.
  simpl. eauto.
Qed.

Lemma extract_words_spans (text : pystr) :
  exists stripped,
    strip_markup text = Ok stripped
    /\ extract_words text
       = Ok (fold_left add_sentence (split sentence_pattern stripped) []).
Proof.
  destruct (strip_markup_total text) as (stripped & E).
  exists stripped. split; [assumption|].
  unfold extract_words. rewrite E. reflexivity.
Qed.

Lemma extract_words_tokens_only (text : pystr) :
  exists words, extract_words text = Ok words /\ tokens_only words.
Proof.
  destruct (extract_words_spans text) as (stripped & _ & E).
  eexists. split; [exact E|].
  apply add_sentences_tokens. split; constructor.
Qed.

Lemma is_token_spec (w : pystr) :
  is_token w = true <->
  (2 <= length w)%nat /\ (forall c, In c w -> token_char c = true).
Proof.
  unfold is_token. rewrite andb_true_iff, forallb_forall, Nat.leb_le. tauto.
Qed.

Lemma token_encodes (w : pystr) :
  is_token w = true -> exists l, Utf8.encode w = Some l.
Proof.
  intros H. apply is_token_spec in H. destruct H as [_ C].
  induction w as [|c w IH]; [simpl; eauto|].
  destruct (token_char_encodes c (C c (or_introl eq_refl))) as (b & E).
  destruct IH as (l & El); [intros x Hx; apply C; now right|].
  simpl. rewrite E, El. eauto.
Qed.

Lemma gate_spec (span : pystr) :
  has_vietnamese_diacritic span = true
  <-> exists c, In c (lower span) /\ In c vietnamese_chars.
Proof.
  unfold has_vietnamese_diacritic. rewrite existsb_exists.
  split; intros (c & H1 & H2); exists c; split; auto; now apply mem_In.
Qed.

(* ================================================================== *)
(** * Sorting and deduplication *)
(* ================================================================== *)

Module SortFacts.

Lemma bytes_leb_refl (a : bytes) : bytes_leb a a = true.
Proof.
  induction a as [|x a IH]; simpl; [reflexivity|].
  rewrite Z.ltb_irrefl. exact IH.
Qed.

Lemma bytes_leb_total (a b : bytes) :
  bytes_leb a b = true \/ bytes_leb b a = true.
Proof.
  revert b; induction a as [|x a IH]; intros [|y b]; simpl; auto.
  destruct (x <? y) eqn:E1; [auto|].
  destruct (y <? x) eqn:E2; [auto|]. apply IH.
Qed.

Lemma bytes_leb_antisym (a b : bytes) :
  bytes_leb a b = true -> bytes_leb b a = true -> a = b.
Proof.
  revert b; induction a as [|x a IH]; intros [|y b]; simpl; try discriminate; auto.
  destruct (x <? y) eqn:E1; destruct (y <? x) eqn:E2; try discriminate.
  - apply Z.ltb_lt in E1. apply Z.ltb_lt in E2. lia.
  - intros H1 H2. apply Z.ltb_ge in E1. apply Z.ltb_ge in E2.
    f_equal; [lia|auto].
Qed.

Lemma bytes_leb_trans (a b c : bytes) :
  bytes_leb a b = true -> bytes_leb b c = true -> bytes_leb a c = true.
Proof.
  revert b c; induction a as [|x a IH]; intros [|y b] [|z c]; simpl;
    try discriminate; auto.
  destruct (x <? y) eqn:E1; destruct (y <? z) eqn:E2;
    destruct (x <? z) eqn:E3; auto;
    destruct (y <? x) eqn:E4; destruct (z <? y) eqn:E5;
    destruct (z <? x) eqn:E6; try discriminate; auto;
    repeat match goal with
           | H : (_ <? _) = true |- _ => apply Z.ltb_lt in H
           | H : (_ <? _) = false |- _ => apply Z.ltb_ge in H
           end; try lia.
  apply IH.
Qed.

Lemma insert_line_perm (l : bytes) (sorted : list bytes) :
  Permutation (insert_line l sorted) (l :: sorted).
Proof.
  induction sorted as [|h t IH]; simpl; [reflexivity|].
  destruct (bytes_leb l h); [reflexivity|].
  rewrite IH. apply perm_swap.
Qed.

Lemma sort_lines_perm (lines : list bytes) :
  Permutation (sort_lines lines) lines.
Proof.
  induction lines as [|l rest IH]; simpl; [reflexivity|].
  rewrite insert_line_perm. now constructor.
Qed.

Lemma insert_line_sorted (l : bytes) (sorted : list bytes) :
  StronglySorted bytes_le sorted -> StronglySorted bytes_le (insert_line l sorted).
Proof.
  induction 1 as [|h t Ht IH Hh]; simpl; [repeat constructor|].
  destruct (bytes_leb l h) eqn:E.
  - constructor; [now constructor|].
    constructor; [exact E|].
    eapply Forall_impl; [|exact Hh]. intros x Hx.
    eapply bytes_leb_trans; eassumption.
  - constructor; [assumption|].
    eapply Permutation_Forall; [symmetry; apply insert_line_perm|].
    constructor; [|assumption].
    destruct (bytes_leb_total l h) as [K|K]; [congruence|exact K].
Qed.

Lemma sort_lines_sorted (lines : list bytes) :
  StronglySorted bytes_le (sort_lines lines).
Proof.
  induction lines as [|l rest IH]; simpl; [constructor|].
  now apply insert_line_sorted.
Qed.

(** Two sorted lists with the same members in the same numbers are the
    same list: whatever algorithm the sort utility runs, its output is
    [sort_lines]. *)
Lemma sorted_perm_unique (l1 : list bytes) :
  forall l2, StronglySorted bytes_le l1 -> StronglySorted bytes_le l2 ->
             Permutation l1 l2 -> l1 = l2.
Proof.
  induction l1 as [|a l1 IH]; intros l2 S1 S2 P.
  - apply Permutation_nil in P. now subst.
  - destruct l2 as [|b l2]; [apply Permutation_sym, Permutation_nil in P; discriminate|].
    inversion S1 as [|? ? S1' F1]; inversion S2 as [|? ? S2' F2]; subst.
    assert (a = b).
    { assert (Ia : In a (b :: l2)) by (eapply Permutation_in; [exact P|now left]).
      assert (Ib : In b (a :: l1))
        by (eapply Permutation_in; [symmetry; exact P|now left]).
      destruct Ia as [->|Ia]; [reflexivity|].
      destruct Ib as [->|Ib]; [reflexivity|].
      rewrite Forall_forall in F1, F2.
      apply bytes_leb_antisym; [apply F1|apply F2]; assumption. }
    subst b. f_equal. apply IH; try assumption.
    eapply Permutation_cons_inv; exact P.
Qed.

Lemma sort_lines_permutation_invariant (l1 l2 : list bytes) :
  Permutation l1 l2 -> sort_lines l1 = sort_lines l2.
Proof.
  intros P. apply sorted_perm_unique; try apply sort_lines_sorted.
  rewrite !sort_lines_perm. exact P.
Qed.

Lemma bytes_eqb_eq (a b : bytes) : bytes_eqb a b = true <-> a = b.
Proof. unfold bytes_eqb. destruct (list_eq_dec Z.eq_dec a b); split; congruence. Qed.

Lemma uniq_from_In (x : bytes) (lines : list bytes) :
  forall prev, In x (uniq_from prev lines) -> In x lines.
Proof.
  induction lines as [|l rest IH]; intros prev H; simpl in *; [assumption|].
  destruct (bytes_eqb l prev); [right; eauto|].
  destruct H as [H|H]; [now left|right; eauto].
Qed.

Lemma In_uniq_from (x : bytes) (lines : list bytes) :
  forall prev, In x lines -> x = prev \/ In x (uniq_from prev lines).
Proof.
  induction lines as [|l rest IH]; intros prev H; simpl in *; [contradiction|].
  destruct (bytes_eqb l prev) eqn:E.
  - apply bytes_eqb_eq in E. subst l.
    destruct H as [H|H]; [now left|auto].
  - destruct H as [H|H]; [right; now left|].
    destruct (IH l H) as [K|K]; [right; now left|right; now right].
Qed.

Lemma uniq_In (x : bytes) (lines : list bytes) :
  In x (uniq lines) <-> In x lines.
Proof.
  destruct lines as [|l rest]; simpl; [tauto|]. split.
  - intros [H|H]; [now left|right; eapply uniq_from_In; eassumption].
  - intros [H|H]; [now left|].
    destruct (In_uniq_from x rest l H) as [K|K]; [left; congruence|now right].
Qed.

Lemma uniq_from_sorted (lines : list bytes) :
  forall prev, StronglySorted bytes_le (prev :: lines) ->
               StronglySorted bytes_lt (prev :: uniq_from prev lines).
Proof.
  induction lines as [|l rest IH]; intros prev S; simpl.
  - repeat constructor.
  - inversion S as [|? ? S' F]; subst.
    inversion S' as [|? ? S'' F']; subst.
    inversion F as [|? ? Hl Frest]; subst.
    destruct (bytes_eqb l prev) eqn:E.
    + apply IH. constructor; assumption.
    + specialize (IH l S'). inversion IH as [|? ? IH1 IH2]; subst.
      constructor; [assumption|].
      assert (Hlt : bytes_lt prev l).
      { split; [exact Hl|]. intros ->. rewrite (proj2 (bytes_eqb_eq l l) eq_refl) in E.
        discriminate. }
      constructor; [exact Hlt|].
      eapply Forall_impl; [|exact IH2]. intros x [Hx Nx]. split.
      * eapply bytes_leb_trans; [exact Hl|exact Hx].
      * intros ->. apply Nx. apply bytes_leb_antisym; assumption.
Qed.

Lemma uniq_sorted (lines : list bytes) :
  StronglySorted bytes_le lines -> StronglySorted bytes_lt (uniq lines).
Proof.
  destruct lines as [|l rest]; simpl; [constructor|]. apply uniq_from_sorted.
Qed.

Lemma strictly_sorted_NoDup (lines : list bytes) :
  StronglySorted bytes_lt lines -> NoDup lines.
Proof.
  induction 1 as [|a l S IH F]; constructor; [|assumption].
  intros I. rewrite Forall_forall in F. destruct (F a I) as [_ N]. now apply N.
Qed.

(** The output of [sort -u]: strictly ascending, the members of the
    input. *)
Lemma sort_u_spec (lines : list bytes) :
  StronglySorted bytes_lt (sort_u lines)
  /\ NoDup (sort_u lines)
  /\ (forall l, In l (sort_u lines) <-> In l lines).
Proof.
  assert (S : StronglySorted bytes_lt (sort_u lines))
    by (apply uniq_sorted, sort_lines_sorted).
  split; [exact S|]. split; [now apply strictly_sorted_NoDup|].
  intros l. unfold sort_u. rewrite uniq_In. split; intros H.
  - eapply Permutation_in; [apply sort_lines_perm|exact H].
  - eapply Permutation_in; [symmetry; apply sort_lines_perm|exact H].
Qed.

Lemma sort_u_permutation_invariant (l1 l2 : list bytes) :
  Permutation l1 l2 -> sort_u l1 = sort_u l2.
Proof.
  intros P. unfold sort_u. now rewrite (sort_lines_permutation_invariant l1 l2 P).
Qed.

End SortFacts.

(* ================================================================== *)
(** * The codec and the text layer *)
(* ================================================================== *)

Module Utf8Facts.
Import Utf8.

Ltac decide_tests :=
  repeat match goal with
         | |- context [?a <=? ?b] =>
           first [ replace (a <=? b) with true by (symmetry; apply Z.leb_le; lia)
                 | replace (a <=? b) with false by (symmetry; apply Z.leb_gt; lia) ]
         | |- context [?a <? ?b] =>
           first [ replace (a <? b) with true by (symmetry; apply Z.ltb_lt; lia)
                 | replace (a <? b) with false by (symmetry; apply Z.ltb_ge; lia) ]
         end.

Lemma some_inj (A : Type) (x y : A) : Some x = Some y -> x = y.
Proof. congruence. Qed.

(** Decoding undoes encoding, one code point at a time. *)
Lemma decode_encode_cp (c : Z) (b rest : bytes) :
  encode_cp c = Some b ->
  decode (b ++ rest) = option_map (cons c) (decode rest).
Proof.
  intros H.
  pose proof (Z.mod_pos_bound c 64 ltac:(lia)).
  pose proof (Z.mod_pos_bound (c / 64) 64 ltac:(lia)).
  pose proof (Z.mod_pos_bound (c / 4096) 64 ltac:(lia)).
  pose proof (Z.div_mod c 64 ltac:(lia)).
  pose proof (Z.div_mod (c / 64) 64 ltac:(lia)).
  pose proof (Z.div_mod (c / 4096) 64 ltac:(lia)).
  assert (c / 64 / 64 = c / 4096) by (rewrite Z.div_div by lia; reflexivity).
  assert (c / 4096 / 64 = c / 262144) by (rewrite Z.div_div by lia; reflexivity).
  assert (R : c < 0 \/ 0 <= c < 128 \/ 128 <= c < 2048 \/ 2048 <= c < 55296
              \/ 55296 <= c < 57344 \/ 57344 <= c < 65536
              \/ 65536 <= c < 1114112 \/ 1114112 <= c) by lia.
  unfold encode_cp in H.
  repeat (destruct R as [R|R]); revert H; decide_tests; cbn [andb negb];
    intros H; try discriminate H; apply some_inj in H; subst b;
    cbn [decode app]; unfold is_cont; decide_tests; cbn [andb negb];
    first [ reflexivity
          | match goal with
            | |- option_map (cons ?X) _ = _ => replace X with c by lia; reflexivity
            end ].
Qed.

Lemma decode_encode (s : pystr) :
  forall b rest, encode s = Some b ->
                 decode (b ++ rest) = option_map (app s) (decode rest).
Proof.
  induction s as [|c s IH]; intros b rest H; simpl in H.
  - inversion H. simpl. destruct (decode rest); reflexivity.
  - destruct (encode_cp c) as [bc|] eqn:Ec; [|discriminate].
    destruct (encode s) as [bs|] eqn:Es; [|discriminate].
    inversion H; subst b. rewrite <- app_assoc.
    rewrite (decode_encode_cp c bc _ Ec), (IH bs rest eq_refl).
    destruct (decode rest); reflexivity.
Qed.

Lemma encode_injective (s1 s2 : pystr) (b : bytes) :
  encode s1 = Some b -> encode s2 = Some b -> s1 = s2.
Proof.
  intros H1 H2.
  pose proof (decode_encode s1 b [] H1) as D1.
  pose proof (decode_encode s2 b [] H2) as D2.
  rewrite D1 in D2. simpl in D2. inversion D2 as [E].
  rewrite !app_nil_r in E. exact E.
Qed.

End Utf8Facts.

(* ================================================================== *)
(** * Token lines through the fallback *)
(* ================================================================== *)

Module SpoolFacts.
Import SortFacts Utf8Facts.

Lemma token_line_holds (lines : list bytes) :
  Forall token_line lines -> exists ws, Forall2 holds ws lines.
Proof.
  induction 1 as [|l lines (w & Hw) _ (ws & IH)].
  - exists []. constructor.
  - exists (w :: ws). constructor; assumption.
Qed.

Lemma token_chars (w : pystr) :
  is_token w = true ->
  w <> [] /\ Forall (fun c => is_space c = false) w.
Proof.
  intros H. apply is_token_spec in H. destruct H as [L C]. split.
  - intros ->. simpl in L. lia.
  - apply Forall_forall. intros c Hc. apply token_char_facts. auto.
Qed.

Lemma not_space_not_newline (c : Z) : is_space c = false -> c <> 10 /\ c <> 13.
Proof. intros H. split; intros ->; discriminate H. Qed.

Lemma readlines_line (w rest : pystr) :
  Forall (fun c => is_space c = false) w ->
  readlines (w ++ 10 :: rest) = (w ++ [10]) :: readlines rest.
Proof.
  induction 1 as [|c w Hc _ IH]; [reflexivity|].
  apply not_space_not_newline in Hc. destruct Hc as [N1 N2].
  cbn [app readlines].
  apply Z.eqb_neq in N1. apply Z.eqb_neq in N2. rewrite N1, N2, IH.
  reflexivity.
Qed.

Lemma lstrip_head (c : Z) (s : pystr) :
  is_space c = false -> lstrip (c :: s) = c :: s.
Proof. intros H. simpl. now rewrite H. Qed.

Lemma strip_line (w : pystr) :
  w <> [] -> Forall (fun c => is_space c = false) w -> strip (w ++ [10]) = w.
Proof.
  intros N F. unfold strip.
  assert (E1 : lstrip (w ++ [10]) = w ++ [10]).
  { destruct w as [|c w]; [congruence|]. inversion F; subst.
    now apply lstrip_head. }
  rewrite E1, rev_app_distr. cbn [rev app lstrip].
  replace (is_space 10) with true by reflexivity.
  assert (E2 : lstrip (rev w) = rev w).
  { apply Forall_rev in F. destruct (rev w) as [|c r] eqn:E.
    - reflexivity.
    - inversion F; subst. now apply lstrip_head. }
  rewrite E2. apply rev_involutive.
Qed.

Lemma decode_lines (ws : list pystr) (lines : list bytes) :
  Forall2 holds ws lines ->
  Utf8.decode (file_bytes lines) = Some (flat_map (fun w => w ++ [10]) ws).
Proof.
  induction 1 as [|w l ws lines [_ E] _ IH]; [reflexivity|].
  unfold file_bytes in *. cbn [flat_map]. rewrite <- app_assoc.
  rewrite (decode_encode w l _ E). cbn [app Utf8.decode].
  replace ((0 <=? 10) && (10 <? 128)) with true by reflexivity.
  rewrite IH. cbn [option_map]. now rewrite <- app_assoc.
Qed.

Lemma readlines_lines (ws : list pystr) :
  Forall (fun w => is_token w = true) ws ->
  readlines (flat_map (fun w => w ++ [10]) ws) = map (fun w => w ++ [10]) ws.
Proof.
  induction 1 as [|w ws Hw _ IH]; [reflexivity|].
  cbn [flat_map map]. rewrite <- app_assoc. cbn [app].
  rewrite readlines_line by (apply token_chars; assumption).
  now rewrite IH.
Qed.

Lemma holds_tokens (ws : list pystr) (lines : list bytes) :
  Forall2 holds ws lines -> Forall (fun w => is_token w = true) ws.
Proof. induction 1 as [|w l ws lines [T _] _ IH]; constructor; auto. Qed.

(** Python reads a file of token lines back as the tokens. *)
Lemma read_text_lines (ws : list pystr) (lines : list bytes) :
  Forall2 holds ws lines ->
  read_text lines = Ok (map (fun w => w ++ [10]) ws).
Proof.
  intros H. unfold read_text. rewrite (decode_lines ws lines H).
  now rewrite (readlines_lines ws (holds_tokens ws lines H)).
Qed.

Lemma holds_same (w1 w2 : pystr) (l1 l2 : bytes) :
  holds w1 l1 -> holds w2 l2 -> pystr_eqb w1 w2 = bytes_eqb l1 l2.
Proof.
  intros [_ E1] [_ E2].
  destruct (pystr_eqb w1 w2) eqn:Ew; destruct (bytes_eqb l1 l2) eqn:El; try reflexivity.
  - apply pystr_eqb_eq in Ew. subst w2.
    assert (l1 = l2) by congruence. apply bytes_eqb_eq in H. congruence.
  - apply bytes_eqb_eq in El. subst l2.
    pose proof (encode_injective w1 w2 l1 E1 E2) as K.
    apply pystr_eqb_eq in K. congruence.
Qed.

Lemma dedup_stream_from (ws : list pystr) (lines : list bytes) :
  Forall2 holds ws lines ->
  forall p pl, holds p pl ->
    dedup_stream (Some p) (map (fun w => w ++ [10]) ws)
    = Ok (uniq_from pl lines).
Proof.
  induction 1 as [|w l ws lines Hw _ IH]; intros p pl Hp; [reflexivity|].
  cbn [map dedup_stream uniq_from].
  destruct (token_chars w (proj1 Hw)) as [N F].
  rewrite (strip_line w N F).
  cbn [prev_is]. rewrite (holds_same w p l pl Hw Hp).
  destruct w as [|c w']; [congruence|]. cbn [negb andb].
  destruct (bytes_eqb l pl); cbn [negb].
  - apply IH. exact Hp.
  - rewrite (proj2 Hw). rewrite (IH (c :: w') l Hw). reflexivity.
Qed.

Lemma dedup_stream_uniq (ws : list pystr) (lines : list bytes) :
  Forall2 holds ws lines ->
  dedup_stream None (map (fun w => w ++ [10]) ws) = Ok (uniq lines).
Proof.
  intros H. destruct H as [|w l ws lines Hw H]; [reflexivity|].
  cbn [map dedup_stream uniq].
  destruct (token_chars w (proj1 Hw)) as [N F].
  rewrite (strip_line w N F).
  destruct w as [|c w']; [congruence|]. cbn [negb andb prev_is].
  rewrite (proj2 Hw). rewrite (dedup_stream_from ws lines H (c :: w') l Hw).
  reflexivity.
Qed.

(** On a spool of token lines the fallback writes what [sort -u] writes. *)
Lemma save_fallback_tokens (spool : list bytes) :
  Forall token_line spool -> save_fallback spool = Saved (sort_u spool).
Proof.
  intros H.
  assert (S : Forall token_line (sort_lines spool))
    by (eapply Permutation_Forall; [symmetry; apply sort_lines_perm|exact H]).
  destruct (token_line_holds _ S) as (ws & Hws).
  unfold save_fallback. rewrite (read_text_lines ws _ Hws). cbn [bind].
  now rewrite (dedup_stream_uniq ws _ Hws).
Qed.

Lemma save_primary_tokens (spool : list bytes) :
  Forall token_line spool -> save_primary spool = Saved (sort_u spool).
Proof.
  intros H.
  assert (S : Forall token_line (sort_u spool)).
  { apply Forall_forall. intros l Hl. apply (proj2 (proj2 (sort_u_spec spool))) in Hl.
    rewrite Forall_forall in H. auto. }
  destruct (token_line_holds _ S) as (ws & Hws).
  unfold save_primary. now rewrite (read_text_lines ws _ Hws).
Qed.

Lemma token_line_not_blank (l : bytes) : token_line l -> l <> [].
Proof.
  intros (w & T & E) ->. apply is_token_spec in T. destruct T as [L _].
  destruct w as [|c w]; [simpl in L; lia|].
  simpl in E. destruct (Utf8.encode_cp c) as [b|] eqn:Ec; [|discriminate].
  destruct (Utf8.encode w); [|discriminate].
  injection E as E. apply app_eq_nil in E. destruct E as [-> _].
  unfold Utf8.encode_cp in Ec.
  repeat match type of Ec with
         | (if ?b then _ else _) = _ => destruct b
         end; discriminate.
Qed.

End SpoolFacts.

(* ================================================================== *)
(** * The parse loop *)
(* ================================================================== *)

Module ParseFacts.
Import SpoolFacts.

(** ** The spool only ever receives token lines *)

Lemma encode_words_lines (words : list pystr) :
  Forall (fun w => is_token w = true) words ->
  forall lines, encode_words words = Ok lines -> Forall token_line lines.
Proof.
  induction 1 as [|w words Hw _ IH]; intros lines H; simpl in H.
  - inversion H. constructor.
  - destruct (Utf8.encode w) as [b|] eqn:E; [|discriminate].
    destruct (encode_words words) as [bs|] eqn:Es; [|discriminate].
    inversion H; subst. constructor; [|now apply IH].
    exists w. auto.
Qed.

Lemma write_words_spool (self self' : extractor) (words : list pystr) :
  Forall (fun w => is_token w = true) words -> spool_ok self ->
  write_words_to_file self words = Ok self' -> spool_ok self'.
Proof.
  intros T S H. unfold write_words_to_file in H.
  destruct (encode_words words) as [new_lines|] eqn:E; [|discriminate].
  inversion H; subst. unfold spool_ok in *. simpl.
  pose proof (encode_words_lines words T new_lines E) as N.
  destruct (temp_file self); [apply Forall_app; auto|assumption].
Qed.

(** The two ways through the record-end branch. *)
Lemma end_of_page_cases (self : extractor) (v : locals) :
  (current_text v = [] /\ end_of_page self v = Ok (self, set_in_page false v))
  \/ (current_text v <> []
      /\ exists words,
          extract_words (concat (current_text v)) = Ok words
          /\ tokens_only words
          /\ end_of_page self v
             = match words with
               | [] =>
                 Ok (self, mkLocals false (in_text v) [] 0
                                    (articles_processed v + 1)
                                    (articles_matched v))
               | _ :: _ =>
                 self1 <- write_words_to_file self words ;;
                 Ok (self1, mkLocals false (in_text v) [] 0
                                     (articles_processed v + 1)
                                     (articles_matched v + 1))
               end).
Proof.
  destruct (current_text v) as [|t ts] eqn:C.
  - left. split; [reflexivity|]. unfold end_of_page. now rewrite C.
  - right. split; [discriminate|].
    destruct (extract_words_tokens_only (concat (t :: ts))) as (words & E & T).
    exists words. split; [exact E|]. split; [exact T|].
    unfold end_of_page. rewrite C.
    change (current_text (set_articles_processed (articles_processed v + 1) v))
      with (current_text v).
    rewrite C, E. destruct words as [|w ws]; [reflexivity|].
    cbn [bind]. destruct (write_words_to_file self (w :: ws)); reflexivity.
Qed.

Lemma end_of_page_spool (self self' : extractor) (v v' : locals) :
  spool_ok self -> end_of_page self v = Ok (self', v') -> spool_ok self'.
Proof.
  intros S H.
  destruct (end_of_page_cases self v) as [[_ E]|(_ & words & _ & [_ T] & E)];
    rewrite E in H.
  - inversion H; subst. exact S.
  - destruct words as [|w ws]; [inversion H; subst; exact S|].
    destruct (write_words_to_file self (w :: ws)) as [self1|] eqn:W;
      [|discriminate].
    inversion H; subst. eapply write_words_spool; eassumption.
Qed.

Lemma parse_line_spool (self self' : extractor) (v v' : locals) (line : pystr) :
  spool_ok self -> parse_line self v line = Ok (self', v') -> spool_ok self'.
Proof.
  intros S H. unfold parse_line in H.
  destruct (contains (u "<page>") line); [inversion H; subst; exact S|].
  destruct (contains (u "</page>") line && in_page v);
    [eapply end_of_page_spool; eassumption|].
  destruct (in_page v); [|inversion H; subst; exact S].
  destruct (inside_page v line); [|discriminate].
  inversion H; subst; exact S.
Qed.

Lemma parse_lines_spool (lines : list pystr) :
  forall self v self' v',
    spool_ok self -> parse_lines self v lines = Ok (self', v') -> spool_ok self'.
Proof.
  induction lines as [|line rest IH]; intros self v self' v' S H; simpl in H.
  - inversion H; subst. exact S.
  - destruct (parse_line self v line) as [[self1 v1]|] eqn:E; [|discriminate].
    simpl in H. eapply IH; [|exact H]. eapply parse_line_spool; eassumption.
Qed.

(** Whatever the dump, the spool the parse phase leaves holds token
    lines only. *)
Lemma parse_dump_spool (self self' : extractor) (dump : bytes) :
  parse_dump self dump = Ok self' -> spool_ok self'.
Proof.
  unfold parse_dump, parse_dump_regex. intros H.
  destruct (Utf8.decode dump) as [text|]; [|discriminate].
  destruct (parse_lines _ initial_locals (readlines text)) as [[s v]|] eqn:E;
    [|discriminate].
  inversion H; subst. eapply parse_lines_spool; [|exact E]. exact I.
Qed.

(** ** The parse loop raises nothing of its own *)

Lemma encode_words_total (words : list pystr) :
  Forall (fun w => is_token w = true) words ->
  exists lines, encode_words words = Ok lines.
Proof.
  induction 1 as [|w words Hw _ (lines & IH)]; [simpl; eauto|].
  destruct (token_encodes w Hw) as (l & E).
  simpl. rewrite E, IH. simpl. eauto.
Qed.

Lemma write_words_total (self : extractor) (words : list pystr) :
  Forall (fun w => is_token w = true) words ->
  exists self', write_words_to_file self words = Ok self'.
Proof.
  intros T. destruct (encode_words_total words T) as (lines & E).
  unfold write_words_to_file. rewrite E. simpl. eauto.
Qed.

Lemma end_of_page_total (self : extractor) (v : locals) :
  exists r, end_of_page self v = Ok r.
Proof.
  destruct (end_of_page_cases self v) as [[_ E]|(_ & words & _ & [_ T] & E)];
    rewrite E; [eauto|].
  destruct words as [|w ws]; [eauto|].
  destruct (write_words_total self (w :: ws) T) as (self' & W).
  rewrite W. simpl. eauto.
Qed.

Lemma search_group1 (r : regex) (line : pystr) (g : option pystr) :
  sets_group r = true -> (1 <=? Re.ngroups r)%nat = true ->
  Re.search r line = Some g -> exists t, Re.group1 r g = Ok t.
Proof.
  intros S N H. destruct (ReFacts.search_group_set r S line g H) as (t & ->).
  unfold Re.group1. rewrite N. eauto.
Qed.

Lemma inside_page_total (v : locals) (line : pystr) :
  exists v', inside_page v line = Ok v'.
Proof.
  unfold inside_page.
  destruct (contains (u "<text") line).
  - destruct (Re.search text_open_re line) as [g|] eqn:S; [|eauto].
    destruct (search_group1 text_open_re line g eq_refl eq_refl S) as (t & ->).
    simpl. eauto.
  - destruct (contains (u "</text>") line).
    + destruct (Re.search text_close_re line) as [g|] eqn:S; [|simpl; eauto].
      destruct (search_group1 text_close_re line g eq_refl eq_refl S) as (t & ->).
      simpl. eauto.
    + destruct (in_text v); [|eauto]. simpl.
      destruct (text_lines v + 1 >? max_text_lines); eauto.
Qed.

Lemma parse_line_total (self : extractor) (v : locals) (line : pystr) :
  exists r, parse_line self v line = Ok r.
Proof.
  unfold parse_line.
  destruct (contains (u "<page>") line); [eauto|].
  destruct (contains (u "</page>") line && in_page v);
    [apply end_of_page_total|].
  destruct (in_page v); [|eauto].
  destruct (inside_page_total v line) as (v' & ->). simpl. eauto.
Qed.

Lemma parse_lines_total (lines : list pystr) :
  forall self v, exists r, parse_lines self v lines = Ok r.
Proof.
  induction lines as [|line rest IH]; intros self v; simpl; [eauto|].
  destruct (parse_line_total self v line) as ([self1 v1] & ->). simpl.
  apply IH.
Qed.

(** The parse phase fails on a dump that is not UTF-8 text, and on no
    other. *)
Lemma parse_dump_total (self : extractor) (dump : bytes) :
  (exists self', parse_dump self dump = Ok self')
  \/ (Utf8.decode dump = None
      /\ parse_dump self dump = Raise UnicodeDecodeError).
Proof.
  unfold parse_dump, parse_dump_regex.
  destruct (Utf8.decode dump) as [text|]; [left|right; auto].
  destruct (parse_lines_total (readlines text)
                              (mkExtractor None (total_words_written self))
                              initial_locals) as ([self' v'] & ->).
  simpl. eauto.
Qed.

(** ** The record-start marker *)

Lemma parse_line_start (self : extractor) (v : locals) (line : pystr) :
  contains (u "<page>") line = true ->
  parse_line self v line
  = Ok (self, mkLocals true (in_text v) [] 0
                       (articles_processed v) (articles_matched v)).
Proof. intros H. unfold parse_line. rewrite H. reflexivity. Qed.

(** After a record-start marker the run does not depend on the buffer,
    the counter or the record flag it found. *)
Lemma parse_lines_start (self : extractor) (v : locals) (line : pystr)
      (rest : list pystr) (ip : bool) (ct : list pystr) (n : Z) :
  contains (u "<page>") line = true ->
  parse_lines self
              (mkLocals ip (in_text v) ct n
                        (articles_processed v) (articles_matched v))
              (line :: rest)
  = parse_lines self v (line :: rest).
Proof.
  intros H. cbn [parse_lines]. rewrite !parse_line_start by exact H.
  reflexivity.
Qed.

(** ** Where accumulated text comes from *)

Lemma drawn_from_more (seen : list pystr) (line : pystr) (pieces : list pystr) :
  drawn_from seen pieces -> drawn_from (seen ++ [line]) pieces.
Proof.
  unfold drawn_from. intros H. eapply Forall_impl; [|exact H].
  intros piece (l & I & P). exists l. split; [|exact P].
  apply in_or_app. now left.
Qed.

Lemma drawn_from_snoc (seen : list pystr) (line piece : pystr)
      (pieces : list pystr) :
  drawn_from seen pieces -> part_of piece line ->
  drawn_from (seen ++ [line]) (pieces ++ [piece]).
Proof.
  intros H P. apply Forall_app. split; [now apply drawn_from_more|].
  constructor; [|constructor]. exists line. split; [|exact P].
  apply in_or_app. right. now left.
Qed.

Lemma part_of_refl (s : pystr) : part_of s s.
Proof. exists [], []. simpl. now rewrite app_nil_r. Qed.

Lemma search_piece (r : regex) (line t : pystr) (g : option pystr) :
  Re.search r line = Some g -> Re.group1 r g = Ok t -> part_of t line.
Proof.
  intros S G. apply ReFacts.search_group in S. unfold Re.group1 in G.
  destruct (1 <=? Re.ngroups r)%nat; [|discriminate].
  destruct S as [->|(t' & -> & P)]; [discriminate|].
  inversion G; subst. exact P.
Qed.

Lemma inside_page_drawn (seen : list pystr) (v v' : locals) (line : pystr) :
  drawn_from seen (current_text v) ->
  inside_page v line = Ok v' ->
  drawn_from (seen ++ [line]) (current_text v').
Proof.
  intros D H. unfold inside_page in H.
  destruct (contains (u "<text") line).
  - destruct (Re.search text_open_re line) as [g|] eqn:S.
    + destruct (Re.group1 text_open_re g) as [t|] eqn:G; [|discriminate].
      inversion H; subst. simpl.
      apply drawn_from_snoc; [exact D|]. eapply search_piece; eassumption.
    + inversion H; subst. simpl. now apply drawn_from_more.
  - destruct (contains (u "</text>") line).
    + destruct (Re.search text_close_re line) as [g|] eqn:S.
      * destruct (Re.group1 text_close_re g) as [t|] eqn:G; [|discriminate].
        inversion H; subst. simpl.
        apply drawn_from_snoc; [exact D|]. eapply search_piece; eassumption.
      * inversion H; subst. simpl. now apply drawn_from_more.
    + destruct (in_text v).
      * simpl in H.
        destruct (text_lines v + 1 >? max_text_lines); inversion H; subst; simpl.
        -- constructor.
        -- apply drawn_from_snoc; [exact D|apply part_of_refl].
      * inversion H; subst. now apply drawn_from_more.
Qed.

Lemma end_of_page_drawn (seen : list pystr) (self self' : extractor)
      (v v' : locals) :
  drawn_from seen (current_text v) ->
  end_of_page self v = Ok (self', v') ->
  drawn_from seen (current_text v').
Proof.
  intros D H.
  destruct (end_of_page_cases self v) as [[C E]|(_ & words & _ & _ & E)];
    rewrite E in H.
  - inversion H; subst. simpl. rewrite C. constructor.
  - destruct words as [|w ws]; [inversion H; subst; constructor|].
    destruct (write_words_to_file self (w :: ws)); [|discriminate].
    inversion H; subst. constructor.
Qed.

Lemma parse_line_drawn (seen : list pystr) (self self' : extractor)
      (v v' : locals) (line : pystr) :
  drawn_from seen (current_text v) ->
  parse_line self v line = Ok (self', v') ->
  drawn_from (since_start seen line) (current_text v').
Proof.
  intros D H. unfold parse_line in H. unfold since_start.
  destruct (contains (u "<page>") line).
  - inversion H; subst. constructor.
  - destruct (contains (u "</page>") line && in_page v).
    + apply drawn_from_more. eapply end_of_page_drawn; eassumption.
    + destruct (in_page v).
      * destruct (inside_page v line) as [v1|] eqn:E; [|discriminate].
        inversion H; subst. eapply inside_page_drawn; eassumption.
      * inversion H; subst. now apply drawn_from_more.
Qed.

Lemma parse_lines_drawn (lines : list pystr) :
  forall seen self v self' v',
    drawn_from seen (current_text v) ->
    parse_lines self v lines = Ok (self', v') ->
    drawn_from (fold_left since_start lines seen) (current_text v').
Proof.
  induction lines as [|line rest IH]; intros seen self v self' v' D H;
    simpl in H.
  - inversion H; subst. exact D.
  - destruct (parse_line self v line) as [[self1 v1]|] eqn:E; [|discriminate].
    simpl in H. simpl. eapply IH; [|exact H].
    eapply parse_line_drawn; eassumption.
Qed.

Lemma emitted_spec (self : extractor) (v : locals) (line text : pystr) :
  emitted v line = Some text ->
  text = concat (current_text v) /\ current_text v <> []
  /\ parse_line self v line = end_of_page self v.
Proof.
  unfold emitted, parse_line. intros H.
  destruct (contains (u "<page>") line); [discriminate|].
  destruct (contains (u "</page>") line && in_page v); [|discriminate].
  destruct (current_text v); [discriminate|].
  inversion H. repeat split. discriminate.
Qed.

End ParseFacts.

(* ================================================================== *)
(** * The deduplicator *)
(* ================================================================== *)

Local Open Scope string_scope.
Local Open Scope list_scope.

(** C1.  The parse phase, unless the dump is not UTF-8 text, leaves a
    spool whose lines are tokens.  For every such spool file [save_words]
    writes an output file whose lines are exactly the distinct lines of
    the spool, each once, strictly ascending in byte order, none of them
    blank, whichever of its two sort paths runs; so is every output file
    of the pipeline.  A spool with the lines anh, anh, em, anh gives the
    output anh, em. *)
Theorem save_words_sorted_distinct :
  (forall (self : extractor) (dump : bytes),
      (exists self', parse_dump self dump = Ok self' /\ spool_ok self')
      \/ parse_dump self dump = Raise UnicodeDecodeError)
  /\ (forall (self : extractor) (spool : list bytes) (sort_u_ok sort_ok : bool),
         temp_file self = Some spool ->
         Forall token_line spool ->
         sort_u_ok = true \/ sort_ok = true ->
         exists out,
           save_words sort_u_ok sort_ok self = Saved out
           /\ StronglySorted bytes_lt out
           /\ NoDup out
           /\ (forall l, In l out <-> In l spool)
           /\ ~ In [] out)
  /\ (forall (sort_u_ok sort_ok : bool) (dump : bytes) (out : list bytes),
         main sort_u_ok sort_ok dump = Saved out ->
         StronglySorted bytes_lt out /\ NoDup out /\ ~ In [] out)
  /\ (forall (total : Z) (sort_ok : bool),
         save_words true sort_ok
                    (mkExtractor (Some (map bytes_of ["anh"; "anh"; "em"; "anh"]))
                                 total)
         = Saved (map bytes_of ["anh"; "em"]))
  /\ (forall total : Z,
         save_words false true
                    (mkExtractor (Some (map bytes_of ["anh"; "anh"; "em"; "anh"]))
                                 total)
         = Saved (map bytes_of ["anh"; "em"])).
Proof.
  split.
  { intros self dump.
    destruct (ParseFacts.parse_dump_total self dump) as [(self' & P)|[_ P]];
      [left|now right].
    exists self'. split; [exact P|].
    eapply ParseFacts.parse_dump_spool. exact P. }
  assert (G : forall (self : extractor) (spool : list bytes)
                     (sort_u_ok sort_ok : bool),
             temp_file self = Some spool ->
             Forall token_line spool ->
             sort_u_ok = true \/ sort_ok = true ->
             exists out,
               save_words sort_u_ok sort_ok self = Saved out
               /\ StronglySorted bytes_lt out
               /\ NoDup out
               /\ (forall l, In l out <-> In l spool)
               /\ ~ In [] out);
    [|split; [exact G|split; [|split; intros; reflexivity]]].
  2: { intros sort_u_ok sort_ok dump out H. unfold main in H.
       destruct (parse_dump (mkExtractor None 0) dump) as [self|] eqn:P;
         [|discriminate].
       apply ParseFacts.parse_dump_spool in P. unfold spool_ok in P.
       destruct (temp_file self) as [spool|] eqn:E;
         [|unfold save_words in H; rewrite E in H; discriminate].
       assert (O : sort_u_ok = true \/ sort_ok = true).
       { destruct sort_u_ok; [now left|]. destruct sort_ok; [now right|].
         unfold save_words in H. rewrite E in H. discriminate. }
       destruct (G self spool sort_u_ok sort_ok E P O)
         as (out' & S & R1 & R2 & _ & R3).
       rewrite S in H. inversion H; subst. auto. }
  intros self spool sort_u_ok sort_ok E T [-> | ->].
  - exists (sort_u spool). unfold save_words. rewrite E.
    rewrite (SpoolFacts.save_primary_tokens spool T).
    destruct (SortFacts.sort_u_spec spool) as (S & N & I).
    repeat split; try assumption; try apply I.
    intros B. apply I in B. rewrite Forall_forall in T.
    now apply (SpoolFacts.token_line_not_blank [] (T [] B)).
  - exists (sort_u spool). unfold save_words. rewrite E.
    rewrite (SpoolFacts.save_primary_tokens spool T).
    rewrite (SpoolFacts.save_fallback_tokens spool T).
    destruct (SortFacts.sort_u_spec spool) as (S & N & I).
    split; [destruct sort_u_ok; reflexivity|].
    repeat split; try assumption; try apply I.
    intros B. apply I in B. rewrite Forall_forall in T.
    now apply (SpoolFacts.token_line_not_blank [] (T [] B)).
Qed.

Lemma save_words_sorted_distinct_witness :
  let spool := map bytes_of ["anh"; "anh"; "em"; "anh"] in
  let self := mkExtractor (Some spool) 4 in
  temp_file self = Some spool
  /\ Forall token_line spool
  /\ exists out,
      save_words false true self = Saved out
      /\ StronglySorted bytes_lt out
      /\ NoDup out
      /\ (forall l, In l out <-> In l spool)
      /\ ~ In [] out.
Proof.
  assert (T : Forall token_line (map bytes_of ["anh"; "anh"; "em"; "anh"])).
  { repeat constructor;
      [exists (u "anh")|exists (u "anh")|exists (u "em")|exists (u "anh")];
      split; reflexivity. }
  split; [reflexivity|]. split; [exact T|].
  apply (proj1 (proj2 save_words_sorted_distinct)
               (mkExtractor (Some (map bytes_of ["anh"; "anh"; "em"; "anh"])) 4)
               (map bytes_of ["anh"; "anh"; "em"; "anh"]) false true).
  - reflexivity.
  - exact T.
  - right. reflexivity.
Defined.

(** C4.  On the same spool file (its lines are tokens) the path through
    [sort -u] and the path through [sort] and the streaming pass leave
    the same output file, byte for byte; so the whole pipeline gives the
    same result on either path, whatever the dump. *)
Theorem fallback_matches_sort_u :
  (forall (self : extractor) (spool : list bytes) (sort_ok : bool),
      temp_file self = Some spool ->
      Forall token_line spool ->
      exists out,
        save_words true sort_ok self = Saved out
        /\ save_words false true self = Saved out)
  /\ (forall (sort_ok : bool) (dump : bytes),
         main true sort_ok dump = main false true dump).
Proof.
  assert (G : forall (self : extractor) (spool : list bytes) (sort_ok : bool),
             temp_file self = Some spool ->
             Forall token_line spool ->
             exists out,
               save_words true sort_ok self = Saved out
               /\ save_words false true self = Saved out).
  { intros self spool sort_ok E T. exists (sort_u spool).
    unfold save_words. rewrite E.
    rewrite (SpoolFacts.save_primary_tokens spool T).
    rewrite (SpoolFacts.save_fallback_tokens spool T). auto. }
  split; [exact G|].
  intros sort_ok dump. unfold main.
  destruct (parse_dump (mkExtractor None 0) dump) as [self|] eqn:P;
    [|reflexivity].
  apply ParseFacts.parse_dump_spool in P. unfold spool_ok in P.
  destruct (temp_file self) as [spool|] eqn:E.
  - destruct (G self spool sort_ok E P) as (out & -> & ->). reflexivity.
  - unfold save_words. rewrite E. reflexivity.
Qed.

Lemma fallback_matches_sort_u_witness :
  let spool := map bytes_of ["xin"; "chào"; "anh"; "xin"; "ấy"; "chào"] in
  let self := mkExtractor (Some spool) 6 in
  temp_file self = Some spool
  /\ Forall token_line spool
  /\ exists out,
      save_words true false self = Saved out
      /\ save_words false true self = Saved out.
Proof.
  assert (T : Forall token_line
                     (map bytes_of ["xin"; "chào"; "anh"; "xin"; "ấy"; "chào"])).
  { repeat constructor;
      [exists (u "xin")|exists (u "chào")|exists (u "anh")
       |exists (u "xin")|exists (u "ấy")|exists (u "chào")];
      split; reflexivity. }
  split; [reflexivity|]. split; [exact T|].
  apply (proj1 fallback_matches_sort_u
           (mkExtractor
              (Some (map bytes_of ["xin"; "chào"; "anh"; "xin"; "ấy"; "chào"])) 6)
           (map bytes_of ["xin"; "chào"; "anh"; "xin"; "ấy"; "chào"]) false).
  - reflexivity.
  - exact T.
Defined.

(** Outside that domain the two paths part: the streaming pass strips
    each line and drops blank ones, [sort -u] does neither. *)
Remark paths_differ_off_tokens :
  save_words true true (mkExtractor (Some (map bytes_of [" a"; "a"])) 0)
  = Saved (map bytes_of [" a"; "a"])
  /\ save_words false true (mkExtractor (Some (map bytes_of [" a"; "a"])) 0)
     = Saved (map bytes_of ["a"]).
Proof. split; reflexivity. Qed.

(* ================================================================== *)
(** * The extractor: tokens and the gate *)
(* ================================================================== *)

(** C5.  Whatever the text, [extract_words] returns tokens: each has at
    least two characters, and each character is a lowercase letter of the
    word pattern ([a-z] or a listed letter with diacritics): it is its own
    lowercase form, it is not whitespace and not a digit. *)
Theorem extract_words_tokens :
  forall text : pystr,
  exists words,
    extract_words text = Ok words
    /\ forall w, In w words ->
         (2 <= length w)%nat
         /\ forall c, In c w ->
              (97 <= c <= 122 \/ In c vietnamese_chars)
              /\ word_char c = true
              /\ lower_cp c = [c]
              /\ is_space c = false
              /\ ~ (48 <= c <= 57).
Proof.
  intros text.
  destruct (extract_words_tokens_only text) as (words & E & _ & T).
  exists words. split; [exact E|].
  intros w Hw. rewrite Forall_forall in T. specialize (T w Hw).
  apply is_token_spec in T. destruct T as [L C]. split; [exact L|].
  intros c Hc. specialize (C c Hc). split; [|now apply token_char_facts].
  unfold token_char in C. apply orb_true_iff in C.
  destruct C as [C|C]; [left|right; now apply mem_In].
  apply andb_true_iff in C. destruct C as [C1 C2].
  apply Z.leb_le in C1. apply Z.leb_le in C2. lia.
Qed.

(** C6, as the code has it.  The gate looks at the lowercased span: a
    span of the stripped text whose lowercase form has no character of
    the diacritic alphabet adds nothing to the set [extract_words]
    returns. *)
Theorem span_without_diacritic_dropped :
  forall (text stripped span : pystr) (acc : list pystr),
    strip_markup text = Ok stripped ->
    In span (split sentence_pattern stripped) ->
    forallb (fun c => negb (mem c vietnamese_chars)) (lower span) = true ->
    add_sentence acc span = acc
    /\ extract_words text
       = Ok (fold_left add_sentence (split sentence_pattern stripped) []).
Proof.
  intros text stripped span acc S _ G. split.
  - unfold add_sentence, has_vietnamese_diacritic.
    destruct (existsb _ (lower span)) eqn:E; [|reflexivity].
    apply existsb_exists in E. destruct E as (c & I & M).
    rewrite forallb_forall in G. specialize (G c I). rewrite M in G.
    discriminate.
  - unfold extract_words. rewrite S. reflexivity.
Qed.

Lemma span_without_diacritic_dropped_witness :
  let text := u "Hello world. Xin chào" in
  strip_markup text = Ok text
  /\ In (u "Hello world") (split sentence_pattern text)
  /\ forallb (fun c => negb (mem c vietnamese_chars)) (lower (u "Hello world"))
     = true
  /\ add_sentence [u "anh"] (u "Hello world") = [u "anh"]
  /\ extract_words text
     = Ok (fold_left add_sentence (split sentence_pattern text) []).
Proof.
  split; [reflexivity|]. split; [left; reflexivity|]. split; [reflexivity|].
  apply (span_without_diacritic_dropped
           (u "Hello world. Xin chào") (u "Hello world. Xin chào")
           (u "Hello world") [u "anh"]).
  - reflexivity.
  - left. reflexivity.
  - reflexivity.
Defined.

(** C6 as worded fails: the span below holds no character of the
    diacritic alphabet (its only letter with a diacritic is a capital), it
    passes the gate all the same and gives a token. *)
Lemma gate_uppercase_counterexample :
  let span := u "ĐA" in
  forallb (fun c => negb (mem c vietnamese_chars)) span = true
  /\ split sentence_pattern span = [span]
  /\ add_sentence [] span = [u "đa"]
  /\ extract_words span = Ok [u "đa"].
Proof. repeat split; reflexivity. Qed.

(** C7, evaluated.  The last substitution receives [re.IGNORECASE] as its
    [count]: the keywords match in their written case only, and two
    replacements at most are made.  (A category link written plainly
    does not reach that substitution: the second one has unwrapped it.) *)
Theorem category_pass_ignores_flag :
  sub category_re [] (u "[[category:Ảo thuật]]") IGNORECASE
  = Ok (u "[[category:Ảo thuật]]")
  /\ sub category_re [] (u "[[Category:Ảo thuật]]") IGNORECASE = Ok []
  /\ sub category_re [] (u "[[File:a]][[File:b]][[File:c]]") IGNORECASE
     = Ok (u "[[File:c]]")
  /\ extract_words (u "[<b>[category:Ảo thuật]]")
     = Ok [u "category"; u "thuật"]
  /\ extract_words (u "[<b>[Category:Ảo thuật]]") = Ok []
  /\ extract_words (u "[[Category:Ảo thuật]]")
     = Ok [u "category"; u "thuật"].
Proof. repeat split; reflexivity. Qed.

(** C8.  [extract_words] returns a set for every text and raises
    nothing; for the empty text the set is empty. *)
Theorem extract_words_total :
  (forall text : pystr,
      exists words, extract_words text = Ok words /\ NoDup words)
  /\ extract_words [] = Ok [].
Proof.
  split; [|reflexivity]. intros text.
  destruct (extract_words_tokens_only text) as (words & E & N & _).
  exists words. auto.
Qed.

(** C9.  The gate tests the lowercased span: a span qualifies exactly
    when its lowercase form has a character of the diacritic alphabet.
    A capital with a diacritic is not in the alphabet, yet a span with no
    other diacritic qualifies and gives tokens. *)
Theorem gate_case_insensitive :
  (forall span : pystr,
      has_vietnamese_diacritic span = true
      <-> exists c, In c (lower span) /\ In c vietnamese_chars)
  /\ ~ In 192 vietnamese_chars
  /\ u "À" = [192]
  /\ has_vietnamese_diacritic (u "À") = true
  /\ extract_words (u "À la") = Ok [u "la"].
Proof.
  split; [exact gate_spec|].
  split; [|repeat split; reflexivity].
  intros H. apply mem_In in H. discriminate H.
Qed.

(* ================================================================== *)
(** * The page-boundary state machine *)
(* ================================================================== *)

Module StartFacts.
Import ParseFacts.

(** [lines_since_start] is what its name says. *)
Lemma lines_since_start_split (prefix : list pystr) :
  (Forall no_start prefix /\ lines_since_start prefix = prefix)
  \/ exists before start after,
      prefix = before ++ start :: after
      /\ is_start start
      /\ Forall no_start after
      /\ lines_since_start prefix = after.
Proof.
  unfold lines_since_start.
  induction prefix as [|line prefix IH] using rev_ind.
  - left. split; [constructor|reflexivity].
  - rewrite fold_left_app. cbn [fold_left].
    remember (fold_left since_start prefix []) as acc eqn:A.
    unfold since_start.
    destruct (contains (u "<page>") line) eqn:E.
    + right. exists prefix, line, []. repeat split; auto.
    + destruct IH as [[F ->]|(before & start & after & -> & S & F & ->)].
      * left. split; [|reflexivity]. apply Forall_app. split; [exact F|].
        constructor; [exact E|constructor].
      * right. exists before, start, (after ++ [line]).
        rewrite <- app_assoc. repeat split; auto.
        apply Forall_app. split; [exact F|]. constructor; [exact E|constructor].
Qed.

Lemma inside_page_in_page (v v' : locals) (line : pystr) :
  inside_page v line = Ok v' -> in_page v' = in_page v.
Proof.
  unfold inside_page. intros H.
  destruct (contains (u "<text") line).
  - destruct (Re.search text_open_re line) as [g|].
    + destruct (Re.group1 text_open_re g); [|discriminate].
      inversion H; reflexivity.
    + inversion H; reflexivity.
  - destruct (contains (u "</text>") line).
    + destruct (Re.search text_close_re line) as [g|].
      * destruct (Re.group1 text_close_re g); [|discriminate].
        inversion H; reflexivity.
      * inversion H; reflexivity.
    + destruct (in_text v); [|inversion H; reflexivity].
      simpl in H.
      destruct (text_lines v + 1 >? max_text_lines); inversion H; reflexivity.
Qed.

(** The parser is inside a record only after a record-start marker. *)
Lemma parse_line_in_page (self self' : extractor) (v v' : locals) (line : pystr) :
  parse_line self v line = Ok (self', v') ->
  in_page v' = true -> in_page v = true \/ is_start line.
Proof.
  unfold parse_line, is_start. intros H P.
  destruct (contains (u "<page>") line); [now right|].
  destruct (contains (u "</page>") line && in_page v) eqn:E.
  - apply andb_true_iff in E. now left.
  - destruct (in_page v) eqn:K; [now left|].
    inversion H; subst. congruence.
Qed.

Lemma parse_lines_in_page (lines : list pystr) :
  forall self v self' v',
    parse_lines self v lines = Ok (self', v') ->
    in_page v' = true -> in_page v = true \/ Exists is_start lines.
Proof.
  induction lines as [|line rest IH]; intros self v self' v' H P; simpl in H.
  - inversion H; subst. now left.
  - destruct (parse_line self v line) as [[self1 v1]|] eqn:E; [|discriminate].
    simpl in H. destruct (IH _ _ _ _ H P) as [K|K].
    + destruct (parse_line_in_page _ _ _ _ _ E K) as [L|L];
        [now left|right; now constructor].
    + right. now constructor 2.
Qed.

End StartFacts.

(** C10.  A line with the record-start marker empties the accumulator and
    zeroes the line counter whatever the state before it; the text of
    every record handed to the extractor is made of pieces of lines read
    after the last record-start marker; and the run from a record-start
    marker on does not depend on the accumulator, the counter or the
    record flag left by what came before. *)
Theorem page_start_resets_buffer :
  (forall (self : extractor) (v : locals) (line : pystr),
      contains (u "<page>") line = true ->
      exists v',
        parse_line self v line = Ok (self, v')
        /\ current_text v' = [] /\ text_lines v' = 0 /\ in_page v' = true)
  /\ (forall (self self' : extractor) (v' : locals)
             (prefix : list pystr) (line text : pystr),
         parse_lines self initial_locals prefix = Ok (self', v') ->
         emitted v' line = Some text ->
         exists before start after,
           prefix = before ++ start :: after
           /\ contains (u "<page>") start = true
           /\ Forall (fun l => contains (u "<page>") l = false) after
           /\ text = concat (current_text v')
           /\ drawn_from after (current_text v'))
  /\ (forall (self : extractor) (v : locals) (line : pystr)
             (rest : list pystr) (ip : bool) (ct : list pystr) (n : Z),
         contains (u "<page>") line = true ->
         parse_lines self
                     (mkLocals ip (in_text v) ct n
                               (articles_processed v) (articles_matched v))
                     (line :: rest)
         = parse_lines self v (line :: rest)).
Proof.
  split; [|split].
  - intros self v line H. eexists. split.
    + apply ParseFacts.parse_line_start. exact H.
    + auto.
  - intros self self' v' prefix line text R E.
    destruct (ParseFacts.emitted_spec self' v' line text E) as (-> & _ & _).
    assert (P : in_page v' = true).
    { unfold emitted in E. destruct (contains (u "<page>") line); [discriminate|].
      destruct (contains (u "</page>") line && in_page v') eqn:K; [|discriminate].
      apply andb_true_iff in K. apply K. }
    pose proof (ParseFacts.parse_lines_drawn prefix [] self initial_locals
                  self' v' (Forall_nil _) R) as D.
    destruct (StartFacts.lines_since_start_split prefix)
      as [[F _]|(before & start & after & -> & S & F & L)].
    + destruct (StartFacts.parse_lines_in_page prefix _ _ _ _ R P) as [K|K];
        [discriminate K|].
      apply Exists_exists in K. destruct K as (l & I & K).
      rewrite Forall_forall in F. specialize (F l I).
      unfold is_start, no_start in *. congruence.
    + exists before, start, after. unfold lines_since_start in L.
      rewrite L in D. auto.
  - intros. now apply ParseFacts.parse_lines_start.
Qed.

Lemma page_start_resets_buffer_witness :
  let dirty := mkLocals true true [u "text of an earlier record"] 7 3 2 in
  let line := u "  <page>" ++ [10] in
  contains (u "<page>") line = true
  /\ exists v',
      parse_line (mkExtractor None 0) dirty line = Ok (mkExtractor None 0, v')
      /\ current_text v' = [] /\ text_lines v' = 0 /\ in_page v' = true.
Proof.
  split; [reflexivity|].
  apply (proj1 page_start_resets_buffer (mkExtractor None 0)
               (mkLocals true true [u "text of an earlier record"] 7 3 2)
               (u "  <page>" ++ [10])).
  reflexivity.
Defined.

(** C3, with the markers one to a line.  The record text splits into the
    spans [Xin chào] and [Hello world]; the first passes the gate and
    gives the tokens xin and chào, the second does not and gives none;
    the output file is chào, xin. *)
Theorem scenario_a_line_per_marker :
  let dump :=
      file_of ["<page>"; "<text>Xin chào. Hello world.</text>"; "</page>"] in
  let record := u "Xin chào. Hello world.</text>" ++ [10] in
  (exists self v,
      parse_lines (mkExtractor None 0) initial_locals
                  [u "<page>" ++ [10];
                   u "<text>Xin chào. Hello world.</text>" ++ [10]]
      = Ok (self, v)
      /\ emitted v (u "</page>" ++ [10]) = Some record)
  /\ strip_markup record = Ok (u "Xin chào. Hello world." ++ [10])
  /\ split sentence_pattern (u "Xin chào. Hello world." ++ [10])
     = [u "Xin chào"; u "Hello world"; []]
  /\ has_vietnamese_diacritic (u "Xin chào") = true
  /\ add_sentence [] (u "Xin chào") = [u "xin"; u "chào"]
  /\ has_vietnamese_diacritic (u "Hello world") = false
  /\ add_sentence [u "xin"; u "chào"] (u "Hello world") = [u "xin"; u "chào"]
  /\ extract_words record = Ok [u "xin"; u "chào"]
  /\ main true true dump = Saved (map bytes_of ["chào"; "xin"])
  /\ main false true dump = Saved (map bytes_of ["chào"; "xin"]).
Proof.
  split; [do 2 eexists; split; reflexivity|].
  repeat split; reflexivity.
Qed.

(** C3 as worded fails: the stream is one line, the line carries the
    record-start marker, and a line that does is used for nothing else.
    No record is handed to the extractor, no spool file is made and
    [save_words] leaves no output file. *)
Lemma scenario_a_single_line_counterexample :
  let dump := bytes_of "<page><text>Xin chào. Hello world.</text></page>" in
  parse_dump (mkExtractor None 0) dump = Ok (mkExtractor None 0)
  /\ main true true dump = NoTempFile
  /\ main false true dump = NoTempFile.
Proof. repeat split; reflexivity. Qed.

Lemma plain_line_spec (line : pystr) :
  plain_line line = true ->
  contains (u "<page>") line = false /\ contains (u "</page>") line = false
  /\ contains (u "<text") line = false /\ contains (u "</text>") line = false.
Proof.
  unfold plain_line. intros H.
  repeat (apply andb_true_iff in H; destruct H as [H ?]).
  repeat split; now apply negb_true_iff.
Qed.

(** C2, as the code has it.  In the in-text state a line without markers
    is appended and counted; when that brings the counter above the cap
    the accumulator is emptied and the in-text flag dropped, nothing is
    handed to the extractor, the parser stays inside the record and the
    counter keeps its value.  A record whose start marker is read with
    the in-text flag down is parsed as from the idle state.  A record with
    a text field of more lines than the cap, closed by its markers, gives
    no token, and the record after it gives its own. *)
Theorem cap_abandons_text :
  (forall (self : extractor) (v : locals) (line : pystr),
      in_page v = true -> in_text v = true -> plain_line line = true ->
      parse_line self v line
      = Ok (self,
            if text_lines v + 1 >? max_text_lines
            then mkLocals true false [] (text_lines v + 1)
                          (articles_processed v) (articles_matched v)
            else mkLocals true true (current_text v ++ [line])
                          (text_lines v + 1)
                          (articles_processed v) (articles_matched v)))
  /\ (forall (self : extractor) (v : locals) (line : pystr)
             (rest : list pystr),
         in_text v = false -> contains (u "<page>") line = true ->
         parse_lines self v (line :: rest)
         = parse_lines self (idle v) (line :: rest))
  /\ (let good := ["<page>"; "<text>Xin chào. Hello world.</text>"; "</page>"] in
      let long := "<page>" :: long_field ++ ["</text>"; "</page>"] in
      main true true (file_of long) = NoTempFile
      /\ main true true (file_of good) = Saved (map bytes_of ["chào"; "xin"])
      /\ main true true (file_of (long ++ good))
         = Saved (map bytes_of ["chào"; "xin"])).
Proof.
  split; [|split].
  - intros self v line P T L.
    destruct (plain_line_spec line L) as (L1 & L2 & L3 & L4).
    unfold parse_line. rewrite L1, L2, P. cbn [andb bind].
    unfold inside_page. rewrite L3, L4, T.
    destruct v as [ip it ct n ap am]. simpl in *. subst.
    destruct (n + 1 >? max_text_lines); reflexivity.
  - intros self v line rest T S.
    rewrite <- (ParseFacts.parse_lines_start self v line rest false [] 0 S).
    unfold idle. now rewrite T.
  - repeat split; vm_compute; reflexivity.
Qed.

Lemma cap_abandons_text_witness :
  let v := mkLocals true true [u "dòng chữ" ++ [10]] max_text_lines 5 4 in
  let line := u "thêm một dòng" ++ [10] in
  in_page v = true /\ in_text v = true /\ plain_line line = true
  /\ parse_line (mkExtractor None 0) v line
     = Ok (mkExtractor None 0,
           if text_lines v + 1 >? max_text_lines
           then mkLocals true false [] (text_lines v + 1)
                         (articles_processed v) (articles_matched v)
           else mkLocals true true (current_text v ++ [line])
                         (text_lines v + 1)
                         (articles_processed v) (articles_matched v)).
Proof.
  split; [reflexivity|]. split; [reflexivity|]. split; [reflexivity|].
  apply (proj1 cap_abandons_text (mkExtractor None 0)
               (mkLocals true true [u "dòng chữ" ++ [10]] max_text_lines 5 4)
               (u "thêm một dòng" ++ [10]));
    reflexivity.
Defined.

(** C2 as worded fails: after the line that exceeds the cap the parser is
    still inside the record and the counter stands at 10001; and the
    text that shares the line of the field-end marker is accumulated
    anew, so the record gives tokens. *)
Lemma cap_abandon_counterexample :
  (exists self v,
      parse_lines (mkExtractor None 0) initial_locals
                  (map (fun l => u l ++ [10]) ("<page>" :: long_field))
      = Ok (self, v)
      /\ in_page v = true /\ in_text v = false
      /\ current_text v = [] /\ text_lines v = 10001)
  /\ main true true
          (file_of ("<page>" :: long_field ++ ["Xin chào</text>"; "</page>"]))
     = Saved (map bytes_of ["chào"; "xin"]).
Proof.
  split.
  - do 2 eexists. split; [vm_compute; reflexivity|]. repeat split.
  - vm_compute. reflexivity.
Qed.

(* ================================================================== *)
(** * The spool and the counters along the parse loop *)
(* ================================================================== *)

Module GrowFacts.
Import ParseFacts.

Lemma grows_refl (self : extractor) (v : locals) : grows self self v v.
Proof.
  exists []. rewrite app_nil_r. simpl.
  repeat split; try constructor; try lia; tauto.
Qed.

Lemma grows_trans (s0 s1 s2 : extractor) (v0 v1 v2 : locals) :
  grows s0 s1 v0 v1 -> grows s1 s2 v1 v2 -> grows s0 s2 v0 v2.
Proof.
  intros (a1 & L1 & T1 & W1 & M1 & N1 & Z1 & F1)
         (a2 & L2 & T2 & W2 & M2 & N2 & Z2 & F2).
  exists (a1 ++ a2). rewrite length_app, Nat2Z.inj_add.
  split; [rewrite L2, L1; now rewrite app_assoc|].
  split; [apply Forall_app; auto|].
  split; [lia|]. split; [lia|]. split; [lia|].
  split.
  - intros E. apply app_eq_nil in E. destruct E as [-> ->].
    rewrite Z2, Z1; reflexivity.
  - rewrite F2, F1. split.
    + intros [[H1 H2] H3]. split; [assumption|congruence].
    + intros [H1 H2]. assert (articles_matched v1 = articles_matched v0) by lia.
      repeat split; try assumption. lia.
Qed.

Lemma grows_same (self : extractor) (v v' : locals) :
  same_counters v v' -> grows self self v v'.
Proof.
  intros [P M]. exists []. rewrite app_nil_r. simpl.
  repeat split; try constructor; try lia; tauto.
Qed.

Lemma write_words_grows (self self' : extractor) (words : list pystr) :
  Forall (fun w => is_token w = true) words ->
  write_words_to_file self words = Ok self' ->
  exists added,
    length added = length words
    /\ Forall token_line added
    /\ spool_lines self' = spool_lines self ++ added
    /\ temp_file self' <> None
    /\ total_words_written self'
       = total_words_written self + Z.of_nat (length added).
Proof.
  intros T H. unfold write_words_to_file in H.
  destruct (encode_words words) as [new_lines|] eqn:E; [|discriminate].
  inversion H; subst. clear H. exists new_lines.
  assert (L : length new_lines = length words).
  { clear T. revert new_lines E. induction words as [|w ws IH]; intros n E;
      simpl in E.
    - inversion E. reflexivity.
    - destruct (Utf8.encode w); [|discriminate].
      destruct (encode_words ws) as [bs|]; [|discriminate].
      inversion E; subst. simpl. f_equal. now apply IH. }
  split; [exact L|]. split; [eapply encode_words_lines; eassumption|].
  unfold spool_lines. simpl. rewrite L.
  destruct (temp_file self); repeat split; try reflexivity; discriminate.
Qed.

Lemma end_of_page_grows (self self' : extractor) (v v' : locals) :
  end_of_page self v = Ok (self', v') -> grows self self' v v'.
Proof.
  intros H.
  destruct (end_of_page_cases self v) as [[_ E]|(_ & words & _ & [_ T] & E)];
    rewrite E in H.
  - inversion H; subst. apply grows_same. split; reflexivity.
  - destruct words as [|w ws].
    + inversion H; subst. exists []. rewrite app_nil_r. simpl.
      repeat split; try constructor; try lia; tauto.
    + destruct (write_words_to_file self (w :: ws)) as [self1|] eqn:W;
        [|discriminate].
      inversion H; subst. clear H.
      destruct (write_words_grows self self' (w :: ws) T W)
        as (added & L & TL & A & N & C).
      exists added. simpl in L. simpl.
      split; [exact A|]. split; [exact TL|]. split; [exact C|].
      split; [lia|]. split; [lia|]. split.
      * intros ->. simpl in L. discriminate.
      * split; [intros K; contradiction|intros [_ K]; lia].
Qed.

Lemma inside_page_counters (v v' : locals) (line : pystr) :
  inside_page v line = Ok v' -> same_counters v v'.
Proof.
  unfold inside_page, same_counters. intros H.
  destruct (contains (u "<text") line).
  - destruct (Re.search text_open_re line) as [g|].
    + destruct (Re.group1 text_open_re g); [|discriminate].
      inversion H; subst. auto.
    + inversion H; subst. auto.
  - destruct (contains (u "</text>") line).
    + destruct (Re.search text_close_re line) as [g|].
      * destruct (Re.group1 text_close_re g); [|discriminate].
        inversion H; subst. auto.
      * inversion H; subst. auto.
    + destruct (in_text v); [|inversion H; subst; auto].
      simpl in H.
      destruct (text_lines v + 1 >? max_text_lines); inversion H; subst; auto.
Qed.

Lemma parse_line_grows (self self' : extractor) (v v' : locals) (line : pystr) :
  parse_line self v line = Ok (self', v') -> grows self self' v v'.
Proof.
  unfold parse_line. intros H.
  destruct (contains (u "<page>") line).
  - inversion H; subst. apply grows_same. split; reflexivity.
  - destruct (contains (u "</page>") line && in_page v);
      [now apply end_of_page_grows|].
    destruct (in_page v); [|inversion H; subst; apply grows_refl].
    destruct (inside_page v line) as [v1|] eqn:E; [|discriminate].
    inversion H; subst. apply grows_same. eapply inside_page_counters; eassumption.
Qed.

Lemma parse_lines_grows (lines : list pystr) :
  forall self v self' v',
    parse_lines self v lines = Ok (self', v') -> grows self self' v v'.
Proof.
  induction lines as [|line rest IH]; intros self v self' v' H; simpl in H.
  - inversion H; subst. apply grows_refl.
  - destruct (parse_line self v line) as [[self1 v1]|] eqn:E; [|discriminate].
    simpl in H. eapply grows_trans; [eapply parse_line_grows; eassumption|].
    now apply IH.
Qed.

Lemma main_cases :
  forall (sort_u_ok sort_ok : bool) (dump : bytes),
    (Utf8.decode dump = None
     /\ main sort_u_ok sort_ok dump = Failed UnicodeDecodeError)
    \/ exists self,
        parse_dump (mkExtractor None 0) dump = Ok self
        /\ total_words_written self = Z.of_nat (length (spool_lines self))
        /\ match temp_file self with
           | None => main sort_u_ok sort_ok dump = NoTempFile
           | Some spool =>
             spool <> []
             /\ if sort_u_ok || sort_ok
                then main sort_u_ok sort_ok dump = Saved (sort_u spool)
                     /\ sort_u spool <> []
                else main sort_u_ok sort_ok dump = Failed CalledProcessError
           end.
Proof.
  intros sort_u_ok sort_ok dump. unfold main.
  destruct (parse_dump_total (mkExtractor None 0) dump)
    as [(self & P)|[D P]]; [right|left; rewrite P; auto].
  exists self. split; [exact P|]. rewrite P.
  pose proof (parse_dump_spool _ _ _ P) as S.
  unfold parse_dump, parse_dump_regex in P.
  destruct (Utf8.decode dump) as [text|]; [|discriminate].
  destruct (parse_lines _ initial_locals (readlines text)) as [[s v]|] eqn:R;
    [|discriminate].
  simpl in P. inversion P; subst s. clear P.
  destruct (parse_lines_grows _ _ _ _ _ R)
    as (added & A & T & W & M & N & Z & F).
  simpl in A, W. split; [rewrite A; simpl; lia|].
  unfold spool_ok in S. unfold save_words.
  destruct (temp_file self) as [spool|] eqn:E; [|reflexivity].
  assert (NE : spool <> []).
  { unfold spool_lines in A. rewrite E in A. subst added. intros ->.
    specialize (Z eq_refl).
    assert (@None (list bytes) = None /\ articles_matched v = articles_matched initial_locals)
      by (split; [reflexivity|exact Z]).
    apply F in H. discriminate. }
  split; [exact NE|].
  destruct sort_u_ok; simpl.
  - rewrite (SpoolFacts.save_primary_tokens spool S). split; [reflexivity|].
    intros K. destruct spool as [|l ls]; [congruence|].
    assert (I : In l (sort_u (l :: ls)))
      by (apply SortFacts.sort_u_spec; now left).
    rewrite K in I. exact I.
  - destruct sort_ok.
    + rewrite (SpoolFacts.save_fallback_tokens spool S). split; [reflexivity|].
      intros K. destruct spool as [|l ls]; [congruence|].
      assert (I : In l (sort_u (l :: ls)))
        by (apply SortFacts.sort_u_spec; now left).
      rewrite K in I. exact I.
    + reflexivity.
Qed.

End GrowFacts.

(** X1.  Along any stretch of the stream the parse loop only appends to the
    spool: the lines it had stay where they are, the added lines are
    tokens, and [total_words_written] grows by their number. *)
Theorem spool_append_only :
  forall (lines : list pystr) (self : extractor) (v : locals),
  exists self' v' added,
    parse_lines self v lines = Ok (self', v')
    /\ spool_lines self' = spool_lines self ++ added
    /\ Forall token_line added
    /\ total_words_written self'
       = total_words_written self + Z.of_nat (length added).
Proof.
  intros lines self v.
  destruct (ParseFacts.parse_lines_total lines self v) as ([self' v'] & H).
  destruct (GrowFacts.parse_lines_grows lines self v self' v' H)
    as (added & A & T & W & _).
  exists self', v', added. auto.
Qed.

(** X2.  The article counters along any stretch of the stream: an article is
    matched only if it is processed, every matched article adds at least
    one line to the spool, and when there was no spool file there is one
    afterwards exactly when an article was matched. *)
Theorem article_counters :
  forall (lines : list pystr) (self : extractor) (v : locals),
  exists self' v',
    parse_lines self v lines = Ok (self', v')
    /\ 0 <= articles_matched v' - articles_matched v
       <= articles_processed v' - articles_processed v
    /\ articles_matched v' - articles_matched v
       <= total_words_written self' - total_words_written self
    /\ (temp_file self = None ->
        (temp_file self' = None <-> articles_matched v' = articles_matched v)).
Proof.
  intros lines self v.
  destruct (ParseFacts.parse_lines_total lines self v) as ([self' v'] & H).
  destruct (GrowFacts.parse_lines_grows lines self v self' v' H)
    as (added & A & T & W & M & N & Z & F).
  exists self', v'. split; [exact H|]. split; [exact M|]. split; [lia|].
  intros E. rewrite F. tauto.
Qed.

(** X3.  What [main] can end with.  A dump that is not UTF-8 text raises
    [UnicodeDecodeError].  Otherwise the parse phase completes: with no
    token found there is no spool file and no output file; with a spool
    file, which then has at least one line and as many lines as
    [total_words_written] says, the output file is the sorted distinct
    lines of the spool, not empty, unless both calls of [sort] fail,
    which raises [CalledProcessError].  No other exception leaves
    [main]. *)
Theorem main_outcomes :
  forall (sort_u_ok sort_ok : bool) (dump : bytes),
    (Utf8.decode dump = None
     /\ main sort_u_ok sort_ok dump = Failed UnicodeDecodeError)
    \/ exists self,
        parse_dump (mkExtractor None 0) dump = Ok self
        /\ total_words_written self = Z.of_nat (length (spool_lines self))
        /\ match temp_file self with
           | None => main sort_u_ok sort_ok dump = NoTempFile
           | Some spool =>
             spool <> []
             /\ if sort_u_ok || sort_ok
                then main sort_u_ok sort_ok dump = Saved (sort_u spool)
                     /\ sort_u spool <> []
                else main sort_u_ok sort_ok dump = Failed CalledProcessError
           end.
Proof. exact GrowFacts.main_cases. Qed.

(* ================================================================== *)
(** * Readers of the spool and of the output file *)
(* ================================================================== *)

Module ReaderFacts.
Import SortFacts SpoolFacts.

Lemma strictly_sorted_le (lines : list bytes) :
  StronglySorted bytes_lt lines -> StronglySorted bytes_le lines.
Proof.
  induction 1 as [|a l S IH F]; constructor; [assumption|].
  eapply Forall_impl; [|exact F]. intros x [H _]. exact H.
Qed.

(** The output of [sort -u] is fixed by the set of the lines. *)
Lemma sort_u_members (a b : list bytes) :
  (forall l, In l a <-> In l b) -> sort_u a = sort_u b.
Proof.
  intros H.
  destruct (sort_u_spec a) as (Sa & Na & Ia).
  destruct (sort_u_spec b) as (Sb & Nb & Ib).
  apply sorted_perm_unique; try (apply strictly_sorted_le; assumption).
  apply NoDup_Permutation; try assumption.
  intros l. rewrite Ia, Ib. apply H.
Qed.

Lemma sort_u_sorted_input (lines : list bytes) :
  NoDup lines -> Permutation (sort_u lines) lines.
Proof.
  intros N. destruct (sort_u_spec lines) as (_ & Nu & I).
  apply NoDup_Permutation; assumption.
Qed.

Lemma add_unique_line (acc : list pystr) (w : pystr) :
  is_token w = true -> add_unique acc (w ++ [10]) = set_add w acc.
Proof.
  intros T. destruct (token_chars w T) as [N F].
  unfold add_unique. rewrite (strip_line w N F).
  destruct w; [congruence|reflexivity].
Qed.

Lemma fold_add_unique (ws : list pystr) :
  Forall (fun w => is_token w = true) ws ->
  forall acc,
    fold_left add_unique (map (fun w => w ++ [10]) ws) acc
    = fold_left (fun a w => set_add w a) ws acc.
Proof.
  induction 1 as [|w ws T _ IH]; intros acc; [reflexivity|].
  cbn [map fold_left]. rewrite (add_unique_line acc w T). apply IH.
Qed.

Lemma fold_set_add (ws : list pystr) :
  forall acc,
    NoDup acc ->
    NoDup (fold_left (fun a w => set_add w a) ws acc)
    /\ forall x, In x (fold_left (fun a w => set_add w a) ws acc)
                 <-> In x acc \/ In x ws.
Proof.
  induction ws as [|w ws IH]; intros acc N; simpl.
  - split; [assumption|]. tauto.
  - destruct (IH (set_add w acc) (set_add_NoDup w acc N)) as [N' I'].
    split; [exact N'|]. intros x. rewrite I', set_add_In. intuition.
Qed.

Lemma holds_words (ws : list pystr) (lines : list bytes) :
  Forall2 holds ws lines ->
  forall l, In l lines <-> exists w, In w ws /\ Utf8.encode w = Some l.
Proof.
  induction 1 as [|w l ws lines [T E] _ IH]; intros x; simpl.
  - split; [tauto|]. intros (w & [] & _).
  - rewrite IH. split.
    + intros [<-|(w' & I & E')]; [exists w; auto|exists w'; auto].
    + intros (w' & [<-|I] & E'); [left; congruence|right; eauto].
Qed.

(** The lines of a duplicate-free list of tokens. *)
Lemma encode_list (ws : list pystr) :
  Forall (fun w => is_token w = true) ws ->
  exists encs, Forall2 holds ws encs.
Proof.
  induction 1 as [|w ws T _ (encs & IH)]; [exists []; constructor|].
  destruct (token_encodes w T) as (l & E).
  exists (l :: encs). constructor; [split; assumption|assumption].
Qed.

Lemma holds_NoDup (ws : list pystr) (lines : list bytes) :
  Forall2 holds ws lines -> NoDup ws <-> NoDup lines.
Proof.
  induction 1 as [|w l ws lines [T E] F IH]; [split; constructor|].
  split; intros N; inversion N as [|? ? NI N']; subst; constructor;
    try (apply IH; assumption).
  - intros I. apply (holds_words ws lines F) in I.
    destruct I as (w' & I & E').
    assert (w' = w) by (eapply Utf8Facts.encode_injective; eassumption).
    subst. contradiction.
  - intros I. apply NI. apply (holds_words ws lines F). eauto.
Qed.

Lemma strip_lines (ws : list pystr) :
  Forall (fun w => is_token w = true) ws ->
  filter (fun w => match w with [] => false | _ :: _ => true end)
         (map strip (map (fun w => w ++ [10]) ws)) = ws.
Proof.
  induction 1 as [|w ws T _ IH]; [reflexivity|].
  destruct (token_chars w T) as [N F].
  cbn [map filter]. rewrite (strip_line w N F), IH.
  destruct w; [congruence|reflexivity].
Qed.

End ReaderFacts.

(** X4.  [get_unique_words] and [save_words] agree on the vocabulary.  On a
    spool of token lines [get_unique_words] returns each word of the
    spool once, and the output file of [save_words] is the sorted list of
    the UTF-8 lines of that set; with no spool file the set is empty. *)
Theorem get_unique_words_agrees :
  (forall self : extractor,
      temp_file self = None -> get_unique_words self = Ok [])
  /\ (forall (self : extractor) (spool : list bytes) (sort_ok : bool),
         temp_file self = Some spool ->
         Forall token_line spool ->
         exists words encs,
           get_unique_words self = Ok words
           /\ NoDup words
           /\ (forall l, In l spool
                         <-> exists w, In w words /\ Utf8.encode w = Some l)
           /\ Forall2 (fun w l => Utf8.encode w = Some l) words encs
           /\ save_words true sort_ok self = Saved (sort_lines encs)).
Proof.
  split.
  - intros self E. unfold get_unique_words. now rewrite E.
  - intros self spool sort_ok E T.
    destruct (SpoolFacts.token_line_holds spool T) as (ws & H).
    pose proof (SpoolFacts.holds_tokens ws spool H) as Tw.
    destruct (ReaderFacts.fold_set_add ws [] (NoDup_nil _)) as [N I].
    set (words := fold_left (fun a w => set_add w a) ws []) in *.
    assert (Twords : Forall (fun w => is_token w = true) words).
    { apply Forall_forall. intros w Hw. apply I in Hw.
      destruct Hw as [[]|Hw]. rewrite Forall_forall in Tw. auto. }
    destruct (ReaderFacts.encode_list words Twords) as (encs & He).
    assert (M : forall l, In l spool
                          <-> exists w, In w words /\ Utf8.encode w = Some l).
    { intros l. rewrite (ReaderFacts.holds_words ws spool H).
      split; intros (w & Hw & Ew); exists w; split; auto.
      - apply I. now right.
      - apply I in Hw. destruct Hw as [[]|Hw]. exact Hw. }
    exists words, encs.
    split.
    { unfold get_unique_words. rewrite E.
      rewrite (SpoolFacts.read_text_lines ws spool H). cbn [bind].
      now rewrite (ReaderFacts.fold_add_unique ws Tw). }
    split; [exact N|]. split; [exact M|].
    split.
    { clear -He. induction He as [|w l ws' ls [_ E] _ IH]; constructor; auto. }
    unfold save_words. rewrite E.
    rewrite (SpoolFacts.save_primary_tokens spool T). f_equal.
    apply SortFacts.sorted_perm_unique.
    + apply ReaderFacts.strictly_sorted_le. apply SortFacts.sort_u_spec.
    + apply SortFacts.sort_lines_sorted.
    + rewrite SortFacts.sort_lines_perm.
      apply NoDup_Permutation.
      * apply SortFacts.sort_u_spec.
      * apply (ReaderFacts.holds_NoDup words encs He). exact N.
      * intros l. rewrite (proj2 (proj2 (SortFacts.sort_u_spec spool)) l).
        rewrite M. symmetry. apply (ReaderFacts.holds_words words encs He).
Qed.

Lemma get_unique_words_agrees_witness :
  let spool := map bytes_of ["xin"; "chào"; "anh"; "xin"] in
  let self := mkExtractor (Some spool) 4 in
  temp_file self = Some spool
  /\ Forall token_line spool
  /\ exists words encs,
      get_unique_words self = Ok words
      /\ NoDup words
      /\ (forall l, In l spool
                    <-> exists w, In w words /\ Utf8.encode w = Some l)
      /\ Forall2 (fun w l => Utf8.encode w = Some l) words encs
      /\ save_words true false self = Saved (sort_lines encs).
Proof.
  assert (T : Forall token_line (map bytes_of ["xin"; "chào"; "anh"; "xin"])).
  { repeat constructor;
      [exists (u "xin")|exists (u "chào")|exists (u "anh")|exists (u "xin")];
      split; reflexivity. }
  split; [reflexivity|]. split; [exact T|].
  apply (proj2 get_unique_words_agrees
               (mkExtractor (Some (map bytes_of ["xin"; "chào"; "anh"; "xin"])) 4)
               (map bytes_of ["xin"; "chào"; "anh"; "xin"]) false).
  - reflexivity.
  - exact T.
Defined.

(** X5.  The output file reads back as written.  Whatever output file the
    pipeline leaves, [load_vietnamese_words] returns one word for each of
    its lines, in the order of the file: none is dropped or changed by the
    stripping, each is a token, and its UTF-8 bytes are the line. *)
Theorem output_loads_back :
  forall (sort_u_ok sort_ok : bool) (dump : bytes) (out : list bytes),
    main sort_u_ok sort_ok dump = Saved out ->
    exists words,
      load_vietnamese_words out = Ok words
      /\ Forall2 (fun w l => Utf8.encode w = Some l) words out
      /\ Forall (fun w => is_token w = true) words
      /\ NoDup words.
Proof.
  intros sort_u_ok sort_ok dump out H.
  destruct (GrowFacts.main_cases sort_u_ok sort_ok dump) as [[_ F]|(self & P & _ & M)];
    [congruence|].
  pose proof (ParseFacts.parse_dump_spool _ _ _ P) as S. unfold spool_ok in S.
  destruct (temp_file self) as [spool|]; [|congruence].
  destruct M as [_ M].
  destruct (sort_u_ok || sort_ok); [|congruence].
  destruct M as [M _]. rewrite M in H. inversion H; subst out. clear H M.
  assert (T : Forall token_line (sort_u spool)).
  { apply Forall_forall. intros l Hl.
    apply (proj2 (proj2 (SortFacts.sort_u_spec spool))) in Hl.
    rewrite Forall_forall in S. auto. }
  destruct (SpoolFacts.token_line_holds _ T) as (ws & Hw).
  pose proof (SpoolFacts.holds_tokens ws _ Hw) as Tw.
  exists ws. split.
  { unfold load_vietnamese_words.
    rewrite (SpoolFacts.read_text_lines ws _ Hw). cbn [bind].
    now rewrite (ReaderFacts.strip_lines ws Tw). }
  split.
  { clear -Hw. induction Hw as [|w l ws' ls [_ E] _ IH]; constructor; auto. }
  split; [exact Tw|].
  apply (ReaderFacts.holds_NoDup ws _ Hw). apply SortFacts.sort_u_spec.
Qed.

Lemma output_loads_back_witness :
  let dump :=
      file_of ["<page>"; "<text>Xin chào. Hello world.</text>"; "</page>"] in
  main true false dump = Saved (map bytes_of ["chào"; "xin"])
  /\ exists words,
      load_vietnamese_words (map bytes_of ["chào"; "xin"]) = Ok words
      /\ Forall2 (fun w l => Utf8.encode w = Some l) words
                 (map bytes_of ["chào"; "xin"])
      /\ Forall (fun w => is_token w = true) words
      /\ NoDup words.
Proof.
  split; [reflexivity|].
  apply (output_loads_back
           true false
           (file_of ["<page>"; "<text>Xin chào. Hello world.</text>"; "</page>"])
           (map bytes_of ["chào"; "xin"])).
  reflexivity.
Defined.

(** X6.  Only the set of the spool's lines matters to [save_words]: two
    spools of token lines with the same distinct lines, in whatever order
    and however often repeated, give the same result on the same path. *)
Theorem save_words_set_only :
  forall (self1 self2 : extractor) (spool1 spool2 : list bytes)
         (sort_u_ok sort_ok : bool),
    temp_file self1 = Some spool1 ->
    temp_file self2 = Some spool2 ->
    Forall token_line spool1 ->
    Forall token_line spool2 ->
    (forall l, In l spool1 <-> In l spool2) ->
    save_words sort_u_ok sort_ok self1 = save_words sort_u_ok sort_ok self2.
Proof.
  intros self1 self2 spool1 spool2 sort_u_ok sort_ok E1 E2 T1 T2 H.
  unfold save_words. rewrite E1, E2.
  rewrite !SpoolFacts.save_primary_tokens, !SpoolFacts.save_fallback_tokens
    by assumption.
  now rewrite (ReaderFacts.sort_u_members spool1 spool2 H).
Qed.

Lemma save_words_set_only_witness :
  let spool1 := map bytes_of ["xin"; "chào"; "xin"] in
  let spool2 := map bytes_of ["chào"; "chào"; "xin"; "chào"] in
  Forall token_line spool1
  /\ Forall token_line spool2
  /\ (forall l, In l spool1 <-> In l spool2)
  /\ save_words false true (mkExtractor (Some spool1) 3)
     = save_words false true (mkExtractor (Some spool2) 4).
Proof.
  assert (T1 : Forall token_line (map bytes_of ["xin"; "chào"; "xin"])).
  { repeat constructor; [exists (u "xin")|exists (u "chào")|exists (u "xin")];
      split; reflexivity. }
  assert (T2 : Forall token_line (map bytes_of ["chào"; "chào"; "xin"; "chào"])).
  { repeat constructor;
      [exists (u "chào")|exists (u "chào")|exists (u "xin")|exists (u "chào")];
      split; reflexivity. }
  assert (H : forall l, In l (map bytes_of ["xin"; "chào"; "xin"])
                        <-> In l (map bytes_of ["chào"; "chào"; "xin"; "chào"]))
    by (intros l; simpl; tauto).
  split; [exact T1|]. split; [exact T2|]. split; [exact H|].
  apply (save_words_set_only
           (mkExtractor (Some (map bytes_of ["xin"; "chào"; "xin"])) 3)
           (mkExtractor (Some (map bytes_of ["chào"; "chào"; "xin"; "chào"])) 4)
           (map bytes_of ["xin"; "chào"; "xin"])
           (map bytes_of ["chào"; "chào"; "xin"; "chào"]) false true).
  - reflexivity.
  - reflexivity.
  - exact T1.
  - exact T2.
  - exact H.
Defined.

(* ================================================================== *)
(** * What the stripper and the extractor leave alone *)
(* ================================================================== *)

Module StripFacts.

Lemma contains_tail (l : pystr) (c : Z) (s : pystr) :
  contains l (c :: s) = false ->
  strip_prefix l (c :: s) = None /\ contains l s = false.
Proof.
  cbn [contains]. destruct (strip_prefix l (c :: s)); [discriminate|auto].
Qed.

(** No match of a pattern that opens with a literal where the literal
    does not occur. *)
Lemma sub_loop_absent (l : pystr) (r : regex) (t : template) :
  forall (s : pystr) (budget : option nat),
    contains l s = false -> sub_loop (Lit l +> r) t budget 0 s = s.
Proof.
  induction s as [|c s IH]; intros budget H; [reflexivity|].
  destruct (contains_tail l c s H) as [P C].
  cbn [sub_loop]. unfold match_at. cbn [run]. rewrite P.
  destruct budget as [[|n]|]; try reflexivity; now rewrite IH.
Qed.

Lemma sub_absent (l : pystr) (r : regex) (t : template) (s : pystr)
      (count : nat) :
  template_ok (Lit l +> r) t = true ->
  contains l s = false -> sub (Lit l +> r) t s count = Ok s.
Proof.
  intros T H. unfold sub. rewrite T. now rewrite sub_loop_absent.
Qed.

(** Substitution with a template of group references only brings in no
    character. *)
Lemma expand_chars (t : template) (g : option pystr) (c : Z) :
  groups_only t = true -> In c (expand t g) ->
  exists x, g = Some x /\ In c x.
Proof.
  unfold expand, groups_only. intros G H.
  apply in_flat_map in H. destruct H as (i & I & H).
  rewrite forallb_forall in G. specialize (G i I).
  destruct i as [|n]; [discriminate|].
  destruct g as [x|]; [eauto|contradiction].
Qed.

Lemma part_of_In (t s : pystr) (c : Z) : part_of t s -> In c t -> In c s.
Proof.
  intros (pre & post & ->) H. apply in_or_app. right.
  apply in_or_app. now left.
Qed.

Lemma sub_loop_chars (r : regex) (t : template) (c : Z) :
  groups_only t = true ->
  forall (s : pystr) (budget : option nat) (skip : nat),
    In c (sub_loop r t budget skip s) -> In c s.
Proof.
  intros G. induction s as [|c0 s IH]; intros budget skip H; [exact H|].
  cbn [sub_loop] in H. destruct skip as [|k]; [|right; eapply IH; exact H].
  assert (D : forall b, In c (match match_at r (c0 :: s) with
                               | Some (S n, g) =>
                                 expand t g ++ sub_loop r t b n s
                               | _ => c0 :: sub_loop r t budget 0 s
                               end) -> In c (c0 :: s)).
  { intros b K.
    destruct (match_at r (c0 :: s)) as [[[|n] g]|] eqn:E.
    - destruct K as [->|K]; [now left|right; eapply IH; exact K].
    - apply in_app_or in K. destruct K as [K|K].
      + destruct (expand_chars t g c G K) as (x & -> & I).
        apply ReFacts.match_at_sound in E. destruct E as (_ & _ & [E|E]);
          [discriminate|].
        destruct E as (x' & E & P). inversion E; subst x'.
        eapply part_of_In; eassumption.
      + right. eapply IH; exact K.
    - destruct K as [->|K]; [now left|right; eapply IH; exact K]. }
  destruct budget as [[|n]|]; [exact H|apply (D _ H)|apply (D _ H)].
Qed.

Lemma sub_chars (r : regex) (t : template) (s s' : pystr) (count : nat)
      (c : Z) :
  groups_only t = true -> sub r t s count = Ok s' -> In c s' -> In c s.
Proof.
  unfold sub. intros G H I. destruct (template_ok r t); [|discriminate].
  inversion H; subst. eapply sub_loop_chars; eassumption.
Qed.

(** The stripper only removes characters. *)
Lemma strip_markup_chars (text stripped : pystr) (c : Z) :
  strip_markup text = Ok stripped -> In c stripped -> In c text.
Proof.
  unfold strip_markup. intros H I.
  destruct (sub template_re [] text 0) as [t1|] eqn:E1; [|discriminate].
  cbn [bind] in H.
  destruct (sub link_re [TGroup 1] t1 0) as [t2|] eqn:E2; [|discriminate].
  cbn [bind] in H.
  destruct (sub ref_re [] t2 0) as [t3|] eqn:E3; [|discriminate].
  cbn [bind] in H.
  destruct (sub tag_re [] t3 0) as [t4|] eqn:E4; [|discriminate].
  cbn [bind] in H.
  destruct (sub url_re [] t4 0) as [t5|] eqn:E5; [|discriminate].
  cbn [bind] in H.
  apply (sub_chars category_re [] t5 stripped IGNORECASE c eq_refl H) in I.
  apply (sub_chars url_re [] t4 t5 0 c eq_refl E5) in I.
  apply (sub_chars tag_re [] t3 t4 0 c eq_refl E4) in I.
  apply (sub_chars ref_re [] t2 t3 0 c eq_refl E3) in I.
  apply (sub_chars link_re [TGroup 1] t1 t2 0 c eq_refl E2) in I.
  apply (sub_chars template_re [] text t1 0 c eq_refl E1) in I.
  exact I.
Qed.

Lemma split_loop_chars (r : regex) (c : Z) :
  forall (s : pystr) (skip : nat) (span : pystr),
    In span (split_loop r skip s) -> In c span -> In c s.
Proof.
  induction s as [|c0 s IH]; intros skip span H I.
  - destruct H as [<-|[]]. contradiction.
  - cbn [split_loop] in H. destruct skip as [|k];
      [|right; eapply IH; eassumption].
    assert (D : In span (match split_loop r 0 s with
                         | piece :: pieces => (c0 :: piece) :: pieces
                         | [] => [[c0]]
                         end) -> In c (c0 :: s)).
    { intros K. destruct (split_loop r 0 s) as [|piece pieces] eqn:E.
      - destruct K as [<-|[]]. destruct I as [->|[]]. now left.
      - destruct K as [<-|K].
        + destruct I as [->|I]; [now left|].
          right. apply (IH 0%nat piece); [rewrite E; now left|exact I].
        + right. apply (IH 0%nat span); [rewrite E; now right|exact I]. }
    destruct (match_at r (c0 :: s)) as [[[|n] g]|]; try (apply D; exact H).
    destruct H as [<-|H]; [contradiction|].
    right. eapply IH; eassumption.
Qed.

Lemma firstn_In (n : nat) (s : pystr) (c : Z) : In c (firstn n s) -> In c s.
Proof.
  intros H. rewrite <- (firstn_skipn n s). apply in_or_app. now left.
Qed.

Lemma findall_loop_chars (r : regex) (c : Z) :
  forall (s : pystr) (skip : nat) (word : pystr),
    In word (findall_loop r skip s) -> In c word -> In c s.
Proof.
  induction s as [|c0 s IH]; intros skip word H I; [contradiction|].
  cbn [findall_loop] in H. destruct skip as [|k];
    [|right; eapply IH; eassumption].
  destruct (match_at r (c0 :: s)) as [[[|n] g]|];
    try (right; eapply IH; eassumption).
  destruct H as [<-|H]; [eapply firstn_In; exact I|].
  right. eapply IH; eassumption.
Qed.

Lemma lower_In (s : pystr) (c : Z) :
  In c (lower s) <-> exists c', In c' s /\ In c (lower_cp c').
Proof. unfold lower. apply in_flat_map. Qed.

(** The gate on a string made of characters of another. *)
Lemma gate_mono (a b : pystr) :
  (forall c, In c a -> In c b) ->
  has_vietnamese_diacritic a = true -> has_vietnamese_diacritic b = true.
Proof.
  intros H G. apply gate_spec in G. apply gate_spec.
  destruct G as (c & L & V). exists c. split; [|exact V].
  apply lower_In in L. apply lower_In.
  destruct L as (c' & I & L). exists c'. auto.
Qed.

Lemma star_greedy_some (A : Type) (p : Z -> bool) (k : pystr -> option A) :
  (forall s, k s <> None) -> forall s, star_greedy p k s <> None.
Proof.
  intros K. induction s as [|c s IH]; cbn [star_greedy]; [apply K|].
  destruct (p c); [|apply K].
  destruct (star_greedy p k s); [discriminate|apply K].
Qed.

(** The sentence pattern matches at every line feed. *)
Lemma sentence_pattern_at_newline (s : pystr) :
  exists n g, match_at sentence_pattern (10 :: s) = Some (S n, g).
Proof.
  destruct (match_at sentence_pattern (10 :: s)) as [[n g]|] eqn:E.
  - pose proof (ReFacts.match_at_positive sentence_pattern (10 :: s) n g
                  (le_n 1) E) as P.
    destruct n as [|n]; [lia|]. eauto.
  - exfalso. revert E. unfold match_at, sentence_pattern.
    cbn [run one_of mem existsb Z.eqb orb]. simpl.
    apply star_greedy_some. discriminate.
Qed.

Lemma split_no_newline :
  forall (s : pystr) (skip : nat) (span : pystr),
    In span (split_loop sentence_pattern skip s) -> ~ In 10 span.
Proof.
  induction s as [|c s IH]; intros skip span H I.
  - destruct H as [<-|[]]. contradiction.
  - cbn [split_loop] in H. destruct skip as [|k]; [|eapply IH; eassumption].
    destruct (match_at sentence_pattern (c :: s)) as [[[|n] g]|] eqn:E.
    + pose proof (ReFacts.match_at_positive sentence_pattern (c :: s) 0%nat g
                    (le_n 1) E). lia.
    + destruct H as [<-|H]; [contradiction|eapply IH; eassumption].
    + assert (c <> 10).
      { intros ->. destruct (sentence_pattern_at_newline s) as (n & g & K).
        congruence. }
      destruct (split_loop sentence_pattern 0 s) as [|piece pieces] eqn:S.
      * destruct H as [<-|[]]. destruct I as [K|[]]. congruence.
      * destruct H as [<-|H].
        -- destruct I as [K|I]; [congruence|].
           apply (IH 0%nat piece); [rewrite S; now left|exact I].
        -- apply (IH 0%nat span); [rewrite S; now right|exact I].
Qed.

Lemma add_sentences_closed (sentences : list pystr) :
  Forall (fun s => has_vietnamese_diacritic s = false) sentences ->
  forall acc, fold_left add_sentence sentences acc = acc.
Proof.
  induction 1 as [|s l G _ IH]; intros acc; [reflexivity|].
  cbn [fold_left]. unfold add_sentence at 2. rewrite G. apply IH.
Qed.

Lemma add_word_from (text : pystr) (acc : list pystr) (word : pystr) :
  (forall c, In c word -> In c text) ->
  from_text text acc -> from_text text (add_word acc word).
Proof.
  intros W F. unfold add_word.
  destruct (2 <=? length (lower word))%nat; [|exact F].
  intros w c Hw Hc. apply set_add_In in Hw. destruct Hw as [->|Hw];
    [|eapply F; eassumption].
  apply lower_In in Hc. destruct Hc as (c' & I & L). eauto.
Qed.

Lemma add_words_from (text : pystr) (words : list pystr) :
  Forall (fun word => forall c, In c word -> In c text) words ->
  forall acc, from_text text acc ->
              from_text text (fold_left add_word words acc).
Proof.
  induction 1 as [|w l W _ IH]; intros acc F; [exact F|].
  cbn [fold_left]. apply IH. now apply add_word_from.
Qed.

Lemma add_sentences_from (text : pystr) (sentences : list pystr) :
  Forall (fun s => forall c, In c s -> In c text) sentences ->
  forall acc, from_text text acc ->
              from_text text (fold_left add_sentence sentences acc).
Proof.
  induction 1 as [|s l S _ IH]; intros acc F; [exact F|].
  cbn [fold_left]. apply IH. unfold add_sentence.
  destruct (has_vietnamese_diacritic s); [|exact F].
  apply add_words_from; [|exact F].
  apply Forall_forall. intros word Hw c Hc. apply S.
  eapply findall_loop_chars; eassumption.
Qed.

End StripFacts.

Module WordFacts.

Section Runs.
Variable p : Z -> bool.

Lemma take_drop (s : pystr) : s = take_while p s ++ drop_while p s.
Proof.
  induction s as [|c s IH]; [reflexivity|]. simpl.
  destruct (p c); [simpl; now f_equal|reflexivity].
Qed.

Lemma take_while_all (s : pystr) : Forall (fun c => p c = true) (take_while p s).
Proof.
  induction s as [|c s IH]; simpl; [constructor|].
  destruct (p c) eqn:E; constructor; assumption.
Qed.

Lemma take_while_firstn (s : pystr) :
  firstn (length (take_while p s)) s = take_while p s.
Proof.
  induction s as [|c s IH]; [reflexivity|]. simpl.
  destruct (p c); [simpl; now f_equal|reflexivity].
Qed.

(** A run followed by a character outside the class is the whole of the
    longest prefix in the class. *)
Lemma take_while_run (w post : pystr) :
  Forall (fun c => p c = true) w ->
  (forall c post0, post = c :: post0 -> p c = false) ->
  take_while p (w ++ post) = w.
Proof.
  intros F B. induction F as [|c w Pc _ IH]; simpl.
  - destruct post as [|c post0]; [reflexivity|].
    simpl. now rewrite (B c post0 eq_refl).
  - rewrite Pc. now f_equal.
Qed.

(** The longest prefix in the class stops inside a string that ends
    outside the class. *)
Lemma take_while_inside (pre rest : pystr) :
  pre <> [] ->
  (forall pre0 c, pre = pre0 ++ [c] -> p c = false) ->
  take_while p (pre ++ rest) = take_while p pre.
Proof.
  induction pre as [|a pre IH]; intros N E; [congruence|].
  simpl. destruct (p a) eqn:Pa; [|reflexivity]. f_equal.
  destruct pre as [|b pre'].
  - rewrite (E [] a eq_refl) in Pa. discriminate.
  - apply IH; [discriminate|].
    intros pre0 c H. apply (E (a :: pre0) c). simpl. now rewrite H.
Qed.

Lemma star_greedy_longest (A : Type) (k : pystr -> option A) :
  (forall s, k s <> None) ->
  forall s, star_greedy p k s = k (drop_while p s).
Proof.
  intros K. induction s as [|c s IH]; [reflexivity|].
  cbn [star_greedy drop_while]. destruct (p c); [|reflexivity].
  rewrite IH. destruct (k (drop_while p s)) eqn:E; [reflexivity|].
  now apply K in E.
Qed.

(** A pattern [[class]+] matches the longest run of the class, and only
    where one starts. *)
Lemma match_at_plus (c : Z) (s : pystr) :
  match_at (Plus p) (c :: s)
  = if p c then Some (S (length (take_while p s)), None) else None.
Proof.
  unfold match_at. cbn [run]. destruct (p c); [|reflexivity].
  rewrite star_greedy_longest by discriminate. f_equal. f_equal.
  rewrite (take_drop s) at 1. simpl length. rewrite length_app. lia.
Qed.

Lemma findall_finds (word post : pystr) :
  word <> [] ->
  Forall (fun c => p c = true) word ->
  (forall c post0, post = c :: post0 -> p c = false) ->
  forall (pre : pystr) (skip : nat),
    (forall pre0 c, pre = pre0 ++ [c] -> p c = false) ->
    (skip <= length pre)%nat ->
    Forall (fun c => p c = true) (firstn skip pre) ->
    In word (findall_loop (Plus p) skip (pre ++ word ++ post)).
Proof.
  intros N F B. induction pre as [|a pre IH]; intros skip E L S.
  - simpl in L. assert (skip = 0%nat) by lia. subst skip.
    destruct word as [|w0 word']; [congruence|]. inversion F; subst.
    cbn [app findall_loop]. rewrite match_at_plus.
    match goal with H : p w0 = true |- _ => rewrite H end.
    rewrite (take_while_run word' post) by assumption.
    left. cbn [firstn]. f_equal.
    rewrite firstn_app, firstn_all, Nat.sub_diag. simpl. apply app_nil_r.
  - assert (E' : forall pre0 c, pre = pre0 ++ [c] -> p c = false).
    { intros pre0 c H. apply (E (a :: pre0) c). simpl. now rewrite H. }
    cbn [app findall_loop]. destruct skip as [|k].
    + rewrite match_at_plus. destruct (p a) eqn:Pa.
      * right. assert (pre <> []).
        { intros ->. rewrite (E [] a eq_refl) in Pa. discriminate. }
        rewrite (take_while_inside pre (word ++ post)) by assumption.
        apply IH; [exact E'| |].
        -- rewrite (take_drop pre) at 2. rewrite length_app. lia.
        -- rewrite take_while_firstn. apply take_while_all.
      * apply IH; [exact E'|lia|constructor].
    + simpl in L, S. inversion S; subst.
      apply IH; [exact E'|lia|assumption].
Qed.

End Runs.

Lemma add_word_keeps (acc : list pystr) (word x : pystr) :
  In x acc -> In x (add_word acc word).
Proof.
  intros H. unfold add_word.
  destruct (2 <=? length (lower word))%nat; [|exact H].
  apply set_add_In. now right.
Qed.

Lemma add_words_keep (words : list pystr) :
  forall acc x, In x acc -> In x (fold_left add_word words acc).
Proof.
  induction words as [|w l IH]; intros acc x H; [exact H|].
  cbn [fold_left]. apply IH. now apply add_word_keeps.
Qed.

Lemma add_words_adds (words : list pystr) (word : pystr) :
  In word words -> (2 <= length (lower word))%nat ->
  forall acc, In (lower word) (fold_left add_word words acc).
Proof.
  induction words as [|w l IH]; intros H L acc; [contradiction|].
  cbn [fold_left]. destruct H as [->|H]; [|now apply IH].
  apply add_words_keep. unfold add_word.
  apply Nat.leb_le in L. rewrite L. apply set_add_In. now left.
Qed.

Lemma add_sentence_keeps (acc : list pystr) (sentence x : pystr) :
  In x acc -> In x (add_sentence acc sentence).
Proof.
  intros H. unfold add_sentence.
  destruct (has_vietnamese_diacritic sentence); [|exact H].
  now apply add_words_keep.
Qed.

Lemma add_sentences_keep (sentences : list pystr) :
  forall acc x, In x acc -> In x (fold_left add_sentence sentences acc).
Proof.
  induction sentences as [|s l IH]; intros acc x H; [exact H|].
  cbn [fold_left]. apply IH. now apply add_sentence_keeps.
Qed.

Lemma add_sentences_adds (sentences : list pystr) (sentence x : pystr) :
  In sentence sentences ->
  (forall acc, In x (add_sentence acc sentence)) ->
  forall acc, In x (fold_left add_sentence sentences acc).
Proof.
  induction sentences as [|s l IH]; intros H A acc; [contradiction|].
  cbn [fold_left]. destruct H as [->|H]; [|now apply IH].
  apply add_sentences_keep. apply A.
Qed.

End WordFacts.

(** X7.  Text without markup passes the stripper unchanged: when none of [{{],
    [[[], [<] and [http] occurs in it, all six substitutions leave it as
    it is. *)
Theorem plain_text_unchanged :
  forall text : pystr,
    contains (u "{{") text = false ->
    contains (u "[[") text = false ->
    contains (u "<") text = false ->
    contains (u "http") text = false ->
    strip_markup text = Ok text.
Proof.
  intros text H1 H2 H3 H4.
  assert (H3' : contains (u "<ref") text = false).
  { clear -H3. induction text as [|c s IH]; [reflexivity|].
    destruct (StripFacts.contains_tail _ c s H3) as [P C].
    cbn [contains]. rewrite (IH C).
    destruct (strip_prefix (u "<ref") (c :: s)) eqn:E; [|reflexivity].
    exfalso. revert P E. change (u "<") with [60].
    change (u "<ref") with [60; 114; 101; 102].
    cbn [strip_prefix]. destruct (Z.eqb 60 c); discriminate. }
  unfold strip_markup.
  unfold template_re, link_re, ref_re, tag_re, url_re, category_re.
  repeat (rewrite StripFacts.sub_absent; [|reflexivity|assumption];
          cbn [bind]).
  reflexivity.
Qed.

Lemma plain_text_unchanged_witness :
  let text := u "Ví dụ: xin chào [1] {a} >> b." in
  contains (u "{{") text = false
  /\ contains (u "[[") text = false
  /\ contains (u "<") text = false
  /\ contains (u "http") text = false
  /\ strip_markup text = Ok text.
Proof.
  repeat (split; [reflexivity|]).
  apply (plain_text_unchanged (u "Ví dụ: xin chào [1] {a} >> b."));
    reflexivity.
Defined.

(** X8.  A text none of whose characters lowercases to a letter of the
    diacritic alphabet gives no word at all, whatever else it holds. *)
Theorem no_diacritic_no_words :
  forall text : pystr,
    has_vietnamese_diacritic text = false -> extract_words text = Ok [].
Proof.
  intros text G.
  destruct (extract_words_spans text) as (stripped & S & E). rewrite E.
  f_equal. apply StripFacts.add_sentences_closed.
  apply Forall_forall. intros span I.
  destruct (has_vietnamese_diacritic span) eqn:K; [|reflexivity].
  assert (has_vietnamese_diacritic text = true); [|congruence].
  apply (StripFacts.gate_mono span text); [|exact K].
  intros c Hc. apply (StripFacts.strip_markup_chars text stripped c S).
  eapply StripFacts.split_loop_chars; eassumption.
Qed.

Lemma no_diacritic_no_words_witness :
  has_vietnamese_diacritic (u "Hello [[big|wide]] world. Bye {{x}}") = false
  /\ extract_words (u "Hello [[big|wide]] world. Bye {{x}}") = Ok [].
Proof.
  split; [reflexivity|].
  apply (no_diacritic_no_words (u "Hello [[big|wide]] world. Bye {{x}}")).
  reflexivity.
Defined.

(** X9.  The extractor invents no letter: every character of every word it
    returns is the lowercase form of a character of the text. *)
Theorem words_from_text :
  forall text : pystr,
  exists words,
    extract_words text = Ok words
    /\ forall w c, In w words -> In c w ->
                   exists c', In c' text /\ In c (lower_cp c').
Proof.
  intros text.
  destruct (extract_words_spans text) as (stripped & S & E).
  eexists. split; [exact E|].
  apply (StripFacts.add_sentences_from text).
  - apply Forall_forall. intros span I c Hc.
    apply (StripFacts.strip_markup_chars text stripped c S).
    eapply StripFacts.split_loop_chars; eassumption.
  - intros w c [].
Qed.

(** X10.  A sentence never spans two lines: no span that [re.split] makes with
    the sentence pattern holds a line feed, and a span holds characters of
    the split text only. *)
Theorem spans_within_lines :
  forall text : pystr,
    Forall (fun span => ~ In 10 span /\ forall c, In c span -> In c text)
           (split sentence_pattern text).
Proof.
  intros text. apply Forall_forall. intros span I. split.
  - eapply StripFacts.split_no_newline. exact I.
  - intros c Hc. eapply StripFacts.split_loop_chars; eassumption.
Qed.

(** X11.  In a sentence that passes the gate every word of two letters or more
    is taken: a maximal run of letters of the word pattern, at least two
    long, in a span of the stripped text that passes the gate, is in the
    set [extract_words] returns, in lowercase. *)
Theorem words_of_retained_span :
  forall (text stripped sentence word : pystr),
    strip_markup text = Ok stripped ->
    In sentence (split sentence_pattern stripped) ->
    has_vietnamese_diacritic sentence = true ->
    maximal_word word sentence ->
    (2 <= length word)%nat ->
    exists words, extract_words text = Ok words /\ In (lower word) words.
Proof.
  intros text stripped sentence word S I G (pre & post & -> & F & E & B) L.
  eexists. split; [unfold extract_words; rewrite S; reflexivity|].
  apply (WordFacts.add_sentences_adds _ (pre ++ word ++ post)); [exact I|].
  intros acc. unfold add_sentence. rewrite G.
  apply WordFacts.add_words_adds.
  - unfold findall, word_pattern.
    assert (N : word <> []) by (intros ->; simpl in L; lia).
    apply (WordFacts.findall_finds word_char word post N F B pre 0 E
                                   (Nat.le_0_l _) (Forall_nil _)).
  - rewrite (proj1 (lower_word word F)). exact L.
Qed.

Lemma words_of_retained_span_witness :
  let text := u "[[Chào hỏi|Xin chào]] bạn. Hello world." in
  let stripped := u "Xin chào bạn. Hello world." in
  strip_markup text = Ok stripped
  /\ In (u "Xin chào bạn") (split sentence_pattern stripped)
  /\ has_vietnamese_diacritic (u "Xin chào bạn") = true
  /\ maximal_word (u "Xin") (u "Xin chào bạn")
  /\ (2 <= length (u "Xin"))%nat
  /\ exists words, extract_words text = Ok words /\ In (lower (u "Xin")) words.
Proof.
  assert (M : maximal_word (u "Xin") (u "Xin chào bạn")).
  { exists [], (u " chào bạn"). split; [reflexivity|].
    split; [repeat constructor|]. split.
    - intros pre0 c H. destruct pre0; discriminate H.
    - intros c post0 H. inversion H. reflexivity. }
  split; [reflexivity|]. split; [left; reflexivity|].
  split; [reflexivity|]. split; [exact M|]. split; [simpl; lia|].
  apply (words_of_retained_span
           (u "[[Chào hỏi|Xin chào]] bạn. Hello world.")
           (u "Xin chào bạn. Hello world.")
           (u "Xin chào bạn") (u "Xin")).
  - reflexivity.
  - left. reflexivity.
  - reflexivity.
  - exact M.
  - simpl. lia.
Defined.

(* ================================================================== *)
(** * Records as the parse loop reads them *)
(* ================================================================== *)

Module RecordFacts.

Lemma strip_prefix_same (l s : pystr) : strip_prefix l (l ++ s) = Some s.
Proof.
  induction l as [|a l IH]; [reflexivity|].
  cbn [app strip_prefix]. now rewrite Z.eqb_refl.
Qed.

Lemma contains_here (l s : pystr) : contains l (l ++ s) = true.
Proof.
  destruct l as [|a l]; [destruct s; reflexivity|].
  cbn [app contains].
  change (a :: l ++ s) with ((a :: l) ++ s). now rewrite strip_prefix_same.
Qed.

Lemma contains_later (l pre s : pystr) :
  contains l s = true -> contains l (pre ++ s) = true.
Proof.
  intros H. induction pre as [|a pre IH]; [exact H|].
  cbn [app contains]. rewrite IH. now destruct (strip_prefix l (a :: pre ++ s)).
Qed.

(** Greedy repetition stops where the class does, when the rest of the
    pattern matches there. *)
Lemma star_greedy_stop (A : Type) (p : Z -> bool) (k : pystr -> option A)
      (w rest : pystr) (x : A) :
  Forall (fun c => p c = true) w -> k rest = Some x ->
  (forall c r, rest = c :: r -> p c = false) ->
  star_greedy p k (w ++ rest) = Some x.
Proof.
  intros F K B. induction F as [|c w Pc _ IH].
  - cbn [app]. destruct rest as [|c r]; [exact K|].
    cbn [star_greedy]. now rewrite (B c r eq_refl).
  - cbn [app star_greedy]. now rewrite Pc, IH.
Qed.

Lemma star_any_all (A : Type) (k : pystr -> option A) (s : pystr) (x : A) :
  k [] = Some x -> star_greedy any k s = Some x.
Proof.
  intros K. induction s as [|c s IH]; [exact K|].
  cbn [star_greedy any]. now rewrite IH.
Qed.

Lemma star_any_later (A : Type) (k : pystr -> option A) (pre s : pystr) (x : A) :
  star_greedy any k s = Some x -> star_greedy any k (pre ++ s) = Some x.
Proof.
  intros H. induction pre as [|c pre IH]; [exact H|].
  cbn [app star_greedy any]. now rewrite IH.
Qed.

Lemma star_any_absent (A : Type) (l : pystr) (k : pystr -> option A) :
  (forall s, strip_prefix l s = None -> k s = None) ->
  forall s, contains l s = false -> star_greedy any k s = None.
Proof.
  intros K. induction s as [|c s IH]; intros H.
  - cbn [star_greedy]. apply K. cbn [contains] in H.
    destruct (strip_prefix l []); [discriminate|reflexivity].
  - destruct (StripFacts.contains_tail l c s H) as [P C].
    cbn [star_greedy any]. rewrite (IH C). now apply K.
Qed.

Lemma search_head (r : regex) (s : pystr) (n : nat) (g : option pystr) :
  match_at r s = Some (n, g) -> search r s = Some g.
Proof. intros H. destruct s; cbn [search]; now rewrite H. Qed.

(** The text on the line of the field-start marker. *)
Lemma search_open_field (indent attrs rest : pystr) :
  Forall (fun c => c <> 60) indent ->
  Forall (fun c => c <> 62) attrs ->
  search text_open_re (indent ++ u "<text" ++ attrs ++ [62] ++ rest)
  = Some (Some rest).
Proof.
  intros I A. induction I as [|c indent Hc _ IH].
  - cbn [app]. eapply search_head.
    unfold match_at, text_open_re. cbn [run].
    rewrite strip_prefix_same.
    erewrite star_greedy_stop; [reflexivity| | |].
    + eapply Forall_impl; [|exact A]. intros c Hc. unfold none_of.
      change (u ">") with [62]. cbn [mem existsb].
      apply Z.eqb_neq in Hc. now rewrite Hc.
    + change (u ">") with [62]. cbn [strip_prefix].
      rewrite Z.eqb_refl. apply star_any_all.
      cbn [length]. rewrite !Nat.sub_0_r, firstn_all. reflexivity.
    + intros c r H. inversion H. reflexivity.
  - cbn [app search]. unfold match_at at 1. unfold text_open_re at 1.
    cbn [run]. change (u "<text") with [60; 116; 101; 120; 116] at 1.
    cbn [strip_prefix]. apply not_eq_sym in Hc. apply Z.eqb_neq in Hc.
    rewrite Hc. exact IH.
Qed.

(** The text on the line of the field-end marker: what stands before the
    last marker of the line. *)
Lemma search_close_field (last tail : pystr) :
  contains (u "</text>") tail = false ->
  search text_close_re (last ++ u "</text>" ++ tail) = Some (Some last).
Proof.
  intros T.
  assert (M : match_at text_close_re (last ++ u "</text>" ++ tail)
              = Some (length (last ++ u "</text>"), Some last)).
  { unfold match_at, text_close_re. cbn [run].
    remember (last ++ u "</text>" ++ tail) as s eqn:Hs.
    match goal with
    | |- star_greedy any ?k0 _ = _ => remember k0 as k eqn:Hk
    end.
    rewrite Hs at 1. apply star_any_later.
    assert (N : star_greedy any k tail = None).
    { apply (star_any_absent _ (u "</text>")); [|exact T].
      intros s' H. rewrite Hk. now rewrite H. }
    assert (F : forall c r, c <> 60 -> k (c :: r) = None).
    { intros c r H. rewrite Hk.
      change (u "</text>") with [60; 47; 116; 101; 120; 116; 62].
      cbn [strip_prefix]. apply not_eq_sym in H. apply Z.eqb_neq in H.
      now rewrite H. }
    assert (K : k (u "</text>" ++ tail)
                = Some (length (last ++ u "</text>"), Some last)).
    { rewrite Hk. rewrite strip_prefix_same. rewrite Hs. f_equal. f_equal.
      - rewrite !length_app. lia.
      - f_equal. rewrite !length_app.
        replace (length last + (length (u "</text>") + length tail)
                 - (length (u "</text>") + length tail))%nat
          with (length last) by lia.
        rewrite firstn_app, firstn_all, Nat.sub_diag. simpl. apply app_nil_r. }
    clear Hk Hs. revert K.
    change (u "</text>" ++ tail)
      with (60 :: 47 :: 116 :: 101 :: 120 :: 116 :: 62 :: tail).
    intros K. cbn [star_greedy any]. rewrite N.
    rewrite !F by discriminate. exact K. }
  exact (search_head _ _ _ _ M).
Qed.

(** A line without markers inside a text field. *)
Lemma parse_line_plain (self : extractor) (v : locals) (line : pystr) :
  in_page v = true -> in_text v = true -> plain_line line = true ->
  text_lines v + 1 <= max_text_lines ->
  parse_line self v line
  = Ok (self, mkLocals true true (current_text v ++ [line]) (text_lines v + 1)
                       (articles_processed v) (articles_matched v)).
Proof.
  intros P T L C.
  destruct (plain_line_spec line L) as (L1 & L2 & L3 & L4).
  unfold parse_line. rewrite L1, L2, P. cbn [andb bind].
  unfold inside_page. rewrite L3, L4, T.
  destruct v as [ip it ct n ap am]. simpl in *. subst.
  replace (n + 1 >? max_text_lines)%Z with false; [reflexivity|].
  symmetry. rewrite Z.gtb_ltb. apply Z.ltb_ge. exact C.
Qed.

Lemma parse_lines_plain (lines : list pystr) :
  forall (self : extractor) (v : locals),
    in_page v = true -> in_text v = true ->
    Forall (fun line => plain_line line = true) lines ->
    text_lines v + Z.of_nat (length lines) <= max_text_lines ->
    parse_lines self v lines
    = Ok (self, mkLocals true true (current_text v ++ lines)
                         (text_lines v + Z.of_nat (length lines))
                         (articles_processed v) (articles_matched v)).
Proof.
  induction lines as [|line rest IH]; intros self v P T F C.
  - simpl. rewrite app_nil_r, Z.add_0_r.
    destruct v as [ip it ct n ap am]. simpl in *. now subst.
  - inversion F as [|? ? Hl Hr]; subst. cbn [length] in C.
    rewrite Nat2Z.inj_succ in C.
    pose proof (Nat2Z.is_nonneg (length rest)) as NN.
    assert (C1 : text_lines v + 1 <= max_text_lines) by lia.
    cbn [parse_lines]. rewrite (parse_line_plain self v line P T Hl C1).
    cbn [bind fst snd].
    rewrite IH; cbn [in_page in_text text_lines]; try reflexivity;
      try assumption; try lia.
    cbn [current_text articles_processed articles_matched length].
    rewrite <- app_assoc, Nat2Z.inj_succ. cbn [app].
    replace (text_lines v + 1 + Z.of_nat (length rest))
      with (text_lines v + Z.succ (Z.of_nat (length rest))) by lia.
    reflexivity.
Qed.

Lemma inside_page_opens (v : locals) (line : pystr) :
  contains (u "<text") line = true ->
  exists v', inside_page v line = Ok v'
             /\ in_text v' = true /\ in_page v' = in_page v.
Proof.
  intros H. destruct (ParseFacts.inside_page_total v line) as (v' & E).
  exists v'. split; [exact E|].
  split; [|eapply StartFacts.inside_page_in_page; exact E].
  unfold inside_page in E. rewrite H in E.
  destruct (search text_open_re line) as [g|].
  - destruct (group1 text_open_re g); [|discriminate]. inversion E. reflexivity.
  - inversion E. reflexivity.
Qed.

Lemma end_of_page_flags (self self' : extractor) (v v' : locals) :
  end_of_page self v = Ok (self', v') ->
  in_page v' = false /\ in_text v' = in_text v.
Proof.
  intros H.
  destruct (ParseFacts.end_of_page_cases self v)
    as [[_ E]|(_ & words & _ & _ & E)]; rewrite E in H.
  - inversion H; subst. auto.
  - destruct words as [|w ws]; [inversion H; subst; auto|].
    destruct (write_words_to_file self (w :: ws)); [|discriminate].
    inversion H; subst. auto.
Qed.


Lemma parse_line_open (self : extractor) (v : locals)
      (indent attrs rest : pystr) :
  in_page v = true ->
  Forall (fun c => c <> 60) indent ->
  Forall (fun c => c <> 62) attrs ->
  contains (u "<page>") (indent ++ u "<text" ++ attrs ++ [62] ++ rest) = false ->
  contains (u "</page>") (indent ++ u "<text" ++ attrs ++ [62] ++ rest) = false ->
  parse_line self v (indent ++ u "<text" ++ attrs ++ [62] ++ rest)
  = Ok (self, mkLocals true true (current_text v ++ [rest])
                       (text_lines v + 1)
                       (articles_processed v) (articles_matched v)).
Proof.
  intros P I A S E.
  assert (C : contains (u "<text")
                       (indent ++ u "<text" ++ attrs ++ [62] ++ rest) = true)
    by (apply contains_later, contains_here).
  unfold parse_line. rewrite S, E, P. cbn [andb].
  unfold inside_page. rewrite C.
  rewrite (search_open_field indent attrs rest I A).
  destruct v as [ip it ct n ap am]. simpl in *. now subst.
Qed.

Lemma parse_line_close (self : extractor) (v : locals) (last tail : pystr) :
  in_page v = true ->
  contains (u "</text>") tail = false ->
  contains (u "<text") (last ++ u "</text>" ++ tail) = false ->
  contains (u "<page>") (last ++ u "</text>" ++ tail) = false ->
  contains (u "</page>") (last ++ u "</text>" ++ tail) = false ->
  parse_line self v (last ++ u "</text>" ++ tail)
  = Ok (self, mkLocals true false (current_text v ++ [last]) (text_lines v)
                       (articles_processed v) (articles_matched v)).
Proof.
  intros P T O S E.
  assert (C : contains (u "</text>") (last ++ u "</text>" ++ tail) = true)
    by (apply contains_later, contains_here).
  unfold parse_line. rewrite S, E, P. cbn [andb].
  unfold inside_page. rewrite O, C.
  rewrite (search_close_field last tail T).
  destruct v as [ip it ct n ap am]. simpl in *. now subst.
Qed.

End RecordFacts.

(** X12.  The line of the field-start marker.  Inside a record, on a line where
    [<text] first occurs after [indent] and its tag closes after [attrs],
    the parser sets the in-text flag and takes as first piece of the
    record all that follows the tag on that line, counting one line; a
    field-end marker on the same line is part of the piece and does not
    drop the flag. *)
Theorem field_start_line :
  forall (self : extractor) (v : locals) (indent attrs rest : pystr),
    let line := indent ++ u "<text" ++ attrs ++ [62] ++ rest in
    in_page v = true ->
    Forall (fun c => c <> 60) indent ->
    Forall (fun c => c <> 62) attrs ->
    contains (u "<page>") line = false ->
    contains (u "</page>") line = false ->
    parse_line self v line
    = Ok (self, mkLocals true true (current_text v ++ [rest])
                         (text_lines v + 1)
                         (articles_processed v) (articles_matched v)).
Proof.
  intros self v indent attrs rest line. unfold line.
  apply RecordFacts.parse_line_open.
Qed.

Lemma field_start_line_witness :
  let v := mkLocals true false [] 0 2 1 in
  let indent := u "      " in
  let attrs := u " xml:space=preserve" in
  let rest := u "Xin chào</text>" ++ [10] in
  let line := indent ++ u "<text" ++ attrs ++ [62] ++ rest in
  in_page v = true
  /\ Forall (fun c => c <> 60) indent
  /\ Forall (fun c => c <> 62) attrs
  /\ contains (u "<page>") line = false
  /\ contains (u "</page>") line = false
  /\ parse_line (mkExtractor None 0) v line
     = Ok (mkExtractor None 0, mkLocals true true [rest] 1 2 1).
Proof.
  assert (I : Forall (fun c => c <> 60) (u "      "))
    by (repeat constructor; discriminate).
  assert (A : Forall (fun c => c <> 62) (u " xml:space=preserve"))
    by (repeat constructor; discriminate).
  split; [reflexivity|]. split; [exact I|]. split; [exact A|].
  split; [reflexivity|]. split; [reflexivity|].
  apply (field_start_line (mkExtractor None 0) (mkLocals true false [] 0 2 1)
                          (u "      ") (u " xml:space=preserve")
                          (u "Xin chào</text>" ++ [10]));
    [reflexivity|exact I|exact A|reflexivity|reflexivity].
Defined.

(** X13.  The line of the field-end marker.  Inside a record, on a line with
    [</text>] and without [<text], the parser appends what stands before
    the last [</text>] of the line, without counting a line, and drops the
    in-text flag; it does so whether or not a text field was open. *)
Theorem field_end_line :
  forall (self : extractor) (v : locals) (last tail : pystr),
    let line := last ++ u "</text>" ++ tail in
    in_page v = true ->
    contains (u "</text>") tail = false ->
    contains (u "<text") line = false ->
    contains (u "<page>") line = false ->
    contains (u "</page>") line = false ->
    parse_line self v line
    = Ok (self, mkLocals true false (current_text v ++ [last]) (text_lines v)
                         (articles_processed v) (articles_matched v)).
Proof.
  intros self v last tail line. unfold line.
  apply RecordFacts.parse_line_close.
Qed.

Lemma field_end_line_witness :
  let v := mkLocals true false [] 10001 2 1 in
  let last := u "a</text>b" in
  let tail := [10] in
  let line := last ++ u "</text>" ++ tail in
  in_page v = true
  /\ contains (u "</text>") tail = false
  /\ contains (u "<text") line = false
  /\ contains (u "<page>") line = false
  /\ contains (u "</page>") line = false
  /\ parse_line (mkExtractor None 0) v line
     = Ok (mkExtractor None 0, mkLocals true false [last] 10001 2 1).
Proof.
  repeat (split; [reflexivity|]).
  apply (field_end_line (mkExtractor None 0) (mkLocals true false [] 10001 2 1)
                        (u "a</text>b") [10]);
    reflexivity.
Defined.



(** X15.  The in-text flag outlives the record.  Neither the record-start nor
    the record-end line touches it, and a line with [<text] raises it even
    when the field ends on that same line.  So after a record whose text
    field is one line, the lines of the next record that come before its
    own text field are accumulated as record text. *)
Theorem in_text_outlives_record :
  forall (self : extractor) (v : locals)
         (start field end_line next_start : pystr) (meta : list pystr),
    contains (u "<page>") start = true ->
    contains (u "<page>") field = false ->
    contains (u "</page>") field = false ->
    contains (u "<text") field = true ->
    contains (u "<page>") end_line = false ->
    contains (u "</page>") end_line = true ->
    contains (u "<page>") next_start = true ->
    Forall (fun line => plain_line line = true) meta ->
    Z.of_nat (length meta) <= max_text_lines ->
    exists self' v',
      parse_lines self v (start :: field :: end_line :: next_start :: meta)
      = Ok (self', v')
      /\ in_page v' = true /\ in_text v' = true /\ current_text v' = meta.
Proof.
  intros self v start field end_line next_start meta S F1 F2 F3 E1 E2 N M C.
  cbn [parse_lines]. rewrite (ParseFacts.parse_line_start self v start S).
  cbn [bind fst snd].
  set (v1 := mkLocals true (in_text v) [] 0
                      (articles_processed v) (articles_matched v)).
  destruct (RecordFacts.inside_page_opens v1 field F3) as (v2 & I2 & T2 & P2).
  assert (L2 : parse_line self v1 field = Ok (self, v2)).
  { unfold parse_line. rewrite F1, F2. cbn [andb in_page v1]. now rewrite I2. }
  rewrite L2. cbn [bind fst snd].
  destruct (ParseFacts.end_of_page_total self v2) as ([self3 v3] & E3).
  destruct (RecordFacts.end_of_page_flags self self3 v2 v3 E3) as [P3 T3].
  assert (L3 : parse_line self v2 end_line = Ok (self3, v3)).
  { unfold parse_line. rewrite E1, E2, P2. cbn [andb in_page v1]. exact E3. }
  rewrite L3. cbn [bind fst snd].
  rewrite (ParseFacts.parse_line_start self3 v3 next_start N).
  cbn [bind fst snd]. rewrite T3, T2.
  rewrite (RecordFacts.parse_lines_plain
             meta self3
             (mkLocals true true [] 0
                       (articles_processed v3) (articles_matched v3))
             eq_refl eq_refl M C).
  do 2 eexists. split; [reflexivity|]. repeat split.
Qed.

Lemma in_text_outlives_record_witness :
  let start := u "<page>" ++ [10] in
  let field := u "<text>Xin chào</text>" ++ [10] in
  let end_line := u "</page>" ++ [10] in
  let meta := [u "<title>Hà Nội</title>" ++ [10]; u "<id>7</id>" ++ [10]] in
  contains (u "<page>") start = true
  /\ contains (u "<page>") field = false
  /\ contains (u "</page>") field = false
  /\ contains (u "<text") field = true
  /\ contains (u "<page>") end_line = false
  /\ contains (u "</page>") end_line = true
  /\ Forall (fun line => plain_line line = true) meta
  /\ Z.of_nat (length meta) <= max_text_lines
  /\ exists self' v',
      parse_lines (mkExtractor None 0) initial_locals
                  (start :: field :: end_line :: start :: meta)
      = Ok (self', v')
      /\ in_page v' = true /\ in_text v' = true /\ current_text v' = meta.
Proof.
  assert (M : Forall (fun line => plain_line line = true)
                     [u "<title>Hà Nội</title>" ++ [10]; u "<id>7</id>" ++ [10]])
    by (repeat constructor).
  assert (C : Z.of_nat
                (length [u "<title>Hà Nội</title>" ++ [10];
                         u "<id>7</id>" ++ [10]])
              <= max_text_lines) by (vm_compute; discriminate).
  repeat (split; [reflexivity|]). split; [exact M|]. split; [exact C|].
  apply (in_text_outlives_record
           (mkExtractor None 0) initial_locals
           (u "<page>" ++ [10]) (u "<text>Xin chào</text>" ++ [10])
           (u "</page>" ++ [10]) (u "<page>" ++ [10])
           [u "<title>Hà Nội</title>" ++ [10]; u "<id>7</id>" ++ [10]]);
    first [reflexivity | exact M | exact C].
Defined.

(** X16.  Outside a record nothing is read: while the parser is not inside a
    record, lines without the record-start marker leave the spool, the
    counters and the whole state as they are, whatever markers or text
    they carry. *)
Theorem outside_records_ignored :
  forall (lines : list pystr) (self : extractor) (v : locals),
    in_page v = false ->
    Forall (fun line => contains (u "<page>") line = false) lines ->
    parse_lines self v lines = Ok (self, v).
Proof.
  induction lines as [|line rest IH]; intros self v P F; [reflexivity|].
  inversion F as [|? ? Hl Hr]; subst.
  cbn [parse_lines]. unfold parse_line. rewrite Hl, P.
  rewrite andb_false_r. cbn [bind fst snd]. now apply IH.
Qed.

Lemma outside_records_ignored_witness :
  let lines := [u "<text>Xin chào</text>" ++ [10]; u "</page>" ++ [10];
                u "chữ</text>" ++ [10]] in
  in_page initial_locals = false
  /\ Forall (fun line => contains (u "<page>") line = false) lines
  /\ parse_lines (mkExtractor None 0) initial_locals lines
     = Ok (mkExtractor None 0, initial_locals).
Proof.
  assert (F : Forall (fun line => contains (u "<page>") line = false)
                     [u "<text>Xin chào</text>" ++ [10]; u "</page>" ++ [10];
                      u "chữ</text>" ++ [10]])
    by (repeat constructor).
  split; [reflexivity|]. split; [exact F|].
  apply (outside_records_ignored
           [u "<text>Xin chào</text>" ++ [10]; u "</page>" ++ [10];
            u "chữ</text>" ++ [10]]
           (mkExtractor None 0) initial_locals);
    [reflexivity|exact F].
Defined.

Module CapFacts.

(** Lines without markers are not read while no text field is open. *)
Lemma parse_lines_closed (lines : list pystr) :
  forall (self : extractor) (v : locals),
    in_page v = true -> in_text v = false ->
    Forall (fun line => plain_line line = true) lines ->
    parse_lines self v lines = Ok (self, v).
Proof.
  induction lines as [|line rest IH]; intros self v P T F; [reflexivity|].
  inversion F as [|? ? Hl Hr]; subst.
  destruct (plain_line_spec line Hl) as (L1 & L2 & L3 & L4).
  cbn [parse_lines]. unfold parse_line. rewrite L1, L2, P. cbn [andb].
  unfold inside_page. rewrite L3, L4, T. cbn [bind fst snd]. now apply IH.
Qed.

(** The line that exceeds the cap. *)
Lemma parse_line_over (self : extractor) (v : locals) (line : pystr) :
  in_page v = true -> in_text v = true -> plain_line line = true ->
  max_text_lines < text_lines v + 1 ->
  parse_line self v line
  = Ok (self, mkLocals true false [] (text_lines v + 1)
                       (articles_processed v) (articles_matched v)).
Proof.
  intros P T L C.
  destruct (plain_line_spec line L) as (L1 & L2 & L3 & L4).
  unfold parse_line. rewrite L1, L2, P. cbn [andb bind].
  unfold inside_page. rewrite L3, L4, T.
  destruct v as [ip it ct n ap am]. simpl in *. subst.
  replace (n + 1 >? max_text_lines)%Z with true; [reflexivity|].
  symmetry. rewrite Z.gtb_ltb. apply Z.ltb_lt. exact C.
Qed.

(** A text field of lines without markers, however long. *)
Lemma parse_lines_field (lines : list pystr) :
  forall (self : extractor) (v : locals),
    in_page v = true -> in_text v = true ->
    Forall (fun line => plain_line line = true) lines ->
    text_lines v <= max_text_lines ->
    exists v',
      parse_lines self v lines = Ok (self, v')
      /\ in_page v' = true
      /\ articles_processed v' = articles_processed v
      /\ articles_matched v' = articles_matched v
      /\ if (text_lines v + Z.of_nat (length lines) <=? max_text_lines)%Z
         then current_text v' = current_text v ++ lines
              /\ in_text v' = true
              /\ text_lines v' = text_lines v + Z.of_nat (length lines)
         else current_text v' = [] /\ in_text v' = false.
Proof.
  induction lines as [|line rest IH]; intros self v P T F C.
  - exists v. cbn [length Z.of_nat]. rewrite Z.add_0_r.
    replace (text_lines v <=? max_text_lines)%Z with true
      by (symmetry; now apply Z.leb_le).
    rewrite app_nil_r. repeat split; auto.
  - inversion F as [|? ? Hl Hr]; subst.
    cbn [length]. rewrite Nat2Z.inj_succ.
    pose proof (Nat2Z.is_nonneg (length rest)) as NN.
    cbn [parse_lines].
    destruct (Z_le_gt_dec (text_lines v + 1) max_text_lines) as [K|K].
    + rewrite (RecordFacts.parse_line_plain self v line P T Hl K).
      cbn [bind fst snd].
      destruct (IH self (mkLocals true true (current_text v ++ [line])
                                  (text_lines v + 1)
                                  (articles_processed v) (articles_matched v))
                   eq_refl eq_refl Hr K)
        as (v' & R & P' & A1 & A2 & H).
      exists v'. split; [exact R|]. split; [exact P'|].
      split; [exact A1|]. split; [exact A2|].
      cbn [text_lines current_text] in H.
      replace (text_lines v + Z.succ (Z.of_nat (length rest)))
        with (text_lines v + 1 + Z.of_nat (length rest)) by lia.
      destruct (text_lines v + 1 + Z.of_nat (length rest) <=? max_text_lines)%Z.
      * destruct H as (H1 & H2 & H3). rewrite <- app_assoc in H1. auto.
      * exact H.
    + rewrite (parse_line_over self v line P T Hl ltac:(lia)).
      cbn [bind fst snd].
      rewrite parse_lines_closed by (try reflexivity; assumption).
      eexists. split; [reflexivity|]. repeat split.
      replace (text_lines v + Z.succ (Z.of_nat (length rest)) <=? max_text_lines)%Z
        with false by (symmetry; apply Z.leb_gt; lia).
      split; reflexivity.
Qed.

End CapFacts.

(** X17.  The cap holds for a text field of any length.  After the
    record-start line and the field-start line, however many lines
    without markers follow, the accumulator holds no more than the cap:
    up to the cap it holds the field so far, and once the field has more
    lines than the cap it is empty and stays empty, the in-text flag
    down. *)
Theorem long_field_bounded :
  forall (self : extractor) (v : locals)
         (start indent attrs first : pystr) (body : list pystr),
    let open_line := indent ++ u "<text" ++ attrs ++ [62] ++ first in
    contains (u "<page>") start = true ->
    Forall (fun c => c <> 60) indent ->
    Forall (fun c => c <> 62) attrs ->
    contains (u "<page>") open_line = false ->
    contains (u "</page>") open_line = false ->
    Forall (fun line => plain_line line = true) body ->
    exists v',
      parse_lines self v (start :: open_line :: body) = Ok (self, v')
      /\ Z.of_nat (length (current_text v')) <= max_text_lines
      /\ if (1 + Z.of_nat (length body) <=? max_text_lines)%Z
         then current_text v' = first :: body /\ in_text v' = true
         else current_text v' = [] /\ in_text v' = false.
Proof.
  intros self v start indent attrs first body open_line S I A O1 O2 B.
  cbn [parse_lines]. rewrite (ParseFacts.parse_line_start self v start S).
  cbn [bind fst snd]. unfold open_line.
  rewrite (RecordFacts.parse_line_open
             self (mkLocals true (in_text v) [] 0
                            (articles_processed v) (articles_matched v))
             indent attrs first eq_refl I A O1 O2).
  cbn [bind fst snd current_text text_lines articles_processed
       articles_matched app].
  destruct (CapFacts.parse_lines_field
              body self
              (mkLocals true true [first] (0 + 1)
                        (articles_processed v) (articles_matched v))
              eq_refl eq_refl B ltac:(vm_compute; discriminate))
    as (v' & R & _ & _ & _ & H).
  exists v'. split; [exact R|].
  cbn [text_lines current_text] in H. change (0 + 1) with 1 in H.
  destruct (1 + Z.of_nat (length body) <=? max_text_lines)%Z eqn:E.
  - destruct H as (H1 & H2 & _). rewrite H1. split; [|auto].
    apply Z.leb_le in E. cbn [app length]. rewrite Nat2Z.inj_succ. lia.
  - destruct H as [H1 H2]. rewrite H1. split; [|auto].
    vm_compute. discriminate.
Qed.

Lemma long_field_bounded_witness :
  let start := u "<page>" ++ [10] in
  let first := u "Một" ++ [10] in
  let body := [u "dòng chữ" ++ [10]; u "dòng nữa" ++ [10]] in
  let open_line := [] ++ u "<text" ++ [] ++ [62] ++ first in
  contains (u "<page>") start = true
  /\ contains (u "<page>") open_line = false
  /\ contains (u "</page>") open_line = false
  /\ Forall (fun line => plain_line line = true) body
  /\ exists v',
      parse_lines (mkExtractor None 0) initial_locals
                  (start :: open_line :: body)
      = Ok (mkExtractor None 0, v')
      /\ Z.of_nat (length (current_text v')) <= max_text_lines
      /\ if (1 + Z.of_nat (length body) <=? max_text_lines)%Z
         then current_text v' = first :: body /\ in_text v' = true
         else current_text v' = [] /\ in_text v' = false.
Proof.
  assert (B : Forall (fun line => plain_line line = true)
                     [u "dòng chữ" ++ [10]; u "dòng nữa" ++ [10]])
    by (repeat constructor).
  repeat (split; [reflexivity|]). split; [exact B|].
  apply (long_field_bounded (mkExtractor None 0) initial_locals
                            (u "<page>" ++ [10]) [] [] (u "Một" ++ [10])
                            [u "dòng chữ" ++ [10]; u "dòng nữa" ++ [10]]);
    first [reflexivity | exact B | constructor].
Defined.

(* ================================================================== *)
(** * The substitutions of the stripper on marked-up text *)
(* ================================================================== *)

Module MarkupFacts.

Ltac lengths := repeat (first [rewrite length_app | progress cbn [length]]).

Lemma sub_loop_skip (r : regex) (t : template) (budget : option nat)
      (m post : pystr) :
  sub_loop r t budget (length m) (m ++ post) = sub_loop r t budget 0 post.
Proof. induction m as [|c m IH]; [reflexivity|]. cbn [length app sub_loop]. exact IH. Qed.

(** One match in a text that has no other place for one: what stands
    before it has no first character of the opening literal, what stands
    after it has no opening literal. *)
Lemma sub_loop_one (a : Z) (l : pystr) (r : regex) (t : template)
      (m post : pystr) (g : option pystr) :
  m <> [] ->
  match_at (Lit (a :: l) +> r) (m ++ post) = Some (length m, g) ->
  contains (a :: l) post = false ->
  forall pre,
    Forall (fun c => c <> a) pre ->
    sub_loop (Lit (a :: l) +> r) t None 0 (pre ++ m ++ post)
    = pre ++ expand t g ++ post.
Proof.
  intros N M P pre F. induction F as [|c pre Hc _ IH].
  - destruct m as [|c0 m']; [congruence|].
    cbn [app sub_loop]. cbn [app] in M. rewrite M. cbn [length option_map].
    rewrite sub_loop_skip. now rewrite StripFacts.sub_loop_absent.
  - cbn [app sub_loop]. unfold match_at at 1. cbn [run strip_prefix].
    apply not_eq_sym in Hc. apply Z.eqb_neq in Hc. rewrite Hc.
    now rewrite IH.
Qed.

(** Lazy repetition stops at the first place where the rest of the
    pattern matches. *)
Lemma star_lazy_first (A : Type) (p : Z -> bool) (k : pystr -> option A)
      (w rest : pystr) (x : A) :
  Forall (fun c => p c = true) w ->
  (forall w1 c w2, w = w1 ++ c :: w2 -> k (c :: w2 ++ rest) = None) ->
  k rest = Some x ->
  star_lazy p k (w ++ rest) = Some x.
Proof.
  intros F. revert k. induction F as [|c w Pc _ IH]; intros k B K.
  - cbn [app]. destruct rest; cbn [star_lazy]; now rewrite K.
  - cbn [app star_lazy]. rewrite (B [] c w eq_refl), Pc.
    apply IH; [|exact K]. intros w1 c' w2 H.
    apply (B (c :: w1) c' w2). simpl. now rewrite H.
Qed.

Lemma match_template (body post : pystr) :
  body <> [] -> Forall (fun c => c <> 125) body ->
  match_at template_re ((u "{{" ++ body ++ u "}}") ++ post)
  = Some (length (u "{{" ++ body ++ u "}}"), None).
Proof.
  intros N F. destruct body as [|b0 body']; [congruence|].
  inversion F as [|? ? H0 F']; subst.
  unfold match_at, template_re. cbn [run].
  rewrite <- !app_assoc. rewrite RecordFacts.strip_prefix_same.
  cbn [app]. unfold none_of at 1. change (u "}") with [125].
  cbn [mem existsb]. apply Z.eqb_neq in H0. rewrite H0. cbn [orb negb].
  erewrite RecordFacts.star_greedy_stop.
  - reflexivity.
  - eapply Forall_impl; [|exact F']. intros c Hc. unfold none_of.
    cbn [mem existsb]. apply Z.eqb_neq in Hc. now rewrite Hc.
  - rewrite RecordFacts.strip_prefix_same. f_equal. f_equal.
    lengths. lia.
  - intros c r H. change (u "}}") with [125; 125] in H. inversion H.
    reflexivity.
Qed.

Lemma match_link (target display post : pystr) :
  Forall (fun c => c <> 124 /\ c <> 93) target ->
  display <> [] -> Forall (fun c => c <> 93) display ->
  match_at link_re ((u "[[" ++ target ++ u "|" ++ display ++ u "]]") ++ post)
  = Some (length (u "[[" ++ target ++ u "|" ++ display ++ u "]]"),
          Some display).
Proof.
  intros T N D. destruct display as [|d0 display']; [congruence|].
  inversion D as [|? ? H0 D']; subst.
  unfold match_at, link_re. cbn [run].
  rewrite <- !app_assoc. rewrite RecordFacts.strip_prefix_same.
  erewrite RecordFacts.star_greedy_stop.
  - reflexivity.
  - eapply Forall_impl; [|exact T]. intros c [H1 H2]. unfold none_of.
    change (u "|]") with [124; 93]. cbn [mem existsb].
    apply Z.eqb_neq in H1. apply Z.eqb_neq in H2. now rewrite H1, H2.
  - change (u "|") with [124]. cbn [app strip_prefix]. rewrite Z.eqb_refl.
    unfold none_of at 1. change (u "]") with [93]. cbn [mem existsb].
    apply Z.eqb_neq in H0. rewrite H0. cbn [orb negb].
    erewrite RecordFacts.star_greedy_stop.
    + reflexivity.
    + eapply Forall_impl; [|exact D']. intros c Hc. unfold none_of.
      cbn [mem existsb]. apply Z.eqb_neq in Hc. now rewrite Hc.
    + rewrite RecordFacts.strip_prefix_same. f_equal. f_equal.
      * lengths. lia.
      * f_equal. lengths.
        replace (S (length display' + (length (u "]]") + length post))
                 - (length (u "]]") + length post))%nat
          with (S (length display')) by lia.
        cbn [firstn]. f_equal.
        rewrite firstn_app, firstn_all, Nat.sub_diag. simpl. apply app_nil_r.
    + intros c r H. change (u "]]") with [93; 93] in H. inversion H.
      reflexivity.
  - intros c r H. change (u "|") with [124] in H. inversion H. reflexivity.
Qed.

Lemma match_ref (attrs content post : pystr) :
  Forall (fun c => c <> 62) attrs ->
  Forall (fun c => c <> 60) content ->
  match_at ref_re
           ((u "<ref" ++ attrs ++ u ">" ++ content ++ u "</ref>") ++ post)
  = Some (length (u "<ref" ++ attrs ++ u ">" ++ content ++ u "</ref>"), None).
Proof.
  intros A C. unfold match_at, ref_re. cbn [run].
  rewrite <- !app_assoc. rewrite RecordFacts.strip_prefix_same.
  erewrite RecordFacts.star_greedy_stop.
  - reflexivity.
  - eapply Forall_impl; [|exact A]. intros c Hc. unfold none_of.
    change (u ">") with [62]. cbn [mem existsb].
    apply Z.eqb_neq in Hc. now rewrite Hc.
  - change (u ">") with [62]. cbn [app strip_prefix]. rewrite Z.eqb_refl.
    erewrite star_lazy_first.
    + reflexivity.
    + eapply Forall_impl; [|exact C]. reflexivity.
    + intros w1 c w2 H.
      assert (Hc : c <> 60).
      { rewrite Forall_forall in C. apply C. rewrite H.
        apply in_or_app. right. now left. }
      change (u "</ref>") with [60; 47; 114; 101; 102; 62] at 1.
      cbn [strip_prefix]. apply not_eq_sym in Hc. apply Z.eqb_neq in Hc.
      now rewrite Hc.
    + rewrite RecordFacts.strip_prefix_same. f_equal. f_equal.
      lengths. lia.
  - intros c r H. change (u ">") with [62] in H. inversion H. reflexivity.
Qed.

(** Greedy repetition fails when the rest of the pattern fails at every
    place it can stop. *)
Lemma star_greedy_none (A : Type) (p : Z -> bool) (k : pystr -> option A)
      (w rest : pystr) :
  (forall w1 w2, w = w1 ++ w2 -> k (w2 ++ rest) = None) ->
  (forall c r, rest = c :: r -> p c = false) ->
  star_greedy p k (w ++ rest) = None.
Proof.
  revert k. induction w as [|c w IH]; intros k K B.
  - cbn [app]. specialize (K [] [] eq_refl). cbn [app] in K.
    destruct rest as [|c r]; [exact K|].
    cbn [star_greedy]. rewrite (B c r eq_refl). exact K.
  - cbn [app star_greedy]. rewrite IH.
    + destruct (p c); exact (K [] (c :: w) eq_refl).
    + intros w1 w2 H. apply (K (c :: w1) w2). simpl. now rewrite H.
    + exact B.
Qed.

Lemma match_plain_link (name post : pystr) :
  name <> [] -> Forall (fun c => c <> 124 /\ c <> 93) name ->
  match_at link_re ((u "[[" ++ name ++ u "]]") ++ post)
  = Some (length (u "[[" ++ name ++ u "]]"), Some name).
Proof.
  intros N F. unfold match_at, link_re. cbn [run].
  rewrite <- !app_assoc. rewrite RecordFacts.strip_prefix_same.
  rewrite star_greedy_none.
  - destruct name as [|d0 name']; [congruence|].
    inversion F as [|? ? [_ H0] F']; subst.
    cbn [app]. unfold none_of at 1. change (u "]") with [93].
    cbn [mem existsb]. apply Z.eqb_neq in H0. rewrite H0. cbn [orb negb].
    erewrite RecordFacts.star_greedy_stop.
    + reflexivity.
    + eapply Forall_impl; [|exact F']. intros c [_ Hc]. unfold none_of.
      cbn [mem existsb]. apply Z.eqb_neq in Hc. now rewrite Hc.
    + rewrite RecordFacts.strip_prefix_same. f_equal. f_equal.
      * lengths. lia.
      * f_equal. lengths.
        replace (S (length name' + (length (u "]]") + length post))
                 - (length (u "]]") + length post))%nat
          with (S (length name')) by lia.
        cbn [firstn]. f_equal.
        rewrite firstn_app, firstn_all, Nat.sub_diag. simpl. apply app_nil_r.
    + intros c r H. change (u "]]") with [93; 93] in H. inversion H.
      reflexivity.
  - intros w1 w2 H. change (u "|") with [124]. destruct w2 as [|c w2].
    + reflexivity.
    + assert (Hc : c <> 124).
      { rewrite Forall_forall in F. apply F. rewrite H.
        apply in_or_app. right. now left. }
      cbn [app strip_prefix]. apply not_eq_sym in Hc.
      apply Z.eqb_neq in Hc. now rewrite Hc.
  - intros c r H. change (u "]]") with [93; 93] in H. inversion H.
    reflexivity.
Qed.

Lemma match_tag (body post : pystr) :
  body <> [] -> Forall (fun c => c <> 62) body ->
  match_at tag_re ((u "<" ++ body ++ u ">") ++ post)
  = Some (length (u "<" ++ body ++ u ">"), None).
Proof.
  intros N F. destruct body as [|b0 body']; [congruence|].
  inversion F as [|? ? H0 F']; subst.
  unfold match_at, tag_re. cbn [run].
  rewrite <- !app_assoc. rewrite RecordFacts.strip_prefix_same.
  cbn [app]. unfold none_of at 1. change (u ">") with [62].
  cbn [mem existsb]. apply Z.eqb_neq in H0. rewrite H0. cbn [orb negb].
  erewrite RecordFacts.star_greedy_stop.
  - reflexivity.
  - eapply Forall_impl; [|exact F']. intros c Hc. unfold none_of.
    cbn [mem existsb]. apply Z.eqb_neq in Hc. now rewrite Hc.
  - cbn [app strip_prefix]. rewrite Z.eqb_refl. f_equal. f_equal.
    lengths. lia.
  - intros c r H. inversion H. reflexivity.
Qed.

End MarkupFacts.

(** X18.  A template is removed: in a text with [{{body}}] where [body], not
    empty, has no closing brace, and no other place for a template, the
    first substitution of the stripper takes out the template and nothing
    else. *)
Theorem template_removed :
  forall pre body post : pystr,
    Forall (fun c => c <> 123) pre ->
    body <> [] ->
    Forall (fun c => c <> 125) body ->
    contains (u "{{") post = false ->
    sub template_re [] (pre ++ (u "{{" ++ body ++ u "}}") ++ post) 0
    = Ok (pre ++ post).
Proof.
  intros pre body post P N B Q. unfold sub.
  replace (template_ok template_re []) with true by reflexivity.
  f_equal. unfold template_re. change (u "{{") with [123; 123] at 1.
  rewrite (MarkupFacts.sub_loop_one
             123 [123] _ [] (u "{{" ++ body ++ u "}}") post None).
  - reflexivity.
  - discriminate.
  - apply MarkupFacts.match_template; assumption.
  - exact Q.
  - exact P.
Qed.

Lemma template_removed_witness :
  let pre := u "Hà Nội " in
  let body := u "cite|web" in
  let post := u " là thủ đô {x}." in
  Forall (fun c => c <> 123) pre
  /\ body <> []
  /\ Forall (fun c => c <> 125) body
  /\ contains (u "{{") post = false
  /\ sub template_re [] (pre ++ (u "{{" ++ body ++ u "}}") ++ post) 0
     = Ok (pre ++ post).
Proof.
  assert (P : Forall (fun c => c <> 123) (u "Hà Nội "))
    by (repeat constructor; discriminate).
  assert (B : Forall (fun c => c <> 125) (u "cite|web"))
    by (repeat constructor; discriminate).
  split; [exact P|]. split; [discriminate|]. split; [exact B|].
  split; [reflexivity|].
  apply (template_removed (u "Hà Nội ") (u "cite|web") (u " là thủ đô {x}."));
    [exact P|discriminate|exact B|reflexivity].
Defined.

(** X19.  A piped link is replaced by its display text: in a text with
    [[[target|display]]], where [target] has no bar and no closing
    bracket and [display], not empty, has no closing bracket, and no other
    place for a link, the second substitution of the stripper leaves
    [display] for the link and drops the target. *)
Theorem piped_link_resolved :
  forall pre target display post : pystr,
    Forall (fun c => c <> 91) pre ->
    Forall (fun c => c <> 124 /\ c <> 93) target ->
    display <> [] ->
    Forall (fun c => c <> 93) display ->
    contains (u "[[") post = false ->
    sub link_re [TGroup 1]
        (pre ++ (u "[[" ++ target ++ u "|" ++ display ++ u "]]") ++ post) 0
    = Ok (pre ++ display ++ post).
Proof.
  intros pre target display post P T N D Q. unfold sub.
  replace (template_ok link_re [TGroup 1]) with true by reflexivity.
  f_equal. unfold link_re. change (u "[[") with [91; 91] at 1.
  rewrite (MarkupFacts.sub_loop_one
             91 [91] _ [TGroup 1]
             (u "[[" ++ target ++ u "|" ++ display ++ u "]]") post
             (Some display)).
  - cbn [expand flat_map]. now rewrite app_nil_r.
  - discriminate.
  - apply MarkupFacts.match_link; assumption.
  - exact Q.
  - exact P.
Qed.

Lemma piped_link_resolved_witness :
  let pre := u "Thăm " in
  let target := u "Hà Nội" in
  let display := u "thủ đô" in
  let post := u " hôm nay." in
  Forall (fun c => c <> 91) pre
  /\ Forall (fun c => c <> 124 /\ c <> 93) target
  /\ display <> []
  /\ Forall (fun c => c <> 93) display
  /\ contains (u "[[") post = false
  /\ sub link_re [TGroup 1]
         (pre ++ (u "[[" ++ target ++ u "|" ++ display ++ u "]]") ++ post) 0
     = Ok (pre ++ display ++ post).
Proof.
  assert (P : Forall (fun c => c <> 91) (u "Thăm "))
    by (repeat constructor; discriminate).
  assert (T : Forall (fun c => c <> 124 /\ c <> 93) (u "Hà Nội"))
    by (repeat constructor; discriminate).
  assert (D : Forall (fun c => c <> 93) (u "thủ đô"))
    by (repeat constructor; discriminate).
  split; [exact P|]. split; [exact T|]. split; [discriminate|].
  split; [exact D|]. split; [reflexivity|].
  apply (piped_link_resolved (u "Thăm ") (u "Hà Nội") (u "thủ đô")
                             (u " hôm nay."));
    [exact P|exact T|discriminate|exact D|reflexivity].
Defined.

(** X20.  A reference is removed up to its first closing tag: in a text with
    [<ref attrs>content</ref>], where [attrs] has no [>] and [content] no
    [<], and no other place for a reference, the third substitution of
    the stripper takes out the reference, tags and content, and nothing
    else. *)
Theorem reference_removed :
  forall pre attrs content post : pystr,
    Forall (fun c => c <> 60) pre ->
    Forall (fun c => c <> 62) attrs ->
    Forall (fun c => c <> 60) content ->
    contains (u "<ref") post = false ->
    sub ref_re []
        (pre ++ (u "<ref" ++ attrs ++ u ">" ++ content ++ u "</ref>") ++ post) 0
    = Ok (pre ++ post).
Proof.
  intros pre attrs content post P A C Q. unfold sub.
  replace (template_ok ref_re []) with true by reflexivity.
  f_equal. unfold ref_re. change (u "<ref") with [60; 114; 101; 102] at 1.
  rewrite (MarkupFacts.sub_loop_one
             60 [114; 101; 102] _ []
             (u "<ref" ++ attrs ++ u ">" ++ content ++ u "</ref>") post None).
  - reflexivity.
  - discriminate.
  - apply MarkupFacts.match_ref; assumption.
  - exact Q.
  - exact P.
Qed.

Lemma reference_removed_witness :
  let pre := u "Dân số tăng" in
  let attrs := u " name=a" in
  let content := u "Báo cáo 2020" ++ [10] ++ u "trang 3" in
  let post := u ". Hết</ref>" in
  Forall (fun c => c <> 60) pre
  /\ Forall (fun c => c <> 62) attrs
  /\ Forall (fun c => c <> 60) content
  /\ contains (u "<ref") post = false
  /\ sub ref_re []
         (pre ++ (u "<ref" ++ attrs ++ u ">" ++ content ++ u "</ref>") ++ post) 0
     = Ok (pre ++ post).
Proof.
  assert (P : Forall (fun c => c <> 60) (u "Dân số tăng"))
    by (repeat constructor; discriminate).
  assert (A : Forall (fun c => c <> 62) (u " name=a"))
    by (repeat constructor; discriminate).
  assert (C : Forall (fun c => c <> 60) (u "Báo cáo 2020" ++ [10] ++ u "trang 3"))
    by (repeat constructor; discriminate).
  split; [exact P|]. split; [exact A|]. split; [exact C|].
  split; [reflexivity|].
  apply (reference_removed (u "Dân số tăng") (u " name=a")
                           (u "Báo cáo 2020" ++ [10] ++ u "trang 3")
                           (u ". Hết</ref>"));
    [exact P|exact A|exact C|reflexivity].
Defined.

(** X21.  A link without a bar is unwrapped, whatever it names: in a text with
    [[[name]]], where [name], not empty, has no bar and no closing bracket,
    and no other place for a link, the second substitution of the stripper
    leaves [name] for the link.  A category or file link written this way
    is thus already unwrapped when the last substitution runs. *)
Theorem plain_link_unwrapped :
  forall pre name post : pystr,
    Forall (fun c => c <> 91) pre ->
    name <> [] ->
    Forall (fun c => c <> 124 /\ c <> 93) name ->
    contains (u "[[") post = false ->
    sub link_re [TGroup 1] (pre ++ (u "[[" ++ name ++ u "]]") ++ post) 0
    = Ok (pre ++ name ++ post).
Proof.
  intros pre name post P N F Q. unfold sub.
  replace (template_ok link_re [TGroup 1]) with true by reflexivity.
  f_equal. unfold link_re. change (u "[[") with [91; 91] at 1.
  rewrite (MarkupFacts.sub_loop_one
             91 [91] _ [TGroup 1] (u "[[" ++ name ++ u "]]") post (Some name)).
  - cbn [expand flat_map]. now rewrite app_nil_r.
  - discriminate.
  - apply MarkupFacts.match_plain_link; assumption.
  - exact Q.
  - exact P.
Qed.

Lemma plain_link_unwrapped_witness :
  let pre := u "Xem " in
  let name := u "Thể loại:Ảo thuật" in
  let post := u " nhé." in
  Forall (fun c => c <> 91) pre
  /\ name <> []
  /\ Forall (fun c => c <> 124 /\ c <> 93) name
  /\ contains (u "[[") post = false
  /\ sub link_re [TGroup 1] (pre ++ (u "[[" ++ name ++ u "]]") ++ post) 0
     = Ok (pre ++ name ++ post).
Proof.
  assert (P : Forall (fun c => c <> 91) (u "Xem "))
    by (repeat constructor; discriminate).
  assert (F : Forall (fun c => c <> 124 /\ c <> 93) (u "Thể loại:Ảo thuật"))
    by (repeat constructor; discriminate).
  split; [exact P|]. split; [discriminate|]. split; [exact F|].
  split; [reflexivity|].
  apply (plain_link_unwrapped (u "Xem ") (u "Thể loại:Ảo thuật") (u " nhé."));
    [exact P|discriminate|exact F|reflexivity].
Defined.

(** X22.  Whatever stands between [<] and the next [>] is removed as a tag, be it
    markup or not: in a text with [<body>], where [body], not empty, has no
    [>], and no other [<], the fourth substitution of the stripper takes
    out the bracketed part and nothing else. *)
Theorem tag_removed :
  forall pre body post : pystr,
    Forall (fun c => c <> 60) pre ->
    body <> [] ->
    Forall (fun c => c <> 62) body ->
    contains (u "<") post = false ->
    sub tag_re [] (pre ++ (u "<" ++ body ++ u ">") ++ post) 0
    = Ok (pre ++ post).
Proof.
  intros pre body post P N B Q. unfold sub.
  replace (template_ok tag_re []) with true by reflexivity.
  f_equal. unfold tag_re. change (u "<") with [60] at 1.
  rewrite (MarkupFacts.sub_loop_one
             60 [] _ [] (u "<" ++ body ++ u ">") post None).
  - reflexivity.
  - discriminate.
  - apply MarkupFacts.match_tag; assumption.
  - exact Q.
  - exact P.
Qed.

Lemma tag_removed_witness :
  let pre := u "Nếu số a " in
  let body := u " b và số c " in
  let post := u " d thì dừng." in
  Forall (fun c => c <> 60) pre
  /\ body <> []
  /\ Forall (fun c => c <> 62) body
  /\ contains (u "<") post = false
  /\ sub tag_re [] (pre ++ (u "<" ++ body ++ u ">") ++ post) 0
     = Ok (pre ++ post).
Proof.
  assert (P : Forall (fun c => c <> 60) (u "Nếu số a "))
    by (repeat constructor; discriminate).
  assert (B : Forall (fun c => c <> 62) (u " b và số c "))
    by (repeat constructor; discriminate).
  split; [exact P|]. split; [discriminate|]. split; [exact B|].
  split; [reflexivity|].
  apply (tag_removed (u "Nếu số a ") (u " b và số c ") (u " d thì dừng."));
    [exact P|discriminate|exact B|reflexivity].
Defined.
